(** * StreamAPI: the extraction, validation and de-duplication pipeline

    A shallow embedding of the shared utilities that search.js and
    details.js require from [./utils] ([formatThumbnailUrl],
    [extractVideoPath], [cleanVideoData]; their text closes app.js), of
    details.js ([parseVideoArray], [extractRelatedVideos], the details
    route) and of search.js ([extractSearchResults], the search route).

    Modelling conventions.
    - A JavaScript string is a Rocq [string]; every character stands for
      one code unit below 256.
    - A JavaScript number is [NaN] or an integer ([Int z]); fractions,
      infinities and the negative zero are outside the model, and
      arithmetic on integers is exact (no rounding of long digit strings,
      no overflow to Infinity).
    - A regular expression is a value of [regex], run by a backtracking
      matcher with the priorities of the ECMAScript one (greedy and lazy
      stars, capture groups).
    - An exception is the [Thrown] outcome; [try]/[catch] is a match on it.
    - What cheerio computes from the DOM is an input of the model (the
      record [page]); the outbound HTTP request is the [Fetch] node of a
      small program tree. *)

From Stdlib Require Import ZArith Ascii String Bool Lia.
From Stdlib Require Import DecimalString DecimalZ.
From stdpp Require Import base list strings gmap.

Open Scope string_scope.

(** ** Strings *)

Module Str.

(** [s.length] *)
Definition len (s : string) : nat := String.length s.

Fixpoint drop (n : nat) (s : string) : string :=
  match n, s with
  | S n', String _ s' => drop n' s'
  | _, _ => s
  end.

Fixpoint take (n : nat) (s : string) : string :=
  match n, s with
  | S n', String c s' => String c (take n' s')
  | _, _ => ""
  end.

(** [s.startsWith(p)] *)
Fixpoint startsWith (p s : string) : bool :=
  match p, s with
  | "", _ => true
  | String a p', String b s' => Ascii.eqb a b && startsWith p' s'
  | String _ _, "" => false
  end.

(** [s.includes(p)] *)
Fixpoint includes (p s : string) : bool :=
  startsWith p s ||
  match s with
  | "" => false
  | String _ s' => includes p s'
  end.

(** White space and line terminators of ECMAScript among the code units
    below 256: TAB, LF, VT, FF, CR, SP and NBSP. *)
Definition isSpace (c : ascii) : bool :=
  let n := nat_of_ascii c in
  (((9 <=? n) && (n <=? 13)) || (n =? 32) || (n =? 160))%nat.

Fixpoint trimStart (s : string) : string :=
  match s with
  | "" => ""
  | String c s' => if isSpace c then trimStart s' else s
  end.

Fixpoint trimEnd (s : string) : string :=
  match s with
  | "" => ""
  | String c s' =>
      match trimEnd s' with
      | "" => if isSpace c then "" else String c ""
      | t => String c t
      end
  end.

(** [s.trim()] *)
Definition trim (s : string) : string := trimEnd (trimStart s).

(** [s.replace(/c/g, by)] for a one-character pattern. *)
Fixpoint replaceChar (c : ascii) (by_ : string) (s : string) : string :=
  match s with
  | "" => ""
  | String a s' =>
      (if Ascii.eqb a c then by_ else String a "") ++ replaceChar c by_ s'
  end.

(** Membership of a character in a string. *)
Fixpoint mem (c : ascii) (s : string) : bool :=
  match s with
  | "" => false
  | String a s' => Ascii.eqb a c || mem c s'
  end.

End Str.

(** ** Regular expressions

    The fragment of ECMAScript regular expressions the sources use:
    character classes, sequences, greedy and lazy stars, capture groups.
    [run] is the backtracking matcher in continuation-passing style: the
    continuation is the rest of the pattern, [None] makes the matcher try
    its next alternative. *)

Module Regex.

Inductive regex : Type :=
| Eps
| Chr (p : ascii -> bool)
| Seq (r1 r2 : regex)
| Star (greedy : bool) (r : regex)
| Group (i : nat) (r : regex).

(** Captures, most recent first. *)
Definition captures : Type := list (nat * string).

Section Matcher.
Context {A : Type}.

Definition cont : Type := string -> captures -> option A.

(** One star: at most [n] more iterations, each of which must consume a
    character (an empty iteration is a failure). *)
Definition starLoop (body : string -> captures -> cont -> option A)
    (greedy : bool) (k : cont) : nat -> string -> captures -> option A :=
  fix loop (n : nat) (s : string) (cs : captures) {struct n} : option A :=
    match n with
    | O => k s cs
    | S n' =>
        let again (_ : unit) :=
          body s cs (fun s' cs' =>
            if (Str.len s' <? Str.len s)%nat then loop n' s' cs' else None) in
        if greedy then
          match again tt with
          | Some a => Some a
          | None => k s cs
          end
        else
          match k s cs with
          | Some a => Some a
          | None => again tt
          end
    end.

Fixpoint run (r : regex) (s : string) (cs : captures) (k : cont) {struct r}
    : option A :=
  match r with
  | Eps => k s cs
  | Chr p =>
      match s with
      | String c s' => if p c then k s' cs else None
      | "" => None
      end
  | Seq r1 r2 => run r1 s cs (fun s' cs' => run r2 s' cs' k)
  | Star greedy r1 => starLoop (run r1) greedy k (Str.len s) s cs
  | Group i r1 =>
      run r1 s cs (fun s' cs' =>
        k s' ((i, Str.take (Str.len s - Str.len s') s) :: cs'))
  end.

End Matcher.

(** Pattern syntax. *)
Definition chr (c : ascii) : regex := Chr (Ascii.eqb c).
Definition notChr (c : ascii) : regex := Chr (fun a => negb (Ascii.eqb c a)).
Definition any : regex := Chr (fun _ => true).
Definition space : regex := Chr Str.isSpace.
Definition star (r : regex) : regex := Star true r.
Definition starLazy (r : regex) : regex := Star false r.
Definition plus (r : regex) : regex := Seq r (Star true r).

Fixpoint lit (l : string) : regex :=
  match l with
  | "" => Eps
  | String c l' => Seq (chr c) (lit l')
  end.

Fixpoint seq (rs : list regex) : regex :=
  match rs with
  | [] => Eps
  | r :: rs' => Seq r (seq rs')
  end.

Definition isDigit (c : ascii) : bool :=
  let n := nat_of_ascii c in ((48 <=? n) && (n <=? 57))%nat.
Definition isAlpha_ (c : ascii) : bool :=
  let n := nat_of_ascii c in
  (((65 <=? n) && (n <=? 90)) || ((97 <=? n) && (n <=? 122)) || (n =? 95))%nat.
Definition digit : regex := Chr isDigit.

(** The result of a match: where it starts, the matched text, the
    captures and what follows the match. *)
Record found : Type := Found {
  index : nat;
  whole : string;
  groups : captures;
  rest : string
}.

(** A match that starts at the first character of [s]. *)
Definition matchHere (r : regex) (s : string) : option found :=
  run r s [] (fun s' cs =>
    Some (Found 0 (Str.take (Str.len s - Str.len s') s) cs s')).

Definition shift (m : found) : found :=
  Found (S (index m)) (whole m) (groups m) (rest m).

(** [s.match(r)] without the [g] flag, [r.exec(s)]: the leftmost match. *)
Fixpoint search (r : regex) (s : string) : option found :=
  match matchHere r s with
  | Some m => Some m
  | None =>
      match s with
      | "" => None
      | String _ s' => shift <$> search r s'
      end
  end.

(** [m[i]], [undefined] when group [i] took no part in the match. *)
Definition group (i : nat) (m : found) : option string :=
  snd <$> List.find (fun c => Nat.eqb (fst c) i) (groups m).

Definition group_or_empty (i : nat) (m : found) : string :=
  default "" (group i m).

(** All matches from left to right, as [s.match(r)] with the [g] flag
    and the [while ((m = r.exec(s)) !== null)] loop see them. After an
    empty match the scan moves one character on. *)
Fixpoint matchAll_go (fuel : nat) (r : regex) (s : string) : list found :=
  match fuel with
  | O => []
  | S fuel' =>
      match search r s with
      | None => []
      | Some m =>
          let after :=
            match whole m, rest m with
            | "", String _ s' => Some s'
            | "", "" => None
            | _, s' => Some s'
            end in
          m :: match after with
               | Some s' => matchAll_go fuel' r s'
               | None => []
               end
      end
  end.

Definition matchAll (r : regex) (s : string) : list found :=
  matchAll_go (S (Str.len s)) r s.

(** [s.replace(r, tpl)] with the [g] flag; [tpl] builds the replacement
    from the match. *)
Fixpoint replaceAll_go (fuel : nat) (r : regex) (tpl : found -> string)
    (s : string) : string :=
  match fuel with
  | O => s
  | S fuel' =>
      match search r s with
      | None => s
      | Some m =>
          Str.take (index m) s ++ tpl m ++
          match whole m, rest m with
          | "", String c s' => String c (replaceAll_go fuel' r tpl s')
          | "", "" => ""
          | _, s' => replaceAll_go fuel' r tpl s'
          end
      end
  end.

Definition replaceAll (r : regex) (tpl : found -> string) (s : string)
    : string :=
  replaceAll_go (S (Str.len s)) r tpl s.

(** [s.replace(r, tpl)] without the [g] flag: the first match only. *)
Definition replaceFirst (r : regex) (tpl : found -> string) (s : string)
    : string :=
  match search r s with
  | None => s
  | Some m => Str.take (index m) s ++ tpl m ++ rest m
  end.

End Regex.

(** ** JavaScript values *)

(** A double quote; inside the literals of this file a double quote of
    the JavaScript source is written as an apostrophe and [js] puts the
    double quotes back. *)
Definition dquote : ascii := ascii_of_nat 34.
Definition js (s : string) : string :=
  Str.replaceChar "'" (String dquote "") s.

Inductive jsnum : Type :=
| NaN
| Int (z : Z).

#[warnings="-register-all"]
Inductive jsval : Type :=
| VUndef
| VNull
| VBool (b : bool)
| VNum (n : jsnum)
| VStr (s : string)
| VArr (items : list jsval)
| VObj (fields : list (string * jsval)).

Inductive exn : Type :=
| TypeError
| SyntaxError.

(** The result of running a piece of code: a value or an exception. *)
Inductive outcome (A : Type) : Type :=
| Returned (a : A)
| Thrown (e : exn).
Arguments Returned {A} a.
Arguments Thrown {A} e.

#[global] Instance outcome_ret : MRet outcome := fun _ a => Returned a.
#[global] Instance outcome_bind : MBind outcome := fun _ _ f m =>
  match m with
  | Returned a => f a
  | Thrown e => Thrown e
  end.

#[global] Instance jsnum_eq_dec : EqDecision jsnum.
Proof. solve_decision. Defined.

#[global] Instance jsnum_countable : Countable jsnum.
Proof.
  refine (inj_countable'
    (fun n => match n with NaN => None | Int z => Some z end)
    (fun o => match o with None => NaN | Some z => Int z end) _).
  by intros [].
Defined.

(** ToBoolean *)
Definition truthyNum (n : jsnum) : bool :=
  match n with
  | NaN => false
  | Int z => negb (z =? 0)%Z
  end.

Definition truthyStr (s : string) : bool :=
  match s with
  | "" => false
  | _ => true
  end.

Definition truthy (v : jsval) : bool :=
  match v with
  | VUndef | VNull => false
  | VBool b => b
  | VNum n => truthyNum n
  | VStr s => truthyStr s
  | VArr _ | VObj _ => true
  end.

(** [a || b] *)
Definition or_ (a b : jsval) : jsval := if truthy a then a else b.

(** Number::toString for the integers. *)
Definition Z_to_string (z : Z) : string :=
  NilEmpty.string_of_int (Z.to_int z).

Definition num_to_string (n : jsnum) : string :=
  match n with
  | NaN => "NaN"
  | Int z => Z_to_string z
  end.

Fixpoint join (sep : string) (l : list string) : string :=
  match l with
  | [] => ""
  | [s] => s
  | s :: l' => s ++ sep ++ join sep l'
  end.

(** ToString *)
Fixpoint toStr (v : jsval) : string :=
  match v with
  | VUndef => "undefined"
  | VNull => "null"
  | VBool true => "true"
  | VBool false => "false"
  | VNum n => num_to_string n
  | VStr s => s
  | VArr items =>
      join ","
        (List.map (fun x =>
           match x with
           | VUndef | VNull => ""
           | _ => toStr x
           end) items)
  | VObj _ => "[object Object]"
  end.

(** Own property of an object, the last binding of a name winning. No
    other value has an own property of the names the sources read (what
    a string inherits from its prototype is not modelled). *)
Fixpoint lookup_last (k : string) (fs : list (string * jsval))
    : option jsval :=
  match fs with
  | [] => None
  | (k', v) :: fs' =>
      match lookup_last k fs' with
      | Some v' => Some v'
      | None => if String.eqb k' k then Some v else None
      end
  end.

Definition field (k : string) (v : jsval) : jsval :=
  match v with
  | VObj fs => default VUndef (lookup_last k fs)
  | _ => VUndef
  end.

(** [v.k]: a TypeError on [undefined] and [null]. *)
Definition getProp (v : jsval) (k : string) : outcome jsval :=
  match v with
  | VUndef | VNull => Thrown TypeError
  | _ => Returned (field k v)
  end.

(** [v.trim()]: only a string has the method. *)
Definition callTrim (v : jsval) : outcome string :=
  match v with
  | VStr s => Returned (Str.trim s)
  | _ => Thrown TypeError
  end.

(** *** parseInt *)

Definition digitValue (c : ascii) : option Z :=
  let n := nat_of_ascii c in
  if ((48 <=? n) && (n <=? 57))%nat then Some (Z.of_nat n - 48)%Z
  else if ((97 <=? n) && (n <=? 102))%nat then Some (Z.of_nat n - 87)%Z
  else if ((65 <=? n) && (n <=? 70))%nat then Some (Z.of_nat n - 55)%Z
  else None.

(** The longest prefix of digits of the radix, read from the left. *)
Fixpoint readDigits (radix : Z) (acc : option Z) (s : string) : option Z :=
  match s with
  | "" => acc
  | String c s' =>
      match digitValue c with
      | Some d =>
          if (d <? radix)%Z
          then readDigits radix (Some (default 0%Z acc * radix + d)%Z) s'
          else acc
      | None => acc
      end
  end.

Definition parseIntStr (s : string) : jsnum :=
  let s1 := Str.trimStart s in
  let '(neg, s2) :=
    match s1 with
    | String "-" t => (true, t)
    | String "+" t => (false, t)
    | _ => (false, s1)
    end in
  let '(radix, s3) :=
    if Str.startsWith "0x" s2 || Str.startsWith "0X" s2
    then (16%Z, Str.drop 2 s2) else (10%Z, s2) in
  match readDigits radix None s3 with
  | None => NaN
  | Some z => Int (if neg then - z else z)%Z
  end.

(** [parseInt(v)] *)
Definition parseInt (v : jsval) : jsnum := parseIntStr (toStr v).

(** ** JSON.parse

    The JSON grammar of ECMA-404 over the values above. Two parts of the
    grammar are outside the model and read as a failure here: a number
    with a fraction or an exponent, and a [\u] escape of a code unit
    above 255. *)

Module Json.

Definition isWs (c : ascii) : bool :=
  let n := nat_of_ascii c in
  ((n =? 32) || (n =? 9) || (n =? 10) || (n =? 13))%nat.

Fixpoint skipWs (s : string) : string :=
  match s with
  | String c s' => if isWs c then skipWs s' else s
  | "" => ""
  end.

Definition hex4 (s : string) : option (ascii * string) :=
  match s with
  | String a (String b (String c (String d s'))) =>
      match digitValue a, digitValue b, digitValue c, digitValue d with
      | Some 0%Z, Some 0%Z, Some x, Some y =>
          Some (ascii_of_nat (Z.to_nat (16 * x + y)), s')
      | _, _, _, _ => None
      end
  | _ => None
  end.

(** The characters of a string literal after its opening quote. *)
Fixpoint chars (fuel : nat) (s : string) : option (string * string) :=
  match fuel with
  | O => None
  | S fuel' =>
      match s with
      | "" => None
      | String c s' =>
          if Ascii.eqb c dquote then Some ("", s')
          else if Ascii.eqb c "\" then
            match s' with
            | String e s'' =>
                let one (a : ascii) :=
                  '(t, r) ← chars fuel' s''; Some (String a t, r) in
                if Ascii.eqb e dquote then one dquote
                else if Ascii.eqb e "\" then one "\"%char
                else if Ascii.eqb e "/" then one "/"%char
                else if Ascii.eqb e "b" then one (ascii_of_nat 8)
                else if Ascii.eqb e "f" then one (ascii_of_nat 12)
                else if Ascii.eqb e "n" then one (ascii_of_nat 10)
                else if Ascii.eqb e "r" then one (ascii_of_nat 13)
                else if Ascii.eqb e "t" then one (ascii_of_nat 9)
                else if Ascii.eqb e "u" then
                  '(a, r0) ← hex4 s'';
                  '(t, r) ← chars fuel' r0; Some (String a t, r)
                else None
            | "" => None
            end
          else if (nat_of_ascii c <? 32)%nat then None
          else '(t, r) ← chars fuel' s'; Some (String c t, r)
      end
  end.

Fixpoint digits (s : string) : string * string :=
  match s with
  | String c s' =>
      if Regex.isDigit c
      then let '(d, r) := digits s' in (String c d, r)
      else ("", s)
  | "" => ("", "")
  end.

(** An integer literal: no leading zero, no fraction, no exponent. *)
Definition number (s : string) : option (jsnum * string) :=
  let '(neg, s1) :=
    match s with
    | String "-" t => (true, t)
    | _ => (false, s)
    end in
  let '(d, r) := digits s1 in
  match d with
  | "" => None
  | String "0" (String _ _) => None
  | _ =>
      match r with
      | String "." _ | String "e" _ | String "E" _ => None
      | _ =>
          match readDigits 10 None d with
          | Some z => Some (Int (if neg then - z else z)%Z, r)
          | None => None
          end
      end
  end.

Fixpoint value (fuel : nat) (s : string) : option (jsval * string) :=
  match fuel with
  | O => None
  | S fuel' =>
      match skipWs s with
      | "" => None
      | String c s' =>
          if Ascii.eqb c "{" then
            match skipWs s' with
            | String "}" r => Some (VObj [], r)
            | s1 => '(fs, r) ← members fuel' s1; Some (VObj fs, r)
            end
          else if Ascii.eqb c "[" then
            match skipWs s' with
            | String "]" r => Some (VArr [], r)
            | s1 => '(vs, r) ← elements fuel' s1; Some (VArr vs, r)
            end
          else if Ascii.eqb c dquote then
            '(t, r) ← chars (S (Str.len s')) s'; Some (VStr t, r)
          else if Str.startsWith "true" (String c s') then
            Some (VBool true, Str.drop 4 (String c s'))
          else if Str.startsWith "false" (String c s') then
            Some (VBool false, Str.drop 5 (String c s'))
          else if Str.startsWith "null" (String c s') then
            Some (VNull, Str.drop 4 (String c s'))
          else
            '(n, r) ← number (String c s'); Some (VNum n, r)
      end
  end
with elements (fuel : nat) (s : string) : option (list jsval * string) :=
  match fuel with
  | O => None
  | S fuel' =>
      '(v, r) ← value fuel' s;
      match skipWs r with
      | String "," r' => '(vs, r'') ← elements fuel' r'; Some (v :: vs, r'')
      | String "]" r' => Some ([v], r')
      | _ => None
      end
  end
with members (fuel : nat) (s : string)
    : option (list (string * jsval) * string) :=
  match fuel with
  | O => None
  | S fuel' =>
      match skipWs s with
      | String c s' =>
          if Ascii.eqb c dquote then
            '(k, r) ← chars (S (Str.len s')) s';
            match skipWs r with
            | String ":" r1 =>
                '(v, r2) ← value fuel' r1;
                match skipWs r2 with
                | String "," r3 =>
                    '(fs, r4) ← members fuel' r3; Some ((k, v) :: fs, r4)
                | String "}" r3 => Some ([(k, v)], r3)
                | _ => None
                end
            | _ => None
            end
          else None
      | "" => None
      end
  end.

(** [JSON.parse(text)]: one value, white space around it, nothing else. *)
Definition parse (text : string) : outcome jsval :=
  match value (2 * Str.len text + 2) text with
  | Some (v, r) =>
      match skipWs r with
      | "" => Returned v
      | _ => Thrown SyntaxError
      end
  | None => Thrown SyntaxError
  end.

End Json.

(** ** The shared utilities ([./utils]) *)

(** [formatThumbnailUrl(url)] on a string. *)
Definition formatThumbnailUrl (url : string) : string :=
  if negb (truthyStr url) || negb (Str.includes "xhpingcdn.com" url)
  then url
  else Str.replaceChar "," "%2C"
         (Str.replaceChar ")" "%29" (Str.replaceChar "(" "%28" url)).

(** [/\/videos\/([^\/]+)/] *)
Definition videoPathRe : Regex.regex :=
  Regex.Seq (Regex.lit "/videos/")
            (Regex.Group 1 (Regex.plus (Regex.notChr "/"))).

(** [extractVideoPath(fullUrl)] on a string. *)
Definition extractVideoPath (fullUrl : string) : string :=
  if negb (truthyStr fullUrl) then ""
  else
    match Regex.search videoPathRe fullUrl with
    | Some m => "videos/" ++ Regex.group_or_empty 1 m
    | None => ""
    end.

(** The [landing] object of a cleaned video. *)
Record landingInfo : Type := Landing {
  landing_type : jsval;
  landing_id : option jsnum;
  landing_name : jsval;
  landing_logo : jsval;
  landing_link : jsval
}.

(** The object [cleaned] that [cleanVideoData] builds; [None] in a
    numeric field is [undefined]. *)
Record video : Type := Video {
  id : option jsnum;
  title : string;
  duration : option jsnum;
  created : option jsnum;
  videoType : jsval;
  pageURL : string;
  thumbURL : string;
  previewThumbURL : string;
  imageURL : string;
  spriteURL : string;
  trailerURL : string;
  trailerFallbackUrl : string;
  views : jsnum;
  landing : option landingInfo;
  isThumbCustom : jsval;
  isAdminCustomThumb : jsval;
  userCountry : jsval;
  attributes : jsval;
  classes : jsval
}.

(** [v ? v.trim() : ''] *)
Definition trimOrEmpty (v : jsval) : outcome string :=
  if truthy v then callTrim v else Returned "".

(** [v ? parseInt(v) : undefined] *)
Definition parseIntOrUndefined (v : jsval) : option jsnum :=
  if truthy v then Some (parseInt v) else None.

(** [n !== undefined && n > 0] *)
Definition definedPositive (n : option jsnum) : bool :=
  match n with
  | Some (Int z) => (0 <? z)%Z
  | _ => false
  end.

(** [s && s.length > 0] *)
Definition nonEmpty (s : string) : bool :=
  truthyStr s && (0 <? Str.len s)%nat.

Definition hasValidId (c : video) : bool := definedPositive (id c).
Definition hasValidTitle (c : video) : bool := nonEmpty (title c).
Definition hasValidDuration (c : video) : bool := definedPositive (duration c).
Definition hasValidPageURL (c : video) : bool := nonEmpty (pageURL c).
Definition hasValidThumbURL (c : video) : bool := nonEmpty (thumbURL c).
(** [cleaned.views !== undefined && cleaned.views >= 0]; [views] is
    always a number. *)
Definition hasValidViews (c : video) : bool :=
  match views c with
  | Int z => (0 <=? z)%Z
  | NaN => false
  end.

(** [cleanVideoData(video)]: [Returned None] is the [null] result. The
    fields are evaluated in the order of the object literal, so the first
    failing [trim] decides the exception. *)
Definition cleanVideoData (v : jsval) : outcome (option video) :=
  p ← getProp v "pageURL";
  fullPageURL ← trimOrEmpty p;
  if negb (Str.includes "/videos/" fullPageURL) then Returned None
  else
    title_ ← trimOrEmpty (field "title" v);
    thumb ← trimOrEmpty (field "thumbURL" v);
    preview ← trimOrEmpty (field "previewThumbURL" v);
    image ← trimOrEmpty (field "imageURL" v);
    sprite ← trimOrEmpty (field "spriteURL" v);
    trailer ← trimOrEmpty (field "trailerURL" v);
    fallback ← trimOrEmpty (field "trailerFallbackUrl" v);
    let l := field "landing" v in
    let cleaned := {|
      id := parseIntOrUndefined (field "id" v);
      title := title_;
      duration := parseIntOrUndefined (field "duration" v);
      created := parseIntOrUndefined (field "created" v);
      videoType := or_ (field "videoType" v) (VStr "video");
      pageURL := extractVideoPath fullPageURL;
      thumbURL := formatThumbnailUrl thumb;
      previewThumbURL := preview;
      imageURL := formatThumbnailUrl image;
      spriteURL := sprite;
      trailerURL := trailer;
      trailerFallbackUrl := fallback;
      views :=
        if truthy (field "views" v) then parseInt (field "views" v)
        else Int 0;
      landing :=
        if truthy l then
          Some {|
            landing_type := field "type" l;
            landing_id := parseIntOrUndefined (field "id" l);
            landing_name := or_ (field "name" l) (VStr "");
            landing_logo := or_ (field "logo" l) (VStr "");
            landing_link := or_ (field "link" l) (VStr "")
          |}
        else None;
      isThumbCustom := or_ (field "isThumbCustom" v) (VBool false);
      isAdminCustomThumb := or_ (field "isAdminCustomThumb" v) (VBool false);
      userCountry := or_ (field "userCountry" v) (VStr "");
      attributes := or_ (field "attributes" v) (VObj []);
      classes := or_ (field "classes" v) (VStr "")
    |} in
    if hasValidId cleaned && hasValidTitle cleaned && hasValidDuration cleaned
       && hasValidPageURL cleaned && hasValidThumbURL cleaned
       && hasValidViews cleaned
    then Returned (Some cleaned)
    else Returned None.

(** ** details.js: parseVideoArray *)

(** The two repairs of trailing commas: a comma, white space and a
    closing bracket (or brace) become the closing character alone. *)
Definition dropCommaBefore (close : ascii) (s : string) : string :=
  Regex.replaceAll
    (Regex.seq [Regex.chr ","; Regex.star Regex.space; Regex.chr close])
    (fun _ => String close "") s.

(** The pattern of an unquoted key: an opening brace or a comma, white
    space, an identifier (a letter or underscore, then letters, digits
    and underscores) and a colon; the two groups are the opener and the
    identifier. *)
Definition unquotedKeyRe : Regex.regex :=
  Regex.seq [
    Regex.Group 1 (Regex.Chr (fun c => Ascii.eqb c "{" || Ascii.eqb c ","));
    Regex.star Regex.space;
    Regex.Group 2
      (Regex.Seq (Regex.Chr Regex.isAlpha_)
         (Regex.star
            (Regex.Chr (fun c => Regex.isAlpha_ c || Regex.isDigit c))));
    Regex.chr ":" ].

(** The replacement: group 1, the identifier between double quotes, a
    colon. *)
Definition quoteKeys (s : string) : string :=
  Regex.replaceAll unquotedKeyRe
    (fun m => Regex.group_or_empty 1 m ++ String dquote ""
              ++ Regex.group_or_empty 2 m ++ String dquote ":") s.

Definition isArray (v : jsval) : bool :=
  match v with
  | VArr _ => true
  | _ => false
  end.

Definition arrayItems (v : jsval) : list jsval :=
  match v with
  | VArr l => l
  | _ => []
  end.

(** [video && video.id && video.title && video.pageURL] *)
Definition hasIdTitleUrl (v : jsval) : bool :=
  truthy v && truthy (field "id" v) && truthy (field "title" v)
  && truthy (field "pageURL" v).

(** A quoted key, a colon and white space. *)
Definition keyRe (k : string) : list Regex.regex :=
  [Regex.lit (String dquote k ++ String dquote ":"); Regex.star Regex.space].

(** A quoted string without a double quote inside, its text being
    group [i]. *)
Definition quotedRe (i : nat) : list Regex.regex :=
  [Regex.chr dquote; Regex.Group i (Regex.star (Regex.notChr dquote));
   Regex.chr dquote].

(** The lazy run of characters other than a closing brace. *)
Definition gapRe : Regex.regex := Regex.starLazy (Regex.notChr "}").

(** The [videoRegex] of the manual parsing: id, title, pageURL,
    thumbURL, duration and views in this order. *)
Definition videoRegex : Regex.regex :=
  Regex.seq (
    keyRe "id" ++ [Regex.Group 1 (Regex.plus Regex.digit); gapRe] ++
    keyRe "title" ++ quotedRe 2 ++ [gapRe] ++
    keyRe "pageURL" ++ quotedRe 3 ++ [gapRe] ++
    keyRe "thumbURL" ++ quotedRe 4 ++ [gapRe] ++
    keyRe "duration" ++ [Regex.Group 5 (Regex.plus Regex.digit); gapRe] ++
    keyRe "views" ++ [Regex.Group 6 (Regex.plus Regex.digit)]).

(** The object built from one match of [videoRegex], kept when all six
    fields are truthy. *)
Definition videoOfMatch (m : Regex.found) : list jsval :=
  let g i := Regex.group_or_empty i m in
  let id_ := parseIntStr (g 1) in
  let duration_ := parseIntStr (g 5) in
  let views_ := parseIntStr (g 6) in
  if truthyNum id_ && truthyStr (g 2) && truthyStr (g 3) && truthyStr (g 4)
     && truthyNum duration_ && truthyNum views_
  then [VObj [("id", VNum id_); ("title", VStr (g 2));
              ("pageURL", VStr (g 3)); ("thumbURL", VStr (g 4));
              ("duration", VNum duration_); ("views", VNum views_)]]
  else [].

(** The state of the bracket counting loop; [objectStart = None] is the
    [-1] of the source. *)
Record brackets : Type := Brackets {
  bracketCount : Z;
  objectStart : option nat;
  inString : bool;
  escaped : bool;
  videoObjects : list jsval
}.

(** The [try] block run on one complete top-level object. *)
Definition parseObject (objStr : string) : list jsval :=
  match Json.parse (quoteKeys (Str.trim objStr)) with
  | Returned videoObj =>
      if truthy (field "id" videoObj) && truthy (field "title" videoObj)
         && truthy (field "pageURL" videoObj)
      then [videoObj] else []
  | Thrown _ => []
  end.

(** One iteration of [for (let i = 0; i < videosArrayStr.length; i++)]. *)
Definition bracketStep (str : string) (i : nat) (char : ascii)
    (st : brackets) : brackets :=
  if escaped st then
    Brackets (bracketCount st) (objectStart st) (inString st) false
             (videoObjects st)
  else if Ascii.eqb char "\" then
    Brackets (bracketCount st) (objectStart st) (inString st) true
             (videoObjects st)
  else
    let inString' :=
      if Ascii.eqb char dquote then negb (inString st) else inString st in
    if inString' then
      Brackets (bracketCount st) (objectStart st) inString' false
               (videoObjects st)
    else if Ascii.eqb char "{" then
      Brackets (bracketCount st + 1)
               (if (bracketCount st =? 0)%Z then Some i else objectStart st)
               inString' false (videoObjects st)
    else if Ascii.eqb char "}" then
      let count := (bracketCount st - 1)%Z in
      match (count =? 0)%Z, objectStart st with
      | true, Some start =>
          Brackets count None inString' false
            (videoObjects st ++
             parseObject (Str.take (i + 1 - start) (Str.drop start str)))
      | _, _ =>
          Brackets count (objectStart st) inString' false (videoObjects st)
      end
    else
      Brackets (bracketCount st) (objectStart st) inString' false
               (videoObjects st).

Fixpoint bracketLoop (str : string) (i : nat) (todo : string)
    (st : brackets) : brackets :=
  match todo with
  | "" => st
  | String char todo' => bracketLoop str (S i) todo' (bracketStep str i char st)
  end.

(** [parseVideoArray(videosArrayStr)] *)
Definition parseVideoArray (videosArrayStr : string) : list jsval :=
  let cleanArrayStr :=
    quoteKeys
      (dropCommaBefore "}" (dropCommaBefore "]" (Str.trim videosArrayStr))) in
  let manual (_ : unit) :=
    let byRegex :=
      List.flat_map videoOfMatch (Regex.matchAll videoRegex videosArrayStr) in
    match byRegex with
    | [] =>
        videoObjects
          (bracketLoop videosArrayStr 0 videosArrayStr
             (Brackets 0 None false false []))
    | _ => byRegex
    end in
  match Json.parse cleanArrayStr with
  | Returned videosArray =>
      if isArray videosArray
      then List.filter hasIdTitleUrl (arrayItems videosArray)
      else manual tt
  | Thrown _ => manual tt
  end.

(** ** The fetched document

    [html] is the response body. The other fields are what cheerio hands
    to the extractors: the text of every script element, and the objects
    the DOM callbacks build from the selected elements. *)

Record paginationInfo : Type := Pagination {
  currentPage : Z;
  totalPages : Z;
  hasNext : bool;
  hasPrevious : bool
}.

Record page : Type := Page {
  html : string;
  (** [$(script).html()] of every script element, in document order *)
  scripts : list string;
  (** the objects pushed by the HTML element method of
      [extractRelatedVideos] (title, pageURL and thumbURL present) *)
  relatedCards : list jsval;
  (** the objects pushed by its last method, the pattern scan of the
      whole document *)
  patternFinds : list jsval;
  (** the objects the cheerio fallback of [extractSearchResults] hands to
      [cleanVideoData] (their pageURL contains /videos/) *)
  searchCards : list jsval;
  (** [extractVideoDetails(data)], [None] for [null] *)
  videoDetails : option jsval;
  (** [extractMetadata(data)] *)
  metadata : jsval;
  (** [extractPaginationInfo(data)] *)
  pagination : paginationInfo
}.

(** [videos.map(cleanVideoData).filter(v => v !== null)] *)
Fixpoint cleanAll (videos : list jsval) : outcome (list video) :=
  match videos with
  | [] => Returned []
  | v :: videos' =>
      c ← cleanVideoData v;
      cs ← cleanAll videos';
      Returned (match c with
                | Some x => x :: cs
                | None => cs
                end)
  end.

(** ** details.js: extractRelatedVideos *)

(** The array of a videoThumbProps key, group 1: an opening bracket, a
    lazy run of any characters, a closing bracket; then white space and a
    closing brace. *)
Definition thumbPropsRe : list Regex.regex :=
  keyRe "videoThumbProps" ++
  [Regex.Group 1
     (Regex.seq [Regex.chr "["; Regex.starLazy Regex.any; Regex.chr "]"]);
   Regex.star Regex.space; Regex.chr "}"].

(** A key whose value opens a brace, followed by characters other than a
    closing brace. *)
Definition scopeRe (k : string) : list Regex.regex :=
  keyRe k ++ [Regex.chr "{"; Regex.star (Regex.notChr "}")].

Definition relatedComponentRe : Regex.regex :=
  Regex.seq (scopeRe "relatedVideosComponent" ++ scopeRe "videoTabInitialData"
             ++ scopeRe "videoListProps" ++ thumbPropsRe).

Definition videoTabRe : Regex.regex :=
  Regex.seq (scopeRe "videoTabInitialData" ++ scopeRe "videoListProps"
             ++ thumbPropsRe).

Definition generalThumbPropsRe : Regex.regex := Regex.seq thumbPropsRe.

(** The body of one [$('script').each] callback: the finds of a script
    whose text contains the quoted [marker] and matches [re]. *)
Definition scriptFinds (marker : string) (re : Regex.regex)
    (content : string) : list jsval :=
  if truthyStr content
     && Str.includes (String dquote marker ++ String dquote "") content
  then
    match Regex.search re content with
    | Some dataMatch => parseVideoArray (Regex.group_or_empty 1 dataMatch)
    | None => []
    end
  else [].

(** One pass over the script elements, pushing onto [videos]. *)
Definition scriptMethod (marker : string) (re : Regex.regex) (p : page)
    : list jsval :=
  List.flat_map (scriptFinds marker re) (scripts p).

Definition method1 : page -> list jsval :=
  scriptMethod "relatedVideosComponent" relatedComponentRe.
Definition method2 : page -> list jsval :=
  scriptMethod "videoTabInitialData" videoTabRe.
Definition method3 : page -> list jsval :=
  scriptMethod "videoThumbProps" generalThumbPropsRe.

(** The array [videos] when the five methods have run: each method after
    the first is guarded by [videos.length === 0]. *)
Definition relatedCandidates (p : page) : list jsval :=
  let videos := method1 p in
  let videos :=
    if (List.length videos =? 0)%nat then (videos ++ method2 p)%list else videos in
  let videos :=
    if (List.length videos =? 0)%nat then (videos ++ method3 p)%list else videos in
  let videos :=
    if (List.length videos =? 0)%nat then (videos ++ relatedCards p)%list else videos in
  let videos :=
    if (List.length videos =? 0)%nat then (videos ++ patternFinds p)%list else videos in
  videos.

(** [extractRelatedVideos(html)]; the outer [catch] returns []. *)
Definition extractRelatedVideos (p : page) : list video :=
  match cleanAll (relatedCandidates p) with
  | Returned cleanedVideos => cleanedVideos
  | Thrown _ => []
  end.

(** [extractVideoStreamUrl(html)]: the href of the preload link. *)
Definition preloadRe : Regex.regex :=
  Regex.seq [
    Regex.lit (js "<link rel='preload' href='");
    Regex.Group 1 (Regex.plus (Regex.notChr dquote));
    Regex.chr dquote; Regex.star (Regex.notChr ">");
    Regex.lit (js "crossorigin='true'>") ].

Definition extractVideoStreamUrl (p : page) : option string :=
  m ← Regex.search preloadRe (html p); Regex.group 1 m.

(** ** search.js: extractSearchResults *)

(** The searchResult object, group 1: from its opening brace lazily to
    the videoThumbProps key, the array up to the first bracket and brace
    that a comma follows. The flag [s] lets the dot match every
    character. *)
Definition searchResultRe : Regex.regex :=
  Regex.seq (
    keyRe "searchResult" ++
    [Regex.Group 1
       (Regex.seq ([Regex.chr "{"; Regex.starLazy Regex.any]
                   ++ keyRe "videoThumbProps"
                   ++ [Regex.chr "["; Regex.starLazy Regex.any;
                       Regex.lit "]}"]));
     Regex.chr ","]).

(** A whole script element, its text being group 1. *)
Definition scriptTagRe : Regex.regex :=
  Regex.seq [
    Regex.lit "<script"; Regex.star (Regex.notChr ">"); Regex.chr ">";
    Regex.Group 1 (Regex.starLazy Regex.any); Regex.lit "</script>" ].

(** The first [try] block: [None] when it falls through, by its
    condition or by an exception. *)
Definition fromSearchResult (p : page) : option (list video) :=
  match Regex.search searchResultRe (html p) with
  | None => None
  | Some jsonMatch =>
      let jsonStr :=
        quoteKeys (dropCommaBefore "]"
          (dropCommaBefore "}" (Regex.group_or_empty 1 jsonMatch))) in
      let attempt :=
        data ← Json.parse jsonStr;
        props ← getProp data "videoThumbProps";
        if truthy props && isArray props
        then validVideos ← cleanAll (arrayItems props);
             Returned (Some validVideos)
        else Returned None in
      match attempt with
      | Returned r => r
      | Thrown _ => None
      end
  end.

(** The body of the loop over the script tags: [Some] when it returns. *)
Definition fromScriptTag (scriptTag : string) : option (list video) :=
  let content :=
    Regex.replaceFirst scriptTagRe (Regex.group_or_empty 1) scriptTag in
  if Str.includes (js "'videoThumbProps'") content then
    match Regex.search generalThumbPropsRe content with
    | None => None
    | Some arrayMatch =>
        let arrayStr :=
          quoteKeys (dropCommaBefore "}"
            (dropCommaBefore "]" (Regex.group_or_empty 1 arrayMatch))) in
        let attempt :=
          videosArray ← Json.parse arrayStr;
          if isArray videosArray
          then validVideos ← cleanAll (arrayItems videosArray);
               Returned (Some validVideos)
          else Returned None in
        match attempt with
        | Returned r => r
        | Thrown _ => None
        end
    end
  else None.

Fixpoint fromScriptTags (scriptTags : list string) : option (list video) :=
  match scriptTags with
  | [] => None
  | scriptTag :: more =>
      match fromScriptTag scriptTag with
      | Some validVideos => Some validVideos
      | None => fromScriptTags more
      end
  end.

(** [extractSearchResults(html)] *)
Definition extractSearchResults (p : page) : list video :=
  match fromSearchResult p with
  | Some validVideos => validVideos
  | None =>
      match fromScriptTags
              (Regex.whole <$> Regex.matchAll scriptTagRe (html p)) with
      | Some validVideos => validVideos
      | None =>
          match cleanAll (searchCards p) with
          | Returned videos => videos
          | Thrown _ => []
          end
      end
  end.

(** ** The routes: de-duplication, completeness filter, meta *)

(** Truthiness of a numeric field that may be [undefined]. *)
Definition truthyField (n : option jsnum) : bool :=
  match n with
  | Some x => truthyNum x
  | None => false
  end.

(** [!video || !video.id || !video.title || !video.pageURL], the
    skip-invalid guard of both loops. *)
Definition skipInvalid (v : video) : bool :=
  negb (truthyField (id v)) || negb (truthyStr (title v))
  || negb (truthyStr (pageURL v)).

(** The template string of [uniqueKey]: id, title and pageURL joined by
    dashes. *)
Definition uniqueKey (v : video) : string :=
  match id v with
  | Some n => num_to_string n
  | None => "undefined"
  end ++ "-" ++ title v ++ "-" ++ pageURL v.

(** The search loop and its three sets. *)
Record searchSeen : Type := SearchSeen {
  seenIds : gset (option jsnum);
  seenTitles : gset string;
  seenUrls : gset string;
  uniqueVideos : list video
}.

Definition searchDedupStep (st : searchSeen) (v : video) : searchSeen :=
  if skipInvalid v then st
  else if bool_decide (id v ∈ seenIds st)
          || bool_decide (title v ∈ seenTitles st)
          || bool_decide (pageURL v ∈ seenUrls st)
  then st
  else {|
    seenIds := seenIds st ∪ {[ id v ]};
    seenTitles := seenTitles st ∪ {[ title v ]};
    seenUrls := seenUrls st ∪ {[ pageURL v ]};
    uniqueVideos := uniqueVideos st ++ [v]
  |}.

(** The state of the loop after [results.forEach]. *)
Definition searchState (results : list video) : searchSeen :=
  foldl searchDedupStep (SearchSeen ∅ ∅ ∅ []) results.

Definition searchDedup (results : list video) : list video :=
  uniqueVideos (searchState results).

(** The related-videos loop and its set of keys. *)
Record relatedSeen : Type := RelatedSeen {
  seenKeys : gset string;
  uniqueRelatedVideos : list video
}.

Definition relatedDedupStep (st : relatedSeen) (v : video) : relatedSeen :=
  if skipInvalid v then st
  else if bool_decide (uniqueKey v ∈ seenKeys st) then st
  else {|
    seenKeys := seenKeys st ∪ {[ uniqueKey v ]};
    uniqueRelatedVideos := uniqueRelatedVideos st ++ [v]
  |}.

Definition relatedState (relatedVideos : list video) : relatedSeen :=
  foldl relatedDedupStep (RelatedSeen ∅ []) relatedVideos.

Definition relatedDedup (relatedVideos : list video) : list video :=
  uniqueRelatedVideos (relatedState relatedVideos).

(** The completeness filter of both routes; [video.views !== undefined]
    holds of every [video]. *)
Definition isComplete (v : video) : bool :=
  truthyField (id v) && truthyStr (title v) && truthyField (duration v)
  && truthyStr (pageURL v) && Str.includes "videos/" (pageURL v)
  && truthyStr (thumbURL v) && true.

(** [a.length] as a number. *)
Definition count {A : Type} (l : list A) : Z := Z.of_nat (List.length l).

Record searchMeta : Type := SearchMeta {
  totalFound : Z;
  uniqueVideosCount : Z;
  completeVideos : Z;
  searchDuplicatesRemoved : Z;
  filtered : Z
}.

Record relatedMeta : Type := RelatedMeta {
  totalRelated : Z;
  uniqueRelated : Z;
  completeRelated : Z;
  filteredRelated : Z;
  relatedDuplicatesRemoved : Z
}.

Record searchBody : Type := SearchBody {
  searchResult : list video;
  searchPagination : paginationInfo;
  requestedPage : jsnum;
  searchStats : searchMeta
}.

Record detailsBody : Type := DetailsBody {
  detailsVideo : jsval;
  detailsMetadata : jsval;
  streamUrl : option string;
  relatedVideos : list video;
  relatedStats : relatedMeta
}.

(** What a route sends: the JSON body of a success, or a status with an
    error and, for a failed fetch, the message of the exception. *)
Inductive response (B : Type) : Type :=
| Ok (body : B)
| Failure (status : Z) (error : string) (message : option string).
Arguments Ok {B} body.
Arguments Failure {B} status error message.

(** The result of [axios.get]: the document, or the exception with the
    status of its response when there is one. *)
Inductive fetched : Type :=
| Fetched (data : page)
| FetchError (status : option Z) (message : string).

(** A route handler: it answers, or it awaits one outbound request and
    goes on with its result. *)
Inductive handler (R : Type) : Type :=
| Answer (r : R)
| Fetch (url : string) (timeout : Z) (k : fetched -> handler R).
Arguments Answer {R} r.
Arguments Fetch {R} url timeout k.

(** The requests a handler sends when the network answers by [net]. *)
Fixpoint requests {R : Type} (net : string -> fetched) (h : handler R)
    : list string :=
  match h with
  | Answer _ => []
  | Fetch url _ k => url :: requests net (k (net url))
  end.

(** The response it ends with. *)
Fixpoint answer {R : Type} (net : string -> fetched) (h : handler R) : R :=
  match h with
  | Answer r => r
  | Fetch url _ k => answer net (k (net url))
  end.

(** The body of the search response, once the document is there. *)
Definition searchResponse (pageNum : jsnum) (data : page) : searchBody :=
  let results := extractSearchResults data in
  let paginationInfo := pagination data in
  let uniqueVideos := searchDedup results in
  let completeResults := List.filter isComplete uniqueVideos in
  {| searchResult := completeResults;
     searchPagination := paginationInfo;
     requestedPage := pageNum;
     searchStats := {|
       totalFound := count results;
       uniqueVideosCount := count uniqueVideos;
       completeVideos := count completeResults;
       searchDuplicatesRemoved := count results - count uniqueVideos;
       filtered := count uniqueVideos - count completeResults
     |} |}.

(** The body of the details response. *)
Definition detailsResponse (details : jsval) (data : page) : detailsBody :=
  let relatedVideos := extractRelatedVideos data in
  let uniqueRelatedVideos := relatedDedup relatedVideos in
  let completeRelatedVideos := List.filter isComplete uniqueRelatedVideos in
  {| detailsVideo := details;
     detailsMetadata := metadata data;
     streamUrl := extractVideoStreamUrl data;
     relatedVideos := completeRelatedVideos;
     relatedStats := {|
       totalRelated := count relatedVideos;
       uniqueRelated := count uniqueRelatedVideos;
       completeRelated := count completeRelatedVideos;
       filteredRelated :=
         count uniqueRelatedVideos - count completeRelatedVideos;
       relatedDuplicatesRemoved :=
         count relatedVideos - count uniqueRelatedVideos
     |} |}.

Section Routes.

(** [encodeURIComponent], a built-in the model leaves open. *)
Variable encodeURIComponent : string -> string.

(** [parseInt(page) || 1], [page] defaulting to 1. *)
Definition pageNumber (page : option string) : jsnum :=
  match page with
  | None => Int 1
  | Some s => let n := parseIntStr s in if truthyNum n then n else Int 1
  end.

Definition searchUrl (query : string) (pageNum : jsnum) : string :=
  "https://xhamster19.com/search/" ++ encodeURIComponent query ++
  match pageNum with
  | Int z => if (1 <? z)%Z then "?page=" ++ num_to_string pageNum else ""
  | NaN => ""
  end.

(** [router.get('/:query/:page?')] of search.js *)
Definition searchRoute (query : string) (page : option string)
    : handler (response searchBody) :=
  let pageNum := pageNumber page in
  Fetch (searchUrl query pageNum) 10000 (fun r =>
    match r with
    | Fetched data => Answer (Ok (searchResponse pageNum data))
    | FetchError _ message =>
        Answer (Failure 500 "Failed to fetch search results" (Some message))
    end).

End Routes.

(** [router.get('/:path( * )')] of details.js *)
Definition detailsRoute (path : string) : handler (response detailsBody) :=
  if negb (Str.startsWith "videos/" path) then
    Answer (Failure 400 "Invalid path. Must start with videos/" None)
  else
    Fetch ("https://xhamster19.com/" ++ path) 15000 (fun r =>
      match r with
      | Fetched data =>
          match videoDetails data with
          | None => Answer (Failure 404 "Video details not found" None)
          | Some details => Answer (Ok (detailsResponse details data))
          end
      | FetchError status message =>
          if bool_decide (status = Some 404%Z)
          then Answer (Failure 404 "Video not found" None)
          else Answer (Failure 500 "Failed to fetch video details"
                         (Some message))
      end).

(** ** The properties of the specification *)

(** The six required-field predicates of a VideoRecord. *)
Definition validId (c : video) : Prop :=
  exists z, id c = Some (Int z) /\ (0 < z)%Z.
Definition validTitle (c : video) : Prop :=
  title c <> "" /\ Str.trim (title c) = title c.
Definition validDuration (c : video) : Prop :=
  exists z, duration c = Some (Int z) /\ (0 < z)%Z.
Definition validPageURL (c : video) : Prop := pageURL c <> "".
Definition validThumbURL (c : video) : Prop := thumbURL c <> "".
Definition validViews (c : video) : Prop :=
  exists z, views c = Int z /\ (0 <= z)%Z.

Definition validVideo (c : video) : Prop :=
  validId c /\ validTitle c /\ validDuration c /\ validPageURL c
  /\ validThumbURL c /\ validViews c.

(** A short path: videos/ and one non-empty segment without a slash. *)
Definition shortPath (s : string) : Prop :=
  exists seg, s = "videos/" ++ seg /\ seg <> "" /\ Str.mem "/" seg = false.

(** A record that [cleanVideoData] returns for some candidate. *)
Definition cleaned (c : video) : Prop :=
  exists x, cleanVideoData x = Returned (Some c).

(** The fields of a candidate on which [cleanVideoData] calls [trim]. *)
Definition trimmedFields : list string :=
  ["pageURL"; "title"; "thumbURL"; "previewThumbURL"; "imageURL";
   "spriteURL"; "trailerURL"; "trailerFallbackUrl"].

Definition stringOrFalsy (v : jsval) : bool :=
  match v with
  | VStr _ => true
  | _ => negb (truthy v)
  end.

(** A candidate whose trimmed fields are strings or falsy values. *)
Definition stringFields (x : jsval) : bool :=
  match x with
  | VUndef | VNull => false
  | _ => forallb (fun k => stringOrFalsy (field k x)) trimmedFields
  end.

(** Percent-escaping of the three characters, one character at a time. *)
Definition escapeChar (c : ascii) : string :=
  if Ascii.eqb c "(" then "%28"
  else if Ascii.eqb c ")" then "%29"
  else if Ascii.eqb c "," then "%2C"
  else String c "".

Fixpoint escapeForCdn (s : string) : string :=
  match s with
  | "" => ""
  | String c s' => escapeChar c ++ escapeForCdn s'
  end.

(** The longest prefix without a slash. *)
Fixpoint segment (s : string) : string :=
  match s with
  | "" => ""
  | String c s' => if Ascii.eqb "/" c then "" else String c (segment s')
  end.

(** What follows that prefix. *)
Fixpoint afterSegment (s : string) : string :=
  match s with
  | "" => ""
  | String c s' => if Ascii.eqb "/" c then s else afterSegment s'
  end.

(** The segment after the leftmost /videos/ that a segment follows. *)
Fixpoint firstVideoSegment (s : string) : option string :=
  match (if Str.startsWith "/videos/" s
         then match segment (Str.drop 8 s) with
              | "" => None
              | seg => Some seg
              end
         else None) with
  | Some seg => Some seg
  | None =>
      match s with
      | "" => None
      | String _ s' => firstVideoSegment s'
      end
  end.

(** No /videos/ of the input has a segment: each one is followed by a
    slash or by the end of the input. *)
Definition noVideoSegment (s : string) : Prop :=
  forall pre post : string,
    s = pre ++ "/videos/" ++ post ->
    post = "" \/ Str.startsWith "/" post = true.

(** The first non-empty list of a sequence of finds. *)
Fixpoint firstNonEmpty {A : Type} (ls : list (list A)) : list A :=
  match ls with
  | [] => []
  | [] :: ls' => firstNonEmpty ls'
  | l :: _ => l
  end.

(** The composite key of the specification. *)
Definition compositeKey (v : video) : option jsnum * string * string :=
  (id v, title v, pageURL v).

(** The de-duplication of the specification: the first record of every
    key, in the order of the input. *)
Fixpoint keepFirst {K : Type} `{EqDecision K} {A : Type} (key : A -> K)
    (seen : list K) (l : list A) : list A :=
  match l with
  | [] => []
  | v :: l' =>
      if bool_decide (key v ∈ seen) then keepFirst key seen l'
      else v :: keepFirst key (seen ++ [key v]) l'
  end.

(** A record of the search loop collides with a kept one on the id, on
    the title or on the pageURL. *)
Definition collides (v u : video) : Prop :=
  id u = id v \/ title u = title v \/ pageURL u = pageURL v.

(** The policy of the three sets: a record is kept when no record kept
    before it has its id, its title or its pageURL. *)
Fixpoint keepApart (kept : list video) (l : list video) : list video :=
  match l with
  | [] => []
  | v :: l' =>
      if bool_decide (id v ∈ id <$> kept)
         || bool_decide (title v ∈ title <$> kept)
         || bool_decide (pageURL v ∈ pageURL <$> kept)
      then keepApart kept l'
      else v :: keepApart (kept ++ [v]) l'
  end.

(** ** Sample data *)

Definition noPage : page :=
  Page "" [] [] [] [] None VUndef (Pagination 1 1 false false).

Definition candidate (i : Z) (t url thumb : string) (d n : Z) : jsval :=
  VObj [("id", VNum (Int i)); ("title", VStr t); ("pageURL", VStr url);
        ("thumbURL", VStr thumb); ("duration", VNum (Int d));
        ("views", VNum (Int n))].

Definition record (i : Z) (t path thumb : string) (d n : Z) : video :=
  {| id := Some (Int i); title := t; duration := Some (Int d);
     created := None; videoType := VStr "video"; pageURL := path;
     thumbURL := thumb; previewThumbURL := ""; imageURL := "";
     spriteURL := ""; trailerURL := ""; trailerFallbackUrl := "";
     views := Int n; landing := None; isThumbCustom := VBool false;
     isAdminCustomThumb := VBool false; userCountry := VStr "";
     attributes := VObj []; classes := VStr "" |}.

Definition candidateA : jsval :=
  candidate 1 "A" "https://x/videos/a-1" "https://cdn/a.jpg" 30 5.
Definition candidateB : jsval :=
  candidate 2 "B" "https://x/videos/b-2" "https://cdn/b.jpg" 40 6.
Definition recordA : video := record 1 "A" "videos/a-1" "https://cdn/a.jpg" 30 5.
Definition recordB : video := record 2 "B" "videos/b-2" "https://cdn/b.jpg" 40 6.

(** Two script elements: the first holds video A under
    relatedVideosComponent, the second video B under videoTabInitialData
    alone. *)
Definition scriptA : string :=
  js "window.initials={'relatedVideosComponent':{'videoTabInitialData':{'videoListProps':{'videoThumbProps':[{'id':1,'title':'A','pageURL':'https://x/videos/a-1','thumbURL':'https://cdn/a.jpg','duration':30,'views':5}]}}}};".
Definition scriptB : string :=
  js "window.more={'videoTabInitialData':{'videoListProps':{'videoThumbProps':[{'id':2,'title':'B','pageURL':'https://x/videos/b-2','thumbURL':'https://cdn/b.jpg','duration':40,'views':6}]}}};".
Definition twoScripts : page :=
  Page "" [scriptA; scriptB] [] [] [] (Some (VObj [("title", VStr "A")]))
       VUndef (Pagination 1 1 false false).


(** Record A with another view count, and a record that shares the id
    of A and nothing else. *)
Definition candidateA' : jsval :=
  candidate 1 "A" "https://x/videos/a-1" "https://cdn/a.jpg" 30 99.
Definition recordA' : video :=
  record 1 "A" "videos/a-1" "https://cdn/a.jpg" 30 99.
Definition candidateC : jsval :=
  candidate 1 "C" "https://x/videos/c-3" "https://cdn/c.jpg" 50 7.
Definition recordC : video := record 1 "C" "videos/c-3" "https://cdn/c.jpg" 50 7.

(** The embedded array of the example, its keys unquoted. *)
Definition embeddedArray : string :=
  js "[{id:1,title:'A',pageURL:'https://x/videos/a-1',thumbURL:'https://cdn/x.jpg',duration:30,views:5}]".

(** * Further definitions

    The rest of the source files, and what the further properties are
    stated with. *)

From Stdlib Require Import DecimalPos.

(** The number of occurrences of a character. *)
Fixpoint countChar (c : ascii) (s : string) : nat :=
  match s with
  | "" => 0
  | String a s' => (if Ascii.eqb a c then 1 else 0) + countChar c s'
  end.


(** Every character of a string satisfies a test. *)
Fixpoint allChars (p : ascii -> bool) (s : string) : bool :=
  match s with
  | "" => true
  | String c s' => p c && allChars p s'
  end.

(** A page with one script that has no video data, and one DOM card. *)
Definition plainScript : page :=
  Page "" ["var a = 1;"] [candidateA] [] [] None VUndef
       (Pagination 1 1 false false).

(** A document with a preload link. *)
Definition preloadPage : page :=
  Page (js "<head><link rel='preload' href='https://v.example/a.m3u8' as='fetch' crossorigin='true'></head>")
       [] [] [] [] None VUndef (Pagination 1 1 false false).

(** A pattern without capture groups. *)
Fixpoint groupFree (r : Regex.regex) : bool :=
  match r with
  | Regex.Eps | Regex.Chr _ => true
  | Regex.Seq r1 r2 => groupFree r1 && groupFree r2
  | Regex.Star _ r1 => groupFree r1
  | Regex.Group _ _ => false
  end.

(** ** The string hash of the id synthesis

    [str.split('').reduce((a, b) => { a = ((a << 5) - a) +
    b.charCodeAt(0); return a & a; }, 0)], as search.js and details.js
    write it. The shift and the bitwise and work on 32-bit integers. *)

(** ToInt32: the integer below 2^31 in absolute value, or -2^31, that
    differs from [z] by a multiple of 2^32. *)
Definition toInt32 (z : Z) : Z := ((z + 2 ^ 31) mod 2 ^ 32 - 2 ^ 31)%Z.

Definition charCode (b : ascii) : Z := Z.of_nat (nat_of_ascii b).

(** One step of the reduction: [a << 5], minus [a], plus the code unit,
    then [a & a]. *)
Definition hashStep (a : Z) (b : ascii) : Z :=
  let a' := (toInt32 (Z.shiftl (toInt32 a) 5) - a + charCode b)%Z in
  Z.land (toInt32 a') (toInt32 a').

Fixpoint hashFrom (a : Z) (s : string) : Z :=
  match s with
  | "" => a
  | String b s' => hashFrom (hashStep a b) s'
  end.

Definition stringHash (s : string) : Z := hashFrom 0 s.

(** The polynomial of the specification, [hash * 31 + charCode] without
    any rollover. *)
Fixpoint poly31From (a : Z) (s : string) : Z :=
  match s with
  | "" => a
  | String b s' => poly31From (31 * a + charCode b)%Z s'
  end.

(** [[a-zA-Z0-9]] *)
Definition isAlnum (c : ascii) : bool :=
  let n := nat_of_ascii c in
  (((48 <=? n) && (n <=? 57)) || ((65 <=? n) && (n <=? 90))
   || ((97 <=? n) && (n <=? 122)))%nat.

(** A run of seven or more letters and digits. *)
Definition alnum7Re : Regex.regex :=
  let a := Regex.Chr isAlnum in
  Regex.seq [a; a; a; a; a; a; a; Regex.star a].

(** A slash and digits, the digits being group 1. *)
Definition slashDigitsRe : Regex.regex :=
  Regex.seq [Regex.chr "/"; Regex.Group 1 (Regex.plus Regex.digit)].

(** [s.split('/').pop()]: what follows the last slash. *)
Fixpoint lastSegment (s : string) : string :=
  match s with
  | "" => ""
  | String c s' =>
      if Str.mem "/" s' then lastSegment s'
      else if Ascii.eqb c "/" then s' else s
  end.

(** The id that the cheerio fallback of [extractSearchResults] gives a
    card: [Math.abs(hash) + Date.now() % 1000000] when the URL has a
    slash with digits or a run of seven letters and digits. *)
Definition searchFallbackId (pageURL : string) (now : Z) : option Z :=
  let idMatch :=
    match Regex.search slashDigitsRe pageURL with
    | Some m => Some m
    | None => Regex.search alnum7Re pageURL
    end in
  match idMatch with
  | Some _ =>
      let slug := lastSegment pageURL in
      Some (Z.abs (stringHash slug) + Z.rem now 1000000)%Z
  | None => None
  end.

(** The id of a related card and of the detail fallback:
    [Math.abs] of the hash of the first run of seven letters and
    digits. *)
Definition runHashId (pageURL : string) : option Z :=
  match Regex.search alnum7Re pageURL with
  | Some idMatch => Some (Z.abs (stringHash (Regex.whole idMatch)))
  | None => None
  end.

(** ** details.js: the pattern scan of extractRelatedVideos *)

(** The indices of the groups of a pattern. *)
Fixpoint groupsOf (r : Regex.regex) : list nat :=
  match r with
  | Regex.Eps | Regex.Chr _ => []
  | Regex.Seq r1 r2 => groupsOf r1 ++ groupsOf r2
  | Regex.Star _ r1 => groupsOf r1
  | Regex.Group i r1 => i :: groupsOf r1
  end.

(** A string that may be missing: an attribute of an element, a group
    of a match. *)
Definition optStr (o : option string) : jsval :=
  match o with
  | Some s => VStr s
  | None => VUndef
  end.

(** [match[i]] *)
Definition matchGroup (i : nat) (m : Regex.found) : jsval :=
  optStr (Regex.group i m).

(** The two [jsonPatterns]: id, title, pageURL, thumbURL and duration
    in this order, and the same without the id. *)
Definition jsonPatterns : list Regex.regex :=
  [ Regex.seq (
      keyRe "id" ++ [Regex.Group 1 (Regex.plus Regex.digit); gapRe] ++
      keyRe "title" ++ quotedRe 2 ++ [gapRe] ++
      keyRe "pageURL" ++ quotedRe 3 ++ [gapRe] ++
      keyRe "thumbURL" ++ quotedRe 4 ++ [gapRe] ++
      keyRe "duration" ++ [Regex.Group 5 (Regex.plus Regex.digit)]);
    Regex.seq (
      keyRe "title" ++ quotedRe 1 ++ [gapRe] ++
      keyRe "pageURL" ++ quotedRe 2 ++ [gapRe] ++
      keyRe "thumbURL" ++ quotedRe 3 ++ [gapRe] ++
      keyRe "duration" ++ [Regex.Group 4 (Regex.plus Regex.digit)]) ].

(** [Math.abs(v?.split('').reduce(...) || 0)] for a string or
    [undefined]. *)
Definition hashOrZero (v : jsval) : jsnum :=
  match v with
  | VStr s => Int (Z.abs (stringHash s))
  | _ => Int 0
  end.

(** [v.includes(p)] guarded by [v &&] for a string or [undefined]. *)
Definition includesVal (p : string) (v : jsval) : bool :=
  match v with
  | VStr s => Str.includes p s
  | _ => false
  end.

(** The body of the [while] loop on one match: the object [video],
    pushed when title, pageURL and thumbURL are truthy and the pageURL
    contains /videos/. Every choice is made on [match[1]]. *)
Definition videoOfPattern (m : Regex.found) : list jsval :=
  let g i := matchGroup i m in
  let first := truthy (g 1) in
  let video := VObj [
    ("id", VNum (if first then parseInt (g 1) else hashOrZero (g 2)));
    ("title", if first then g 2 else g 1);
    ("pageURL", if first then g 3 else g 2);
    ("thumbURL", if first then g 4 else g 3);
    ("duration", VNum (parseInt (if first then g 5 else g 4)))] in
  if truthy (field "title" video) && truthy (field "pageURL" video)
     && truthy (field "thumbURL" video)
     && includesVal "/videos/" (field "pageURL" video)
  then [video] else [].

(** The finds of one pattern in the document. *)
Definition patternMatches (html : string) (pattern : Regex.regex)
    : list jsval :=
  List.flat_map videoOfPattern (Regex.matchAll pattern html).

(** [for (const pattern of jsonPatterns)]: what the last method pushes. *)
Definition patternScan (html : string) : list jsval :=
  List.flat_map (patternMatches html) jsonPatterns.


(** ** The elements that the cheerio callbacks read

    What a callback of [each] reads from one selected element: the first
    title element (its title attribute and its text), the href of the
    first link, the src of the first image, the text of the first
    duration element and of the first views element. [None] is an empty
    selection, an inner [None] a missing attribute. *)
Record card : Type := Card {
  titleElem : option (option string * string);
  linkElem : option (option string);
  imgElem : option (option string);
  durationElem : option string;
  viewsElem : option string
}.

(** [a?.trim()] *)
Definition optTrim (a : option string) : option string := Str.trim <$> a.

(** [titleElem.attr('title')?.trim() || titleElem.text()?.trim()] *)
Definition cardTitle (t : option string * string) : string :=
  match optTrim (fst t) with
  | Some s => if truthyStr s then s else Str.trim (snd t)
  | None => Str.trim (snd t)
  end.

(** [n > 0] and [n >= 0] *)
Definition gtZero (n : jsnum) : bool :=
  match n with
  | Int z => (0 <? z)%Z
  | NaN => false
  end.
Definition geZero (n : jsnum) : bool :=
  match n with
  | Int z => (0 <=? z)%Z
  | NaN => false
  end.

(** [Number.MAX_SAFE_INTEGER], 2^53 - 1, and [Number.isSafeInteger].
    The integers of this model are exact. Those of the language are so
    up to this bound: beyond it [parseInt] and the arithmetic round, and
    from 10^21 on [String] writes an exponent. What is said of a number
    that goes through [String], [parseInt] or the arithmetic is said of
    safe integers. *)
Definition MAX_SAFE_INTEGER : Z := 9007199254740991.

Definition isSafeInteger (n : jsnum) : bool :=
  match n with
  | Int z => (Z.abs z <=? MAX_SAFE_INTEGER)%Z
  | NaN => false
  end.

(** A numeric property that is left out, or set to a safe integer. *)
Definition safeOrUnset (o : option jsval) : bool :=
  match o with
  | Some (VNum n) => isSafeInteger n
  | Some _ => false
  | None => true
  end.

(** Sum and product of numbers (the integers are exact). *)
Definition numAdd (a b : jsnum) : jsnum :=
  match a, b with
  | Int x, Int y => Int (x + y)
  | _, _ => NaN
  end.
Definition numMul (a b : jsnum) : jsnum :=
  match a, b with
  | Int x, Int y => Int (x * y)
  | _, _ => NaN
  end.

(** [text.replace(/[^0-9]/g, '')] *)
Definition onlyDigits (text : string) : string :=
  Regex.replaceAll (Regex.Chr (fun c => negb (Regex.isDigit c)))
    (fun _ => "") text.

(** A property that is set or left out. *)
Definition entry (k : string) (o : option jsval) : list (string * jsval) :=
  match o with
  | Some v => [(k, v)]
  | None => []
  end.

(** ** search.js: the cheerio fallback of extractSearchResults *)

(** The values that the callback finds for the properties of [video];
    [None] when it does not set the property. *)
Definition searchTitle (c : card) : option jsval :=
  t ← titleElem c;
  let title := cardTitle t in
  if truthyStr title then Some (VStr title) else None.

Definition searchPageURL (c : card) : option jsval :=
  a ← linkElem c;
  url ← optTrim a;
  if truthyStr url then Some (VStr url) else None.

Definition searchThumbURL (c : card) : option jsval :=
  a ← imgElem c;
  thumbUrl ← optTrim a;
  if truthyStr thumbUrl then Some (VStr (formatThumbnailUrl thumbUrl))
  else None.

Definition searchDuration (c : card) : option jsval :=
  text ← durationElem c;
  let duration := parseInt (VStr (Str.trim text)) in
  if gtZero duration then Some (VNum duration) else None.

Definition searchViews (c : card) : option jsval :=
  text ← viewsElem c;
  let views := parseInt (VStr (onlyDigits text)) in
  if geZero views then Some (VNum views) else None.

(** The properties of [video] before the callback looks at the
    pageURL. *)
Definition searchCardFields (c : card) : list (string * jsval) :=
  (entry "title" (searchTitle c) ++ entry "pageURL" (searchPageURL c)
   ++ entry "thumbURL" (searchThumbURL c)
   ++ entry "duration" (searchDuration c)
   ++ entry "views" (searchViews c))%list.

(** The object that the callback hands to [cleanVideoData]; [None] when
    it returns before. [now] is the reading of [Date.now()]. *)
Definition searchCardVideo (now : Z) (c : card) : option jsval :=
  let video := searchCardFields c in
  let pageURL := field "pageURL" (VObj video) in
  if negb (truthy pageURL) || negb (includesVal "/videos/" pageURL) then None
  else
    Some (VObj (video ++
      entry "id"
        (if negb (truthy (field "id" (VObj video))) && truthy pageURL
         then (fun n => VNum (Int n)) <$> searchFallbackId (toStr pageURL) now
         else None)))%list.

(** One run of the callback: the record it pushes, if any. *)
Definition searchCardRecord (now : Z) (c : card) : outcome (option video) :=
  match searchCardVideo now c with
  | Some video => cleanVideoData video
  | None => Returned None
  end.

(** [$(...).each(...)] over the selected elements, each with the clock
    reading of its turn. *)
Fixpoint searchFallback (cards : list (Z * card)) : outcome (list video) :=
  match cards with
  | [] => Returned []
  | (now, c) :: cards' =>
      r ← searchCardRecord now c;
      videos ← searchFallback cards';
      Returned (match r with
                | Some cleaned => cleaned :: videos
                | None => videos
                end)
  end.

(** ** details.js: the HTML element method of extractRelatedVideos *)

(** Digits, a colon, digits; the digits are the groups 1 and 2. *)
Definition minutesSecondsRe : Regex.regex :=
  Regex.seq [Regex.Group 1 (Regex.plus Regex.digit); Regex.chr ":";
             Regex.Group 2 (Regex.plus Regex.digit)].

(** The first run of digits, group 1. *)
Definition digitsRe : Regex.regex := Regex.Group 1 (Regex.plus Regex.digit).

(** [parseInt(m[1]) * 60 + parseInt(m[2])] of the first match of
    [minutesSecondsRe] in the text. *)
Definition clockDuration (durationText : string) : option jsval :=
  durationMatch ← Regex.search minutesSecondsRe durationText;
  Some (VNum (numAdd (numMul (parseInt (matchGroup 1 durationMatch)) (Int 60))
                     (parseInt (matchGroup 2 durationMatch)))).

(** [parseInt(m[1])] of the first run of digits in the text. *)
Definition firstNumber (viewsText : string) : option jsval :=
  viewsMatch ← Regex.search digitsRe viewsText;
  Some (VNum (parseInt (matchGroup 1 viewsMatch))).

(** The values for the properties of [video]; [formatThumbnailUrl]
    hands [undefined] back as it is. *)
Definition relatedTitle (c : card) : option jsval :=
  t ← titleElem c; Some (VStr (cardTitle t)).

Definition relatedPageURL (c : card) : option jsval :=
  a ← linkElem c;
  url ← optTrim a;
  if truthyStr url && Str.includes "/videos/" url then Some (VStr url)
  else None.

Definition relatedThumbURL (c : card) : option jsval :=
  a ← imgElem c; Some (optStr (formatThumbnailUrl <$> optTrim a)).

Definition relatedDuration (c : card) : option jsval :=
  text ← durationElem c; clockDuration (Str.trim text).

Definition relatedViews (c : card) : option jsval :=
  text ← viewsElem c; firstNumber (Str.trim text).

(** The properties set before the id. *)
Definition relatedCardFields (c : card) : list (string * jsval) :=
  (entry "title" (relatedTitle c) ++ entry "pageURL" (relatedPageURL c)
   ++ entry "thumbURL" (relatedThumbURL c)
   ++ entry "duration" (relatedDuration c)
   ++ entry "views" (relatedViews c))%list.

(** The callback on one element: the object it pushes, if any. *)
Definition relatedCardVideo (c : card) : list jsval :=
  let fields := relatedCardFields c in
  let pageURL := field "pageURL" (VObj fields) in
  let video :=
    VObj (fields ++
      entry "id"
        (if negb (truthy (field "id" (VObj fields))) && truthy pageURL
         then (fun n => VNum (Int n)) <$> runHashId (toStr pageURL)
         else None))%list in
  if truthy (field "title" video) && truthy (field "pageURL" video)
     && truthy (field "thumbURL" video)
  then [video] else [].

(** What the method pushes for the selected elements. *)
Definition relatedCardsOf (cards : list card) : list jsval :=
  List.flat_map relatedCardVideo cards.

(** ** search.js: extractPaginationInfo

    The arguments are the data-page attributes of the active buttons and
    of all the buttons, and the numbers of next and previous links that
    the selectors find. *)

(** [parseInt(a) || 1] *)
Definition pageOrOne (a : option string) : Z :=
  match parseInt (optStr a) with
  | Int z => if (z =? 0)%Z then 1%Z else z
  | NaN => 1%Z
  end.

(** One run of the callback that looks for the highest page number. *)
Definition maxPageStep (maxPage : Z) (a : option string) : Z :=
  match parseInt (optStr a) with
  | Int pageNum =>
      if negb (pageNum =? 0)%Z && (maxPage <? pageNum)%Z then pageNum
      else maxPage
  | NaN => maxPage
  end.

Definition extractPaginationInfo (active buttons : list (option string))
    (next prev : nat) : paginationInfo :=
  {| currentPage :=
       match active with
       | activePage :: _ => pageOrOne activePage
       | [] => 1%Z
       end;
     totalPages := foldl maxPageStep 1%Z buttons;
     hasNext := (0 <? next)%nat;
     hasPrevious := (0 <? prev)%nat |}.

(** ** details.js: extractMetadata *)

Module Meta.

(** The content of the meta elements and the href of the link elements
    that the extractors read; [None] when there is no such element. *)
Record tags : Type := Tags {
  ogTitle : option string;
  ogDescription : option string;
  ogImage : option string;
  ogUrl : option string;
  ogSiteName : option string;
  ogType : option string;
  twitterCardTag : option string;
  twitterSiteTag : option string;
  twitterCreatorTag : option string;
  canonicalHref : option string;
  ampHref : option string
}.

(** The object [metadata]. *)
Record t : Type := Metadata {
  title : string;
  description : string;
  image : string;
  url : string;
  siteName : string;
  type : string;
  twitterCard : string;
  twitterSite : string;
  twitterCreator : string;
  canonical : string;
  ampUrl : string
}.

End Meta.

(** [a || ''] *)
Definition orEmpty (a : option string) : string :=
  match a with
  | Some s => if truthyStr s then s else ""
  | None => ""
  end.

(** [if (s) s = f(s)] *)
Definition whenSet (f : string -> string) (s : string) : string :=
  if truthyStr s then f s else s.

Definition extractMetadata (tags : Meta.tags) : Meta.t :=
  {| Meta.title := orEmpty (Meta.ogTitle tags);
     Meta.description := orEmpty (Meta.ogDescription tags);
     Meta.image := whenSet formatThumbnailUrl (orEmpty (Meta.ogImage tags));
     Meta.url := whenSet extractVideoPath (orEmpty (Meta.ogUrl tags));
     Meta.siteName := orEmpty (Meta.ogSiteName tags);
     Meta.type := orEmpty (Meta.ogType tags);
     Meta.twitterCard := orEmpty (Meta.twitterCardTag tags);
     Meta.twitterSite := orEmpty (Meta.twitterSiteTag tags);
     Meta.twitterCreator := orEmpty (Meta.twitterCreatorTag tags);
     Meta.canonical :=
       whenSet extractVideoPath (orEmpty (Meta.canonicalHref tags));
     Meta.ampUrl := whenSet extractVideoPath (orEmpty (Meta.ampHref tags)) |}.

(** ** details.js: extractVideoDetails *)

(** [extractVideoPath(v)] on any value: only a string has [match]. *)
Definition extractVideoPathVal (fullUrl : jsval) : outcome string :=
  if negb (truthy fullUrl) then Returned ""
  else
    match fullUrl with
    | VStr s => Returned (extractVideoPath s)
    | _ => Thrown TypeError
    end.

(** [formatThumbnailUrl(v)] on any value: a string and an array have
    [includes], only a string has [replace]. *)
Definition formatThumbnailUrlVal (url : jsval) : outcome jsval :=
  if negb (truthy url) then Returned url
  else
    match url with
    | VStr s => Returned (VStr (formatThumbnailUrl s))
    | VArr items =>
        if existsb (fun x => match x with
                             | VStr s => String.eqb s "xhpingcdn.com"
                             | _ => false
                             end) items
        then Thrown TypeError
        else Returned url
    | _ => Thrown TypeError
    end.

(** The value of the videoModel key, group 1: an opening brace,
    characters other than a closing brace, any number of inner objects
    (a brace pair without a closing brace inside, then characters other
    than a closing brace), a closing brace. *)
Definition videoModelRe : Regex.regex :=
  let noClose := Regex.star (Regex.notChr "}") in
  Regex.seq (keyRe "videoModel" ++
    [Regex.Group 1
       (Regex.seq [Regex.chr "{"; noClose;
                   Regex.star (Regex.seq [Regex.chr "{"; noClose;
                                          Regex.chr "}"; noClose]);
                   Regex.chr "}"])]).

(** One run of the callback over the script elements: the new value of
    [videoModel]. A failed parse leaves it as it is. *)
Definition videoModelStep (videoModel : jsval) (content : string) : jsval :=
  if truthyStr content
     && Str.includes (String dquote "videoModel" ++ String dquote "") content
  then
    match Regex.search videoModelRe content with
    | Some videoModelMatch =>
        let jsonStr := Regex.group_or_empty 1 videoModelMatch in
        let jsonStr := dropCommaBefore "]" (dropCommaBefore "}" jsonStr) in
        let jsonStr := quoteKeys jsonStr in
        match Json.parse jsonStr with
        | Returned v => v
        | Thrown _ => videoModel
        end
    | None => videoModel
    end
  else videoModel.

(** [v ? parseInt(v) : d] *)
Definition parseIntOr (d : jsval) (v : jsval) : jsval :=
  if truthy v then VNum (parseInt v) else d.

(** [v?.k] *)
Definition optProp (v : jsval) (k : string) : jsval :=
  match v with
  | VUndef | VNull => VUndef
  | _ => field k v
  end.

(** The object returned for a truthy [videoModel]. *)
Definition detailsOfModel (videoModel : jsval) : outcome jsval :=
  pageURL_ ← extractVideoPathVal (or_ (field "pageURL" videoModel) (VStr ""));
  thumbURL_ ←
    formatThumbnailUrlVal (or_ (field "thumbURL" videoModel) (VStr ""));
  let author := field "author" videoModel in
  Returned (VObj [
    ("id", parseIntOr VUndef (field "id" videoModel));
    ("title", or_ (field "title" videoModel)
                (or_ (field "titleLocalized" videoModel) (VStr "")));
    ("duration", parseIntOr VUndef (field "duration" videoModel));
    ("created", parseIntOr VUndef (field "created" videoModel));
    ("views", parseIntOr (VNum (Int 0)) (field "views" videoModel));
    ("comments", parseIntOr (VNum (Int 0)) (field "comments" videoModel));
    ("rating", or_ (optProp (field "rating" videoModel) "value")
                 (VNum (Int 0)));
    ("description", or_ (field "description" videoModel) (VStr ""));
    ("pageURL", VStr pageURL_);
    ("thumbURL", thumbURL_);
    ("previewThumbURL", or_ (field "previewThumbURL" videoModel) (VStr ""));
    ("spriteURL", or_ (field "spriteURL" videoModel) (VStr ""));
    ("trailerURL", or_ (field "trailerURL" videoModel) (VStr ""));
    ("downloadFile", or_ (field "downloadFile" videoModel) (VStr ""));
    ("isVR", or_ (field "isVR" videoModel) (VBool false));
    ("isHD", or_ (field "isHD" videoModel) (VBool false));
    ("isFHD", or_ (field "isFHD" videoModel) (VBool false));
    ("isUHD", or_ (field "isUHD" videoModel) (VBool false));
    ("author",
       if truthy author then
         VObj [("id", field "id" author);
               ("name", or_ (field "name" author) (VStr ""));
               ("pageURL", or_ (field "pageURL" author) (VStr ""));
               ("verified", or_ (field "verified" author) (VBool false))]
       else VNull)]).

(** What the fallback reads from the document besides the meta tags:
    the text of the first h1 element and of the first duration and views
    elements (the empty string when there is none). *)
Record detailsDom : Type := DetailsDom {
  metaTags : Meta.tags;
  h1Text : string;
  durationText : string;
  viewsText : string
}.

(** The object [videoDetails] of the fallback; [now] is the reading of
    [Date.now()]. *)
Definition detailsOfDom (now : Z) (d : detailsDom) : jsval :=
  let tags := metaTags d in
  let title_ :=
    let t := orEmpty (Meta.ogTitle tags) in
    if truthyStr t then t else
    let h := Str.trim (h1Text d) in
    if truthyStr h then h else "" in
  let pageURL_ := extractVideoPath (orEmpty (Meta.canonicalHref tags)) in
  let durationText_ := Str.trim (durationText d) in
  let viewsText_ := Str.trim (viewsText d) in
  VObj (
    [("title", VStr title_);
     ("description", VStr (orEmpty (Meta.ogDescription tags)));
     ("thumbURL", VStr (formatThumbnailUrl (orEmpty (Meta.ogImage tags))));
     ("pageURL", VStr pageURL_)]
    ++ entry "duration"
         (if truthyStr durationText_ then clockDuration durationText_
          else None)
    ++ entry "views"
         (if truthyStr viewsText_ then firstNumber viewsText_ else None)
    ++ entry "id"
         (if truthyStr pageURL_
          then (fun n => VNum (Int n)) <$> runHashId pageURL_ else None)
    ++ [("created", VNum (Int now));
        ("comments", VNum (Int 0));
        ("rating", VNum (Int 0));
        ("isVR", VBool false);
        ("isHD", VBool false);
        ("isFHD", VBool false);
        ("isUHD", VBool false);
        ("author", VNull)])%list.

(** [extractVideoDetails(html)], given the text of the script elements
    and what cheerio reads for the fallback; [None] is the [null] of the
    [catch]. *)
Definition extractVideoDetails (scripts : list string) (now : Z)
    (d : detailsDom) : option jsval :=
  let videoModel := foldl videoModelStep VNull scripts in
  if truthy videoModel then
    match detailsOfModel videoModel with
    | Returned details => Some details
    | Thrown _ => None
    end
  else Some (detailsOfDom now d).

(** ** Further examples *)

(** A card for the search fallback, and one whose duration text has
    three numbers. *)
Definition cardA : card :=
  Card (Some (Some " A ", "ignored"))
       (Some (Some " https://xhamster19.com/videos/a-123 "))
       (Some (Some "https://ic.xhpingcdn.com/a(1).jpg"))
       (Some "12 min") (Some "1,234 views").

Definition clockCard : card :=
  Card (Some (None, " B ")) (Some (Some "/videos/bbbbbbb-2"))
       (Some (Some "https://cdn/b.jpg")) (Some " 1:02:03 ")
       (Some "5 views").

(** A card whose duration text has a number before its clock. *)
Definition mixedClockCard : card :=
  Card (Some (None, " M ")) (Some (Some "/videos/mmmmmmm-3"))
       (Some (Some "https://cdn/m.jpg")) (Some "12 views 3:45")
       (Some "7 views").


(** A script whose videoModel holds an inner object. *)
Definition modelScript : string :=
  js "window.initials = {'videoModel': {'id': 5, 'title': 'T', 'pageURL': 'https://x/videos/t-5', 'thumbURL': 'u', 'author': {'name': 'n'},}};".

(** No meta tags, and the tags of a video page. *)
Definition noTags : Meta.tags :=
  Meta.Tags None None None None None None None None None None None.

Definition videoTags : Meta.tags :=
  Meta.Tags (Some "T") None (Some "https://ic.xhpingcdn.com/a(1).jpg")
    (Some "https://xhamster19.com/videos/t-5?x=1") None None None None None
    (Some "https://xhamster19.com/videos/t-5")
    (Some "https://xhamster19.com/").

(** The record that the search callback pushes for [cardA] when the
    clock reads 1700000000123. *)
Definition recordOfCardA : video :=
  {| id := Some (Int 90970945);
     title := "A";
     duration := Some (Int 12);
     created := None;
     videoType := VStr "video";
     pageURL := "videos/a-123";
     thumbURL := "https://ic.xhpingcdn.com/a%281%29.jpg";
     previewThumbURL := "";
     imageURL := "";
     spriteURL := "";
     trailerURL := "";
     trailerFallbackUrl := "";
     views := Int 1234;
     landing := None;
     isThumbCustom := VBool false;
     isAdminCustomThumb := VBool false;
     userCountry := VStr "";
     attributes := VObj [];
     classes := VStr "" |}.

(** The match of the videoModel pattern in [modelScript]: the capture
    stops behind the author. *)
Definition cutModelMatch : Regex.found :=
  {| Regex.index := 19;
     Regex.whole :=
       js "'videoModel': {'id': 5, 'title': 'T', 'pageURL': 'https://x/videos/t-5', 'thumbURL': 'u', 'author': {'name': 'n'}";
     Regex.groups :=
       [(1%nat, js "{'id': 5, 'title': 'T', 'pageURL': 'https://x/videos/t-5', 'thumbURL': 'u', 'author': {'name': 'n'}")];
     Regex.rest := ",}};" |}.

(** A document without a videoModel: its details are those of the HTML
    fallback, read when the clock says 5. *)
Definition fallbackPage : page :=
  Page "" ["var a = 1;"] [] [] []
    (extractVideoDetails ["var a = 1;"] 5
       (DetailsDom videoTags " Head " " 3:20 " ""))
    VUndef (Pagination 1 1 false false).

(** A document with one card for the HTML element method, and one with
    one card for the cheerio fallback of the search. *)
Definition cardsPage : page :=
  Page "" [] (relatedCardsOf [clockCard]) (patternScan "") [] None VUndef
    (Pagination 1 1 false false).

Definition searchCardsPage : page :=
  Page "" [] [] []
    (omap (fun nc => searchCardVideo nc.1 nc.2) [(1700000000123%Z, cardA)])
    None VUndef (Pagination 1 1 false false).

(** The number of objects in a value, inner objects included. *)
Fixpoint objects (v : jsval) : nat :=
  match v with
  | VArr items => list_sum (List.map objects items)
  | VObj fields =>
      S (list_sum (List.map (fun kv => objects (snd kv)) fields))
  | _ => 0
  end.

(** A script whose videoModel has no inner object but a rating and an
    author, and the details read from it. *)
Definition flatModelScript : string :=
  js "{'videoModel': {'id': 5, 'title': 'T', 'pageURL': 'https://x/videos/t-5', 'rating': 4, 'author': 'bob'}}".

Definition flatDetails : jsval :=
  default VNull
    (extractVideoDetails [flatModelScript] 5 (DetailsDom noTags "" "" "")).

(** * Proofs *)

#[local] Arguments String.append !_ _ / : simpl nomatch.
#[local] Arguments Ascii.eqb : simpl never.

(** ** Strings *)

#[local] Arguments String.append !_ _ / : simpl nomatch.
#[local] Arguments Ascii.eqb : simpl never.

Lemma len_append (a b : string) :
  Str.len (a ++ b) = (Str.len a + Str.len b)%nat.
Proof. induction a as [|c a IH]; simpl; [done | by rewrite IH]. Qed.

Lemma append_nil_r (a : string) : a ++ "" = a.
Proof. induction a as [|c a IH]; simpl; [done | by rewrite IH]. Qed.

Lemma append_assoc (a b c : string) : (a ++ b) ++ c = a ++ b ++ c.
Proof. induction a as [|x a IH]; simpl; [done | by rewrite IH]. Qed.

Lemma append_inv_tail (a b s : string) : a ++ s = b ++ s -> a = b.
Proof.
  revert b. induction a as [|x a IH]; intros [|y b] H; simpl in *.
  - done.
  - apply (f_equal Str.len) in H. simpl in H. rewrite len_append in H. lia.
  - apply (f_equal Str.len) in H. simpl in H. rewrite len_append in H. lia.
  - injection H as -> H. f_equal. by apply IH.
Qed.

Lemma mem_append (c : ascii) (a b : string) :
  Str.mem c (a ++ b) = Str.mem c a || Str.mem c b.
Proof.
  induction a as [|x a IH]; simpl; [done|]. rewrite IH. by rewrite orb_assoc.
Qed.

(** Two decompositions of one string around the first occurrence of a
    separator agree. *)
Lemma split_first (c : ascii) (a b x y : string) :
  Str.mem c a = false -> Str.mem c b = false ->
  a ++ String c x = b ++ String c y -> a = b /\ x = y.
Proof.
  revert b. induction a as [|a0 a IH]; intros [|b0 b] Ha Hb H; simpl in *.
  - by injection H.
  - injection H as <- _. by rewrite Ascii.eqb_refl in Hb.
  - injection H as -> _. by rewrite Ascii.eqb_refl in Ha.
  - injection H as -> H.
    apply orb_false_elim in Ha as [_ Ha]. apply orb_false_elim in Hb as [_ Hb].
    destruct (IH b Ha Hb H) as [-> ->]. done.
Qed.

(** The same around the last occurrence. *)
Lemma split_last (c : ascii) (a b x y : string) :
  Str.mem c x = false -> Str.mem c y = false ->
  a ++ String c x = b ++ String c y -> a = b /\ x = y.
Proof.
  revert b. induction a as [|a0 a IH]; intros [|b0 b] Hx Hy H; simpl in *.
  - by injection H.
  - injection H as <- ->. rewrite mem_append in Hx. simpl in Hx.
    rewrite Ascii.eqb_refl, orb_true_r in Hx. done.
  - injection H as -> <-. rewrite mem_append in Hy. simpl in Hy.
    rewrite Ascii.eqb_refl, orb_true_r in Hy. done.
  - injection H as -> H. destruct (IH b Hx Hy H) as [-> ->]. done.
Qed.

Lemma trimStart_head (s : string) (c : ascii) (t : string) :
  Str.trimStart s = String c t -> Str.isSpace c = false.
Proof.
  induction s as [|a s IH]; simpl; [done|].
  destruct (Str.isSpace a) eqn:Ha; [done|]. by intros [= <- _].
Qed.

Lemma trimEnd_idem (s : string) : Str.trimEnd (Str.trimEnd s) = Str.trimEnd s.
Proof.
  induction s as [|a s IH]; simpl; [done|].
  destruct (Str.trimEnd s) as [|b t] eqn:E.
  - destruct (Str.isSpace a) eqn:Ha; simpl; [done | by rewrite Ha].
  - simpl in *. by rewrite IH.
Qed.

Lemma trimEnd_head (c : ascii) (t : string) :
  Str.isSpace c = false -> exists t', Str.trimEnd (String c t) = String c t'.
Proof.
  intros Hc. simpl. destruct (Str.trimEnd t); [rewrite Hc|]; eauto.
Qed.

Lemma trim_idem (s : string) : Str.trim (Str.trim s) = Str.trim s.
Proof.
  unfold Str.trim. destruct (Str.trimStart s) as [|c t] eqn:E; [done|].
  apply trimStart_head in E as Hc.
  destruct (trimEnd_head c t Hc) as [t' Ht]. rewrite Ht.
  cbn [Str.trimStart]. rewrite Hc. rewrite <- Ht. apply trimEnd_idem.
Qed.

Lemma startsWith_append (p a b : string) :
  (Str.len p <= Str.len a)%nat ->
  Str.startsWith p (a ++ b) = Str.startsWith p a.
Proof.
  revert a. induction p as [|x p IH]; intros [|y a] H; simpl in *;
    [done | done | lia |].
  rewrite IH; [done | lia].
Qed.

Lemma startsWith_self (p s : string) : Str.startsWith p (p ++ s) = true.
Proof.
  induction p as [|x p IH]; simpl; [done|]. by rewrite Ascii.eqb_refl.
Qed.

Lemma startsWith_drop (p s : string) :
  Str.startsWith p s = true -> s = p ++ Str.drop (Str.len p) s.
Proof.
  revert s. induction p as [|x p IH]; intros [|y s] H; simpl in *;
    try done.
  apply andb_prop in H as [Hxy H]. apply Ascii.eqb_eq in Hxy as ->.
  f_equal. by apply IH.
Qed.

Lemma includes_startsWith (p s : string) :
  Str.includes p s = false -> Str.startsWith p s = false.
Proof. destruct s; simpl; intros H; by apply orb_false_elim in H as [? _]. Qed.

Lemma replaceChar_append (c : ascii) (r a b : string) :
  Str.replaceChar c r (a ++ b) = Str.replaceChar c r a ++ Str.replaceChar c r b.
Proof.
  induction a as [|x a IH]; simpl; [done|].
  by rewrite IH, append_assoc.
Qed.

Lemma replaceChar_absent (c : ascii) (r s : string) :
  Str.mem c s = false -> Str.replaceChar c r s = s.
Proof.
  induction s as [|x s IH]; simpl; [done|]. intros H.
  apply orb_false_elim in H as [-> H]. simpl. by rewrite IH.
Qed.

(** ** The pattern of [extractVideoPath] *)

Lemma run_lit {A : Type} (l s : string) (cs : Regex.captures)
    (k : Regex.cont (A := A)) :
  Regex.run (Regex.lit l) s cs k =
  if Str.startsWith l s then k (Str.drop (Str.len l) s) cs else None.
Proof.
  revert s. induction l as [|c l IH]; intros s.
  - done.
  - cbn [Regex.lit Regex.run Regex.chr Str.startsWith Str.len Str.drop].
    destruct s as [|a s]; [done|].
    destruct (Ascii.eqb c a); cbn [andb]; [apply IH | done].
Qed.

Lemma starLoop_greedy_S {A : Type}
    (body : string -> Regex.captures -> Regex.cont (A := A) -> option A)
    (k : Regex.cont (A := A)) (n : nat) (s : string) (cs : Regex.captures) :
  Regex.starLoop body true k (S n) s cs =
  match body s cs (fun s' cs' =>
          if (Str.len s' <? Str.len s)%nat
          then Regex.starLoop body true k n s' cs' else None) with
  | Some a => Some a
  | None => k s cs
  end.
Proof. reflexivity. Qed.

(** A greedy star of the characters other than a slash, followed by a
    continuation that accepts everything, takes the whole segment. *)
Lemma starLoop_segment {A : Type} (k : Regex.cont (A := A)) (n : nat)
    (s : string) (cs : Regex.captures) :
  (forall s' cs', is_Some (k s' cs')) -> (Str.len s <= n)%nat ->
  Regex.starLoop (Regex.run (Regex.notChr "/")) true k n s cs =
  k (afterSegment s) cs.
Proof.
  intros Hk. revert s. induction n as [|n IH]; intros s Hn.
  - destruct s; [done | simpl in Hn; lia].
  - rewrite starLoop_greedy_S. destruct s as [|c s]; [done|].
    cbn [Regex.run Regex.notChr afterSegment].
    destruct (Ascii.eqb "/" c) eqn:Hc; cbn [negb]; [done|].
    replace (Str.len s <? Str.len (String c s))%nat with true
      by (symmetry; apply Nat.ltb_lt; simpl; lia).
    simpl in Hn. rewrite IH by lia.
    destruct (Hk (afterSegment s) cs) as [a ->]. done.
Qed.

Lemma segment_afterSegment (s : string) : segment s ++ afterSegment s = s.
Proof.
  induction s as [|c s IH]; simpl; [done|].
  destruct (Ascii.eqb "/" c); simpl; [done | by rewrite IH].
Qed.

Lemma take_append (a b : string) : Str.take (Str.len a) (a ++ b) = a.
Proof. induction a as [|c a IH]; simpl; [by destruct b | by rewrite IH]. Qed.

Lemma take_segment (s : string) :
  Str.take (Str.len s - Str.len (afterSegment s)) s = segment s.
Proof.
  rewrite <- (segment_afterSegment s) at 1 3.
  rewrite len_append.
  replace (_ + _ - _)%nat with (Str.len (segment s)) by lia.
  apply take_append.
Qed.

Lemma segment_no_slash (s : string) : Str.mem "/" (segment s) = false.
Proof.
  induction s as [|c s IH]; simpl; [done|].
  destruct (Ascii.eqb "/" c) eqn:Hc; simpl; [done|].
  rewrite Ascii.eqb_sym, Hc. done.
Qed.

Lemma segment_stops (seg rest : string) :
  Str.mem "/" seg = false -> rest = "" \/ Str.startsWith "/" rest = true ->
  segment (seg ++ rest) = seg.
Proof.
  intros Hseg Hrest. induction seg as [|c seg IH]; simpl in *.
  - destruct Hrest as [-> | H]; [done|]. destruct rest as [|r rest]; [done|].
    simpl in H. apply andb_prop in H as [H _]. simpl. by rewrite H.
  - apply orb_false_elim in Hseg as [Hc Hseg].
    rewrite Ascii.eqb_sym, Hc. by rewrite IH.
Qed.

Lemma run_plus_segment {A : Type} (k : Regex.cont (A := A)) (s : string)
    (cs : Regex.captures) :
  (forall s' cs', is_Some (k s' cs')) ->
  Regex.run (Regex.plus (Regex.notChr "/")) s cs k =
  match segment s with
  | "" => None
  | _ => k (afterSegment s) cs
  end.
Proof.
  intros Hk. unfold Regex.plus. cbn [Regex.run].
  destruct s as [|c t]; [done|].
  change (Regex.run (Regex.notChr "/") (String c t) cs ?k')
    with (if negb (Ascii.eqb "/" c) then k' t cs else None).
  cbn [segment afterSegment].
  destruct (Ascii.eqb "/" c) eqn:Hc; cbn [negb]; [done|].
  by apply starLoop_segment.
Qed.

(** The match of the pattern at the first character of [s]. *)
Lemma matchHere_videoPath (s : string) :
  Regex.group_or_empty 1 <$> Regex.matchHere videoPathRe s =
  if Str.startsWith "/videos/" s
  then match segment (Str.drop 8 s) with
       | "" => None
       | seg => Some seg
       end
  else None.
Proof.
  unfold Regex.matchHere, videoPathRe. cbn [Regex.run]. rewrite run_lit.
  destruct (Str.startsWith "/videos/" s); [|done].
  change (Str.len "/videos/") with 8%nat.
  rewrite run_plus_segment by eauto.
  pose proof (take_segment (Str.drop 8 s)) as T.
  destruct (segment (Str.drop 8 s)) as [|c t] eqn:E; [done|].
  cbn [fmap option_fmap option_map Regex.group_or_empty Regex.group
       Regex.groups List.find fst snd Nat.eqb default from_option].
  by rewrite T.
Qed.

Lemma search_videoPath (s : string) :
  Regex.group_or_empty 1 <$> Regex.search videoPathRe s = firstVideoSegment s.
Proof.
  induction s as [|c s IH].
  - simpl. done.
  - cbn [Regex.search firstVideoSegment].
    rewrite <- (matchHere_videoPath (String c s)).
    destruct (Regex.matchHere videoPathRe (String c s)); [done|].
    cbn [fmap option_fmap option_map]. rewrite <- IH.
    destruct (Regex.search videoPathRe s); done.
Qed.

Lemma extractVideoPath_segment (s : string) :
  extractVideoPath s =
  match firstVideoSegment s with
  | Some seg => "videos/" ++ seg
  | None => ""
  end.
Proof.
  unfold extractVideoPath. rewrite <- search_videoPath.
  destruct s as [|c s]; [done|]. cbn [truthyStr negb].
  destruct (Regex.search videoPathRe (String c s)); done.
Qed.

Lemma firstVideoSegment_shape (s seg : string) :
  firstVideoSegment s = Some seg -> seg <> "" /\ Str.mem "/" seg = false.
Proof.
  induction s as [|c s IH]; cbn [firstVideoSegment].
  - simpl. done.
  - destruct (Str.startsWith "/videos/" (String c s)); [|by apply IH].
    pose proof (segment_no_slash (Str.drop 8 (String c s))) as N.
    destruct (segment (Str.drop 8 (String c s))) eqn:E; [by apply IH|].
    intros [= <-]. done.
Qed.

Lemma firstVideoSegment_none (s : string) :
  Str.includes "/videos/" s = false -> firstVideoSegment s = None.
Proof.
  induction s as [|c s IH]; intros H.
  - done.
  - cbn [firstVideoSegment]. rewrite (includes_startsWith _ _ H).
    apply IH. cbn [Str.includes] in H. by apply orb_false_elim in H as [_ ?].
Qed.

Lemma firstVideoSegment_first (pre seg rest : string) :
  Str.includes "/videos/" (pre ++ "/videos") = false ->
  seg <> "" -> Str.mem "/" seg = false ->
  rest = "" \/ Str.startsWith "/" rest = true ->
  firstVideoSegment (pre ++ "/videos/" ++ seg ++ rest) = Some seg.
Proof.
  intros Hpre Hne Hseg Hrest. induction pre as [|c pre IH].
  - change ("" ++ "/videos/" ++ seg ++ rest)
      with (String "/" ("videos/" ++ seg ++ rest)).
    cbn [firstVideoSegment].
    change (String "/" ("videos/" ++ seg ++ rest))
      with ("/videos/" ++ seg ++ rest).
    rewrite startsWith_self.
    change (Str.drop 8 ("/videos/" ++ seg ++ rest)) with (seg ++ rest).
    rewrite (segment_stops _ _ Hseg Hrest). by destruct seg.
  - change (String c pre ++ "/videos/" ++ seg ++ rest)
      with (String c (pre ++ "/videos/" ++ seg ++ rest)).
    cbn [firstVideoSegment].
    assert (Str.startsWith "/videos/"
              (String c (pre ++ "/videos/" ++ seg ++ rest)) = false) as ->.
    { change (String c (pre ++ "/videos/" ++ seg ++ rest))
        with (String c pre ++ "/videos" ++ "/" ++ seg ++ rest).
      rewrite <- append_assoc. rewrite startsWith_append.
      - by apply includes_startsWith.
      - rewrite len_append. simpl. lia. }
    apply IH. change (String c pre ++ "/videos")
      with (String c (pre ++ "/videos")) in Hpre.
    cbn [Str.includes] in Hpre. by apply orb_false_elim in Hpre as [_ ?].
Qed.

(** ** Every input of [extractVideoPath] *)

Lemma segment_empty (t : string) :
  segment t = "" <-> t = "" \/ Str.startsWith "/" t = true.
Proof.
  destruct t as [|c t]; [by split; auto|]. cbn [segment Str.startsWith].
  destruct (Ascii.eqb "/" c); cbn [andb]; split; try done; auto.
  by intros [|].
Qed.

Lemma drop_append (n : nat) (a b : string) :
  (n <= Str.len a)%nat -> Str.drop n (a ++ b) = Str.drop n a ++ b.
Proof.
  revert a. induction n as [|n IH]; intros a H; [by destruct a|].
  destruct a as [|c a]; [simpl in H; lia|]. simpl. apply IH. simpl in H. lia.
Qed.

Lemma len_drop (n : nat) (a : string) :
  Str.len (Str.drop n a) = (Str.len a - n)%nat.
Proof.
  revert a. induction n as [|n IH]; intros a; [by destruct a; simpl; lia|].
  destruct a as [|c a]; [done|]. simpl. apply IH.
Qed.

(** Whether the /videos/ at the head of a string has a segment does not
    depend on what is appended after the character that follows it. *)
Lemma segment_after_head (a b : string) :
  (9 <= Str.len a)%nat ->
  segment (Str.drop 8 (a ++ b)) = "" <-> segment (Str.drop 8 a) = "".
Proof.
  intros H. rewrite drop_append by lia.
  pose proof (len_drop 8 a) as L.
  destruct (Str.drop 8 a) as [|c t]; [simpl in L; lia|].
  cbn [String.append segment]. by destruct (Ascii.eqb "/" c).
Qed.

Lemma firstVideoSegment_cons_None (c : ascii) (s : string) :
  firstVideoSegment (String c s) = None <->
  (Str.startsWith "/videos/" (String c s) = true ->
   segment (Str.drop 8 (String c s)) = "")
  /\ firstVideoSegment s = None.
Proof.
  cbn [firstVideoSegment].
  destruct (Str.startsWith "/videos/" (String c s)).
  - destruct (segment (Str.drop 8 (String c s))) eqn:E.
    + split; [by intros ->|by intros [_ ->]].
    + split; [done|]. intros [H _]. by specialize (H eq_refl).
  - split; [by intros ->|by intros [_ ->]].
Qed.

Lemma firstVideoSegment_None_iff (s : string) :
  firstVideoSegment s = None <-> noVideoSegment s.
Proof.
  induction s as [|c s IH].
  - split; [|done]. intros _ [|a pre] post E; discriminate.
  - rewrite firstVideoSegment_cons_None, IH. split.
    + intros [Hhead Htail] [|a pre] post E.
      * apply segment_empty. cbn [String.append] in E.
        rewrite E in Hhead. rewrite <- (Hhead (startsWith_self _ _)).
        done.
      * injection E as _ E. by apply (Htail pre post).
    + intros H. split.
      * intros Hs. apply segment_empty.
        apply (H "" (Str.drop 8 (String c s))).
        exact (startsWith_drop _ _ Hs).
      * intros pre post E. apply (H (String c pre) post).
        cbn [String.append]. by rewrite E.
Qed.

Lemma afterSegment_head (t : string) :
  afterSegment t = "" \/ Str.startsWith "/" (afterSegment t) = true.
Proof.
  induction t as [|c t IH]; [by left|]. cbn [afterSegment].
  destruct (Ascii.eqb "/" c) eqn:E; [|done].
  right. cbn [Str.startsWith]. by rewrite E.
Qed.

(** A result comes from the leftmost /videos/ that a segment follows. *)
Lemma firstVideoSegment_Some_inv (s seg : string) :
  firstVideoSegment s = Some seg ->
  exists pre rest : string,
    s = pre ++ "/videos/" ++ seg ++ rest
    /\ firstVideoSegment (pre ++ "/videos/") = None
    /\ (rest = "" \/ Str.startsWith "/" rest = true).
Proof.
  induction s as [|c s IH]; [done|].
  destruct (firstVideoSegment (String c s)) as [seg'|] eqn:F; [|done].
  intros [= ->]. cbn [firstVideoSegment] in F.
  destruct (Str.startsWith "/videos/" (String c s)) eqn:Hs.
  - destruct (segment (Str.drop 8 (String c s))) as [|x t] eqn:E.
    + destruct (IH F) as (pre & rest & -> & Hpre & Hrest).
      exists (String c pre), rest. split; [done|]. split; [|done].
      change (String c pre ++ "/videos/") with (String c (pre ++ "/videos/")).
      apply firstVideoSegment_cons_None. split; [|done]. intros _.
      apply (segment_after_head (String c (pre ++ "/videos/")) (seg ++ rest)).
      * simpl. rewrite len_append. simpl. lia.
      * cbn [String.append]. rewrite append_assoc. exact E.
    + injection F as <-.
      exists "", (afterSegment (Str.drop 8 (String c s))).
      split; [|split; [done | apply afterSegment_head]].
      rewrite <- E, segment_afterSegment.
      exact (startsWith_drop _ _ Hs).
  - destruct (IH F) as (pre & rest & -> & Hpre & Hrest).
    exists (String c pre), rest. split; [done|]. split; [|done].
    change (String c pre ++ "/videos/") with (String c (pre ++ "/videos/")).
    apply firstVideoSegment_cons_None. split; [|done]. intros Hs'.
    assert (Str.startsWith "/videos/"
              (String c (pre ++ "/videos/" ++ seg ++ rest))
            = Str.startsWith "/videos/" (String c (pre ++ "/videos/"))) as Es.
    { change (String c (pre ++ "/videos/" ++ seg ++ rest))
        with (String c pre ++ "/videos/" ++ seg ++ rest).
      rewrite <- append_assoc.
      change (String c (pre ++ "/videos/")) with (String c pre ++ "/videos/").
      apply startsWith_append. rewrite len_append. simpl. lia. }
    congruence.
Qed.

(** The converse: the segment after the leftmost /videos/ that has one. *)
Lemma firstVideoSegment_leftmost (pre seg rest : string) :
  firstVideoSegment (pre ++ "/videos/") = None ->
  seg <> "" -> Str.mem "/" seg = false ->
  rest = "" \/ Str.startsWith "/" rest = true ->
  firstVideoSegment (pre ++ "/videos/" ++ seg ++ rest) = Some seg.
Proof.
  intros Hpre Hne Hseg Hrest. induction pre as [|c pre IH].
  - change ("" ++ "/videos/" ++ seg ++ rest)
      with (String "/" ("videos/" ++ seg ++ rest)).
    cbn [firstVideoSegment].
    change (String "/" ("videos/" ++ seg ++ rest))
      with ("/videos/" ++ seg ++ rest).
    rewrite startsWith_self.
    change (Str.drop 8 ("/videos/" ++ seg ++ rest)) with (seg ++ rest).
    rewrite (segment_stops _ _ Hseg Hrest). by destruct seg.
  - change (String c pre ++ "/videos/") with (String c (pre ++ "/videos/"))
      in Hpre.
    apply firstVideoSegment_cons_None in Hpre as [Hhead Htail].
    change (String c pre ++ "/videos/" ++ seg ++ rest)
      with (String c (pre ++ "/videos/" ++ seg ++ rest)).
    cbn [firstVideoSegment].
    assert (Str.startsWith "/videos/"
              (String c (pre ++ "/videos/" ++ seg ++ rest))
            = Str.startsWith "/videos/" (String c (pre ++ "/videos/"))) as Es.
    { change (String c (pre ++ "/videos/" ++ seg ++ rest))
        with (String c pre ++ "/videos/" ++ seg ++ rest).
      rewrite <- append_assoc.
      change (String c (pre ++ "/videos/")) with (String c pre ++ "/videos/").
      apply startsWith_append. rewrite len_append. simpl. lia. }
    rewrite Es.
    destruct (Str.startsWith "/videos/" (String c (pre ++ "/videos/")));
      [|by apply IH].
    assert (segment (Str.drop 8 (String c (pre ++ "/videos/" ++ seg ++ rest)))
            = "") as ->.
    { apply (segment_after_head (String c (pre ++ "/videos/")) (seg ++ rest)) in Hhead.
      - cbn [String.append] in Hhead. by rewrite append_assoc in Hhead.
      - simpl. rewrite len_append. simpl. lia.
      - done. }
    by apply IH.
Qed.

(** ** formatThumbnailUrl *)

(** The three replacements in a row escape one character at a time. *)
Lemma replacements_escape (s : string) :
  Str.replaceChar "," "%2C"
    (Str.replaceChar ")" "%29" (Str.replaceChar "(" "%28" s))
  = escapeForCdn s.
Proof.
  induction s as [|c s IH]; [done|].
  cbn [Str.replaceChar escapeForCdn]. rewrite !replaceChar_append, IH.
  f_equal. unfold escapeChar.
  destruct (Ascii.eqb c "(") eqn:E1; [reflexivity|].
  cbn [Str.replaceChar String.append].
  destruct (Ascii.eqb c ")") eqn:E2; [reflexivity|].
  cbn [Str.replaceChar String.append].
  destruct (Ascii.eqb c ",") eqn:E3; reflexivity.
Qed.

Lemma escapeForCdn_clean (s : string) :
  Str.mem "(" (escapeForCdn s) = false /\ Str.mem ")" (escapeForCdn s) = false
  /\ Str.mem "," (escapeForCdn s) = false.
Proof.
  induction s as [|c s (I1 & I2 & I3)]; [done|].
  cbn [escapeForCdn]. rewrite !mem_append, I1, I2, I3, !orb_false_r.
  unfold escapeChar.
  destruct (Ascii.eqb c "(") eqn:E1; [by vm_compute|].
  destruct (Ascii.eqb c ")") eqn:E2; [by vm_compute|].
  destruct (Ascii.eqb c ",") eqn:E3; [by vm_compute|].
  cbn [Str.mem]. by rewrite E1, E2, E3.
Qed.

Lemma escapeForCdn_idem (s : string) :
  escapeForCdn (escapeForCdn s) = escapeForCdn s.
Proof.
  destruct (escapeForCdn_clean s) as (H1 & H2 & H3).
  rewrite <- (replacements_escape (escapeForCdn s)).
  rewrite (replaceChar_absent "(") by done.
  rewrite (replaceChar_absent ")") by done.
  by rewrite (replaceChar_absent ",").
Qed.

Lemma formatThumbnailUrl_cases (u : string) :
  formatThumbnailUrl u =
  if Str.includes "xhpingcdn.com" u then escapeForCdn u else u.
Proof.
  unfold formatThumbnailUrl. rewrite replacements_escape.
  destruct u as [|c u]; [done|]. cbn [truthyStr negb orb].
  by destruct (Str.includes "xhpingcdn.com" (String c u)).
Qed.

(** ** cleanVideoData *)

Lemma trimOrEmpty_trimmed (v : jsval) (s : string) :
  trimOrEmpty v = Returned s -> Str.trim s = s.
Proof.
  unfold trimOrEmpty. destruct (truthy v); [|by intros [= <-]].
  destruct v; try done. intros [= <-]. apply trim_idem.
Qed.


Lemma definedPositive_spec (n : option jsnum) :
  definedPositive n = true -> exists z, n = Some (Int z) /\ (0 < z)%Z.
Proof.
  destruct n as [[|z]|]; simpl; try done. intros H%Z.ltb_lt. eauto.
Qed.

Lemma nonEmpty_spec (s : string) : nonEmpty s = true -> s <> "".
Proof. by destruct s. Qed.

(** The shape of a record that [cleanVideoData] returns: the record the
    object literal builds, all six checks passed. *)
Lemma cleanVideoData_returns (x : jsval) (c : video) :
  cleanVideoData x = Returned (Some c) ->
  hasValidId c && hasValidTitle c && hasValidDuration c && hasValidPageURL c
    && hasValidThumbURL c && hasValidViews c = true
  /\ Str.trim (title c) = title c
  /\ exists full, pageURL c = extractVideoPath full.
Proof.
  unfold cleanVideoData.
  destruct (getProp x "pageURL") as [p|]; [|done]. cbn [mbind outcome_bind].
  destruct (trimOrEmpty p) as [full|]; [|done]. cbn [mbind outcome_bind].
  destruct (negb (Str.includes "/videos/" full)); [done|].
  destruct (trimOrEmpty (field "title" x)) as [t|] eqn:Et; [|done].
  destruct (trimOrEmpty (field "thumbURL" x)); [|done].
  destruct (trimOrEmpty (field "previewThumbURL" x)); [|done].
  destruct (trimOrEmpty (field "imageURL" x)); [|done].
  destruct (trimOrEmpty (field "spriteURL" x)); [|done].
  destruct (trimOrEmpty (field "trailerURL" x)); [|done].
  destruct (trimOrEmpty (field "trailerFallbackUrl" x)); [|done].
  cbn [mbind outcome_bind].
  match goal with |- (if ?b then _ else _) = _ -> _ => destruct b eqn:V end;
    [|done].
  intros [= <-]. split; [exact V|]. split.
  - cbn [title]. by apply trimOrEmpty_trimmed in Et.
  - by exists full.
Qed.

Lemma extractVideoPath_shape (s : string) :
  extractVideoPath s <> "" -> shortPath (extractVideoPath s).
Proof.
  rewrite extractVideoPath_segment.
  destruct (firstVideoSegment s) as [seg|] eqn:E; [|done].
  intros _. apply firstVideoSegment_shape in E as [? ?]. by exists seg.
Qed.

Lemma cleaned_valid (c : video) : cleaned c -> validVideo c /\ shortPath (pageURL c).
Proof.
  intros [x Hx]. apply cleanVideoData_returns in Hx as (V & Ht & full & Hp).
  repeat (apply andb_prop in V as [V ?]).
  assert (pageURL c <> "") as Hne by by apply nonEmpty_spec.
  split.
  - repeat split;
      try (by apply definedPositive_spec); try (by apply nonEmpty_spec);
      try done.
    unfold validViews, hasValidViews in *. destruct (views c) as [|z]; [done|].
    exists z. split; [done|]. by apply Z.leb_le.
  - rewrite Hp in *. by apply extractVideoPath_shape.
Qed.


Lemma valid_not_skipped (c : video) :
  validVideo c -> skipInvalid c = false.
Proof.
  intros ((z & Hz & Hpos) & (Ht & _) & _ & Hp & _). unfold skipInvalid.
  rewrite Hz. cbn [truthyField truthyNum].
  replace (z =? 0)%Z with false by (symmetry; apply Z.eqb_neq; lia).
  unfold validPageURL in Hp.
  destruct (title c); [done|]. by destruct (pageURL c).
Qed.



(** ** The key of the related-videos loop *)

Lemma string_of_uint_no_dash (d : Decimal.uint) :
  Str.mem "-" (NilEmpty.string_of_uint d) = false.
Proof. induction d; simpl; [done | by rewrite IHd ..]. Qed.

Lemma Z_to_string_no_dash (z : Z) :
  (0 < z)%Z -> Str.mem "-" (Z_to_string z) = false.
Proof.
  destruct z as [|p|p]; [lia | | lia]. intros _.
  unfold Z_to_string. simpl. apply string_of_uint_no_dash.
Qed.

Lemma Z_to_string_inj (a b : Z) : Z_to_string a = Z_to_string b -> a = b.
Proof.
  unfold Z_to_string. intros H.
  apply (f_equal NilEmpty.int_of_string) in H. rewrite !NilEmpty.isi in H.
  injection H as H. apply (f_equal Z.of_int) in H.
  by rewrite !DecimalZ.of_to in H.
Qed.

(** On validated records with a short path the string key determines
    the composite key. *)
Lemma uniqueKey_inj (u v : video) :
  validVideo u -> shortPath (pageURL u) ->
  validVideo v -> shortPath (pageURL v) ->
  uniqueKey u = uniqueKey v -> compositeKey u = compositeKey v.
Proof.
  intros ((zu & Hu & Pu) & _) (su & Eu & _ & Su).
  intros ((zv & Hv & Pv) & _) (sv & Ev & _ & Sv).
  unfold uniqueKey, compositeKey. rewrite Hu, Hv, Eu, Ev.
  cbn [num_to_string]. intros H.
  change (Z_to_string zu ++ String "-" (title u ++ "-" ++ "videos/" ++ su) =
          Z_to_string zv ++ String "-" (title v ++ "-" ++ "videos/" ++ sv)) in H.
  apply split_first in H as [Hz H]; [| by apply Z_to_string_no_dash ..].
  apply Z_to_string_inj in Hz as ->.
  change (title u ++ "-videos" ++ String "/" su =
          title v ++ "-videos" ++ String "/" sv) in H.
  rewrite <- !append_assoc in H.
  apply split_last in H as [Ht ->]; [| done ..].
  apply append_inv_tail in Ht as ->. done.
Qed.

Lemma compositeKey_uniqueKey (u v : video) :
  compositeKey u = compositeKey v -> uniqueKey u = uniqueKey v.
Proof. unfold compositeKey, uniqueKey. by intros [= -> -> ->]. Qed.

(** ** The two loops *)

Open Scope list_scope.

Lemma searchState_snoc (l : list video) (v : video) :
  searchState (l ++ [v]) = searchDedupStep (searchState l) v.
Proof. unfold searchState. by rewrite foldl_app. Qed.

Lemma relatedState_snoc (l : list video) (v : video) :
  relatedState (l ++ [v]) = relatedDedupStep (relatedState l) v.
Proof. unfold relatedState. by rewrite foldl_app. Qed.

(** The sets of the search loop hold the fields of the kept records. *)
Lemma searchState_seen (l : list video) :
  let st := searchState l in
  seenIds st = list_to_set (id <$> uniqueVideos st)
  /\ seenTitles st = list_to_set (title <$> uniqueVideos st)
  /\ seenUrls st = list_to_set (pageURL <$> uniqueVideos st).
Proof.
  induction l as [|v l IH] using rev_ind; [done|].
  rewrite searchState_snoc. cbn zeta in *. destruct IH as (I1 & I2 & I3).
  unfold searchDedupStep. destruct (skipInvalid v); [done|].
  destruct (_ || _); [done|]. cbn [seenIds seenTitles seenUrls uniqueVideos].
  rewrite !fmap_snoc, !list_to_set_snoc_L, I1, I2, I3. done.
Qed.

Lemma relatedState_seen (l : list video) :
  seenKeys (relatedState l) =
  list_to_set (uniqueKey <$> uniqueRelatedVideos (relatedState l)).
Proof.
  induction l as [|v l IH] using rev_ind; [done|].
  rewrite relatedState_snoc. unfold relatedDedupStep.
  destruct (skipInvalid v); [done|]. destruct (bool_decide _); [done|].
  cbn [seenKeys uniqueRelatedVideos].
  rewrite fmap_snoc, list_to_set_snoc_L, IH. done.
Qed.

(** What one more record does to the output of the search loop. *)
Lemma searchDedup_snoc (l : list video) (v : video) :
  searchDedup (l ++ [v]) = searchDedup l ++ [v] /\ skipInvalid v = false
    /\ (forall u, u ∈ searchDedup l -> ~ collides v u)
  \/ searchDedup (l ++ [v]) = searchDedup l
    /\ (skipInvalid v = true \/ exists u, u ∈ searchDedup l /\ collides v u).
Proof.
  unfold searchDedup. rewrite searchState_snoc.
  destruct (searchState_seen l) as (I1 & I2 & I3).
  unfold searchDedupStep. destruct (skipInvalid v); [right; eauto|].
  destruct (bool_decide (id v ∈ _)) eqn:B1.
  { apply bool_decide_eq_true in B1. rewrite I1, elem_of_list_to_set in B1.
    apply list_elem_of_fmap in B1 as (u & E & Hu).
    right. split; [done|]. right. exists u. unfold collides. eauto. }
  destruct (bool_decide (title v ∈ _)) eqn:B2.
  { apply bool_decide_eq_true in B2. rewrite I2, elem_of_list_to_set in B2.
    apply list_elem_of_fmap in B2 as (u & E & Hu).
    right. split; [done|]. right. exists u. unfold collides. eauto. }
  destruct (bool_decide (pageURL v ∈ _)) eqn:B3.
  { apply bool_decide_eq_true in B3. rewrite I3, elem_of_list_to_set in B3.
    apply list_elem_of_fmap in B3 as (u & E & Hu).
    right. split; [done|]. right. exists u. unfold collides. eauto. }
  left. cbn [orb uniqueVideos]. split; [done|]. split; [done|].
  apply bool_decide_eq_false in B1, B2, B3.
  rewrite I1, elem_of_list_to_set in B1. rewrite I2, elem_of_list_to_set in B2.
  rewrite I3, elem_of_list_to_set in B3.
  intros u Hu [E | [E | E]].
  - apply B1. rewrite <- E. by apply list_elem_of_fmap_2.
  - apply B2. rewrite <- E. by apply list_elem_of_fmap_2.
  - apply B3. rewrite <- E. by apply list_elem_of_fmap_2.
Qed.

(** The same for the related-videos loop, in terms of its string key. *)
Lemma relatedDedup_snoc (l : list video) (v : video) :
  relatedDedup (l ++ [v]) = relatedDedup l ++ [v] /\ skipInvalid v = false
    /\ (forall u, u ∈ relatedDedup l -> uniqueKey u <> uniqueKey v)
  \/ relatedDedup (l ++ [v]) = relatedDedup l
    /\ (skipInvalid v = true
        \/ exists u, u ∈ relatedDedup l /\ uniqueKey u = uniqueKey v).
Proof.
  unfold relatedDedup. rewrite relatedState_snoc.
  pose proof (relatedState_seen l) as I.
  unfold relatedDedupStep. destruct (skipInvalid v); [right; eauto|].
  destruct (bool_decide _) eqn:B.
  - apply bool_decide_eq_true in B. rewrite I, elem_of_list_to_set in B.
    apply list_elem_of_fmap in B as (u & E & Hu). right. eauto.
  - left. cbn [uniqueRelatedVideos]. split; [done|]. split; [done|].
    apply bool_decide_eq_false in B. rewrite I, elem_of_list_to_set in B.
    intros u Hu E. apply B. rewrite <- E. by apply list_elem_of_fmap_2.
Qed.

Lemma searchDedup_sublist (l : list video) : searchDedup l `sublist_of` l.
Proof.
  induction l as [|v l IH] using rev_ind; [done|].
  destruct (searchDedup_snoc l v) as [(-> & _) | (-> & _)].
  - by apply sublist_app.
  - by apply sublist_inserts_r.
Qed.

Lemma relatedDedup_sublist (l : list video) : relatedDedup l `sublist_of` l.
Proof.
  induction l as [|v l IH] using rev_ind; [done|].
  destruct (relatedDedup_snoc l v) as [(-> & _) | (-> & _)].
  - by apply sublist_app.
  - by apply sublist_inserts_r.
Qed.

Lemma searchDedup_NoDup (l : list video) :
  NoDup (compositeKey <$> searchDedup l).
Proof.
  induction l as [|v l IH] using rev_ind; [constructor|].
  destruct (searchDedup_snoc l v) as [(-> & _ & H) | (-> & _)]; [|done].
  rewrite fmap_app. apply NoDup_app. split; [done|]. split; [|apply NoDup_singleton].
  intros k (u & -> & Hu)%list_elem_of_fmap Hk.
  apply list_elem_of_singleton in Hk. apply (H u Hu). left.
  unfold compositeKey in Hk. by injection Hk.
Qed.

Lemma relatedDedup_NoDup (l : list video) :
  NoDup (compositeKey <$> relatedDedup l).
Proof.
  induction l as [|v l IH] using rev_ind; [constructor|].
  destruct (relatedDedup_snoc l v) as [(-> & _ & H) | (-> & _)]; [|done].
  rewrite fmap_app. apply NoDup_app. split; [done|]. split; [|apply NoDup_singleton].
  intros k (u & -> & Hu)%list_elem_of_fmap Hk.
  apply list_elem_of_singleton in Hk. apply (H u Hu).
  by apply compositeKey_uniqueKey.
Qed.

Lemma Forall_of_sublist {A : Type} (P : A -> Prop) (l1 l2 : list A) :
  l1 `sublist_of` l2 -> Forall P l2 -> Forall P l1.
Proof.
  induction 1 as [|x l1 l2 _ IH|x l1 l2 _ IH]; intros H; [done| |].
  - apply Forall_cons in H as [? ?]. constructor; auto.
  - apply Forall_cons in H as [? ?]. auto.
Qed.

Lemma filter_all {A : Type} (f : A -> bool) (l : list A) :
  Forall (fun x => f x = true) l -> List.filter f l = l.
Proof.
  induction 1 as [|x l Hx _ IH]; [done|]. simpl. by rewrite Hx, IH.
Qed.

(** On validated records the related-videos loop keeps the first record
    of every composite key. *)
Lemma relatedDedup_from (l : list video) (st : relatedSeen) :
  Forall cleaned l -> Forall cleaned (uniqueRelatedVideos st) ->
  seenKeys st = list_to_set (uniqueKey <$> uniqueRelatedVideos st) ->
  uniqueRelatedVideos (foldl relatedDedupStep st l) =
  uniqueRelatedVideos st ++
  keepFirst compositeKey (compositeKey <$> uniqueRelatedVideos st) l.
Proof.
  revert st. induction l as [|v l IH]; intros st Hl Hst Hseen.
  - simpl. by rewrite app_nil_r.
  - apply Forall_cons in Hl as [Hv Hl]. cbn [foldl keepFirst].
    destruct (cleaned_valid v Hv) as [Vv Pv].
    unfold relatedDedupStep at 2. rewrite (valid_not_skipped v Vv).
    destruct (bool_decide (uniqueKey v ∈ seenKeys st)) eqn:B.
    + apply bool_decide_eq_true in B. rewrite Hseen, elem_of_list_to_set in B.
      apply list_elem_of_fmap in B as (u & E & Hu).
      assert (compositeKey v ∈ compositeKey <$> uniqueRelatedVideos st) as Hin.
      { apply list_elem_of_fmap. exists u. split; [|done].
        rewrite Forall_forall in Hst.
        destruct (cleaned_valid u (Hst u Hu)) as [Vu Pu].
        symmetry. by apply uniqueKey_inj. }
      rewrite (bool_decide_eq_true_2 _ Hin). by apply IH.
    + apply bool_decide_eq_false in B. rewrite Hseen, elem_of_list_to_set in B.
      assert (compositeKey v ∉ compositeKey <$> uniqueRelatedVideos st) as Hout.
      { intros (u & E & Hu)%list_elem_of_fmap. apply B.
        apply list_elem_of_fmap. exists u. split; [|done].
        by apply compositeKey_uniqueKey. }
      rewrite (bool_decide_eq_false_2 _ Hout). rewrite IH.
      * cbn [uniqueRelatedVideos]. by rewrite fmap_snoc, <- app_assoc.
      * done.
      * cbn [uniqueRelatedVideos]. apply Forall_app. split; [done|]. by constructor.
      * cbn [uniqueRelatedVideos seenKeys].
        by rewrite fmap_snoc, list_to_set_snoc_L, Hseen.
Qed.

Lemma relatedDedup_keepFirst (l : list video) :
  Forall cleaned l -> relatedDedup l = keepFirst compositeKey [] l.
Proof.
  intros Hl. unfold relatedDedup, relatedState.
  by rewrite relatedDedup_from.
Qed.

(** The search loop skips the records without an id, a title or a
    pageURL, and keeps another record exactly when no record kept before
    it has its id, its title or its pageURL. *)
Lemma searchDedup_from (l : list video) (st : searchSeen) :
  seenIds st = list_to_set (id <$> uniqueVideos st) ->
  seenTitles st = list_to_set (title <$> uniqueVideos st) ->
  seenUrls st = list_to_set (pageURL <$> uniqueVideos st) ->
  uniqueVideos (foldl searchDedupStep st l) =
  uniqueVideos st ++
  keepApart (uniqueVideos st) (List.filter (fun v => negb (skipInvalid v)) l).
Proof.
  revert st. induction l as [|v l IH]; intros st I1 I2 I3.
  - simpl. by rewrite app_nil_r.
  - cbn [foldl List.filter]. unfold searchDedupStep at 2.
    destruct (skipInvalid v); cbn [negb]; [by apply IH|].
    cbn [keepApart].
    assert (bool_decide (id v ∈ seenIds st)
            = bool_decide (id v ∈ id <$> uniqueVideos st)) as ->.
    { apply bool_decide_ext. by rewrite I1, elem_of_list_to_set. }
    assert (bool_decide (title v ∈ seenTitles st)
            = bool_decide (title v ∈ title <$> uniqueVideos st)) as ->.
    { apply bool_decide_ext. by rewrite I2, elem_of_list_to_set. }
    assert (bool_decide (pageURL v ∈ seenUrls st)
            = bool_decide (pageURL v ∈ pageURL <$> uniqueVideos st)) as ->.
    { apply bool_decide_ext. by rewrite I3, elem_of_list_to_set. }
    destruct (_ || _ || _); [by apply IH|].
    rewrite IH.
    + cbn [uniqueVideos]. by rewrite <- app_assoc.
    + cbn [uniqueVideos seenIds].
      by rewrite fmap_snoc, list_to_set_snoc_L, I1.
    + cbn [uniqueVideos seenTitles].
      by rewrite fmap_snoc, list_to_set_snoc_L, I2.
    + cbn [uniqueVideos seenUrls].
      by rewrite fmap_snoc, list_to_set_snoc_L, I3.
Qed.

Lemma searchDedup_keepApart_filter (l : list video) :
  searchDedup l
  = keepApart [] (List.filter (fun v => negb (skipInvalid v)) l).
Proof. unfold searchDedup, searchState. by rewrite searchDedup_from. Qed.

Lemma searchDedup_keepApart (l : list video) :
  Forall cleaned l -> searchDedup l = keepApart [] l.
Proof.
  intros Hl. rewrite searchDedup_keepApart_filter. f_equal.
  apply filter_all. eapply Forall_impl; [exact Hl|].
  intros v Hv. cbv beta. destruct (cleaned_valid v Hv) as [Vv _].
  by rewrite (valid_not_skipped v Vv).
Qed.

(** ** The extractors return validated records *)







(** ** The claims *)

Lemma trimOrEmpty_throws (v : jsval) (e : exn) :
  trimOrEmpty v = Thrown e -> e = TypeError /\ stringOrFalsy v = false.
Proof.
  unfold trimOrEmpty, stringOrFalsy.
  destruct v; simpl; try done;
    try (destruct (truthyNum _) + destruct b; simpl; try done);
    try (by intros [= <-]).
  by destruct (truthyStr s).
Qed.

Lemma stringFields_false (x : jsval) (k : string) :
  k ∈ trimmedFields -> stringOrFalsy (field k x) = false ->
  stringFields x = false.
Proof.
  intros Hk Hf. unfold stringFields.
  assert (forallb (fun k => stringOrFalsy (field k x)) trimmedFields = false)
    as ->; [|by destruct x].
  apply not_true_is_false. intros H. rewrite forallb_forall in H.
  apply list_elem_of_In in Hk. by rewrite (H k Hk) in Hf.
Qed.



(** C2, as amended. Every input falls under one of two cases. When some
    /videos/ of the input is followed by a segment, [extractVideoPath]
    returns videos/ and the segment of the leftmost such /videos/, the
    segment being everything up to the next slash or the end of the
    input: a later path is stripped, a query suffix is kept, and a
    /videos/ that a slash or the end follows is passed over. So the URL
    of the example gives videos/my-slug-1?ref=x. In the other case, when
    no /videos/ of the input has a segment, and so when the input has no
    /videos/ at all, the result is the empty string. *)
Theorem extractVideoPath_contract :
  (forall pre seg rest : string,
     noVideoSegment (pre +:+ "/videos/") ->
     seg <> "" -> Str.mem "/" seg = false ->
     rest = "" \/ Str.startsWith "/" rest = true ->
     extractVideoPath (pre +:+ "/videos/" +:+ seg +:+ rest) = "videos/" +:+ seg)
  /\ (forall s : string, noVideoSegment s -> extractVideoPath s = "")
  /\ (forall s : string,
        noVideoSegment s
        \/ exists pre seg rest : string,
             s = pre +:+ "/videos/" +:+ seg +:+ rest
             /\ noVideoSegment (pre +:+ "/videos/")
             /\ seg <> "" /\ Str.mem "/" seg = false
             /\ (rest = "" \/ Str.startsWith "/" rest = true))
  /\ (forall pre seg rest : string,
        Str.includes "/videos/" (pre +:+ "/videos") = false ->
        seg <> "" -> Str.mem "/" seg = false ->
        rest = "" \/ Str.startsWith "/" rest = true ->
        extractVideoPath (pre +:+ "/videos/" +:+ seg +:+ rest)
        = "videos/" +:+ seg)
  /\ extractVideoPath "https://host/videos/my-slug-1?ref=x"
     = "videos/my-slug-1?ref=x"
  /\ (forall s : string,
        Str.includes "/videos/" s = false -> extractVideoPath s = "").
Proof.
  split; [|split; [|split; [|split; [|split]]]].
  - intros pre seg rest Hpre Hne Hseg Hrest.
    apply firstVideoSegment_None_iff in Hpre.
    rewrite extractVideoPath_segment.
    by rewrite (firstVideoSegment_leftmost pre seg rest).
  - intros s Hs. apply firstVideoSegment_None_iff in Hs.
    rewrite extractVideoPath_segment. by rewrite Hs.
  - intros s. destruct (firstVideoSegment s) as [seg|] eqn:F.
    + right. destruct (firstVideoSegment_shape _ _ F) as [Hne Hseg].
      destruct (firstVideoSegment_Some_inv _ _ F)
        as (pre & rest & -> & Hpre & Hrest).
      exists pre, seg, rest. split; [done|]. split; [|done].
      by apply firstVideoSegment_None_iff.
    + left. by apply firstVideoSegment_None_iff.
  - intros pre seg rest Hpre Hne Hseg Hrest.
    rewrite extractVideoPath_segment.
    by rewrite (firstVideoSegment_first pre seg rest).
  - reflexivity.
  - intros s Hs. rewrite extractVideoPath_segment.
    by rewrite firstVideoSegment_none.
Qed.

Lemma extractVideoPath_contract_witness :
  extractVideoPath "x/videos//videos/abc/d" = "videos/abc"
  /\ extractVideoPath "https://host/videos/" = ""
  /\ extractVideoPath "https://host/videos/my-slug-1/comments?ref=x"
     = "videos/my-slug-1"
  /\ extractVideoPath "https://host/video/my-slug-1" = "".
Proof.
  split; [|split; [|split]].
  - apply (proj1 extractVideoPath_contract "x/videos/" "abc" "/d");
      [by apply firstVideoSegment_None_iff | discriminate | reflexivity
      | right; reflexivity].
  - apply (proj1 (proj2 extractVideoPath_contract) "https://host/videos/").
    by apply firstVideoSegment_None_iff.
  - apply (proj1 (proj2 (proj2 (proj2 extractVideoPath_contract)))
             "https://host" "my-slug-1" "/comments?ref=x");
      [reflexivity | discriminate | reflexivity | right; reflexivity].
  - apply (proj2 (proj2 (proj2 (proj2 (proj2 extractVideoPath_contract))))
             "https://host/video/my-slug-1"). reflexivity.
Defined.

(** C2, the claim as stated fails on its own example: the query suffix
    is part of the result. *)
Lemma extractVideoPath_keeps_query :
  extractVideoPath "https://host/videos/my-slug-1?ref=x" <> "videos/my-slug-1".
Proof. discriminate. Qed.

(** C3, as amended. The related-video extraction is sequential with an
    early exit, like the rest: a method runs only while the collection
    is still empty, so the candidate collection is the finds of the
    first method, in the order relatedVideosComponent scope,
    videoTabInitialData scope, general videoThumbProps scope, HTML
    elements, pattern scan, that finds anything. Finds accumulate over
    the script elements inside one method only. *)
Theorem relatedCandidates_first_method (p : page) :
  relatedCandidates p =
  firstNonEmpty [method1 p; method2 p; method3 p; relatedCards p;
                 patternFinds p]
  /\ method1 p = List.flat_map
                   (scriptFinds "relatedVideosComponent" relatedComponentRe)
                   (scripts p).
Proof.
  split; [|reflexivity]. unfold relatedCandidates. cbn [firstNonEmpty].
  destruct (method1 p); [|done]. cbn [List.length Nat.eqb app].
  destruct (method2 p); [|done]. cbn [List.length Nat.eqb app].
  destruct (method3 p); [|done]. cbn [List.length Nat.eqb app].
  destruct (relatedCards p); [|done]. cbn [List.length Nat.eqb app].
  by destruct (patternFinds p).
Qed.

(** C3, the claim as stated fails: with video A under
    relatedVideosComponent in one script and video B under
    videoTabInitialData in another, the first method finds A, the second
    would find A and B, and the collection holds A alone. *)
Lemma relatedCandidates_no_accumulation :
  method1 twoScripts = [candidateA]
  /\ method2 twoScripts = [candidateA; candidateB]
  /\ method3 twoScripts = [candidateA; candidateB]
  /\ relatedCandidates twoScripts = [candidateA]
  /\ (candidateB ∉ relatedCandidates twoScripts)
  /\ relatedCandidates twoScripts
     <> (method1 twoScripts ++ method2 twoScripts ++ method3 twoScripts).
Proof.
  assert (relatedCandidates twoScripts = [candidateA]) as E
    by (vm_compute; reflexivity).
  assert (method1 twoScripts = [candidateA]) as E1
    by (vm_compute; reflexivity).
  assert (method2 twoScripts = [candidateA; candidateB]) as E2
    by (vm_compute; reflexivity).
  assert (method3 twoScripts = [candidateA; candidateB]) as E3
    by (vm_compute; reflexivity).
  split; [exact E1|]. split; [exact E2|]. split; [exact E3|].
  split; [exact E|]. rewrite E, E1, E2, E3. split.
  - intros H%list_elem_of_singleton. discriminate H.
  - discriminate.
Qed.

(** C4. On the validated records that reach the loops: the search loop
    drops a record exactly when a kept record has the same id, or the
    same title, or the same pageURL; the related-videos loop drops a
    record exactly when a kept record has the same composite key (id,
    title, pageURL); and two records with the same composite key,
    whatever their view counts, collapse to the first under both. *)
Theorem dedup_policies (l : list video) (v : video) :
  Forall cleaned (l ++ [v]) ->
  ((exists u, u ∈ searchDedup l /\ collides v u) ->
   searchDedup (l ++ [v]) = searchDedup l)
  /\ (~ (exists u, u ∈ searchDedup l /\ collides v u) ->
      searchDedup (l ++ [v]) = searchDedup l ++ [v])
  /\ ((exists u, u ∈ relatedDedup l /\ compositeKey u = compositeKey v) ->
      relatedDedup (l ++ [v]) = relatedDedup l)
  /\ (~ (exists u, u ∈ relatedDedup l /\ compositeKey u = compositeKey v) ->
      relatedDedup (l ++ [v]) = relatedDedup l ++ [v])
  /\ (forall a, l = [a] -> compositeKey a = compositeKey v ->
      searchDedup [a; v] = [a] /\ relatedDedup [a; v] = [a]).
Proof.
  intros [Hl Hv]%Forall_app. apply Forall_cons in Hv as [Hv _].
  destruct (cleaned_valid v Hv) as [Vv Pv].
  pose proof (valid_not_skipped v Vv) as Sv.
  assert (forall u, u ∈ relatedDedup l ->
            uniqueKey u = uniqueKey v <-> compositeKey u = compositeKey v) as K.
  { intros u Hu. split; [|apply compositeKey_uniqueKey].
    assert (cleaned u) as Cu.
    { pose proof (Forall_of_sublist _ _ _ (relatedDedup_sublist l) Hl) as F.
      rewrite Forall_forall in F. by apply F. }
    destruct (cleaned_valid u Cu). by apply uniqueKey_inj. }
  assert (((exists u, u ∈ searchDedup l /\ collides v u) ->
           searchDedup (l ++ [v]) = searchDedup l)
          /\ (~ (exists u, u ∈ searchDedup l /\ collides v u) ->
              searchDedup (l ++ [v]) = searchDedup l ++ [v])) as [S1 S2].
  { destruct (searchDedup_snoc l v) as [(E & _ & N) | (E & [S | X])].
    - split; [|done]. intros (u & Hu & C). by destruct (N u Hu).
    - congruence.
    - split; [done|]. intros N. by destruct N. }
  assert (((exists u, u ∈ relatedDedup l /\ compositeKey u = compositeKey v) ->
           relatedDedup (l ++ [v]) = relatedDedup l)
          /\ (~ (exists u, u ∈ relatedDedup l
                    /\ compositeKey u = compositeKey v) ->
              relatedDedup (l ++ [v]) = relatedDedup l ++ [v])) as [R1 R2].
  { destruct (relatedDedup_snoc l v) as [(E & _ & N) | (E & [S | X])].
    - split; [|done]. intros (u & Hu & C). destruct (N u Hu). by apply K.
    - congruence.
    - split; [done|]. intros N. destruct N.
      destruct X as (u & Hu & C). exists u. split; [done|]. by apply K. }
  split; [exact S1|]. split; [exact S2|]. split; [exact R1|].
  split; [exact R2|]. intros a -> Hk. apply Forall_cons in Hl as [Ha _].
  split.
  - idtac.
    pose proof (valid_not_skipped a (proj1 (cleaned_valid a Ha))) as Sa.
    assert (searchDedup [a] = [a]) as Ea.
    { unfold searchDedup, searchState. cbn [foldl]. unfold searchDedupStep.
      rewrite Sa. done. }
    change [a; v] with ([a] ++ [v]). rewrite S1, Ea; [done|].
    exists a. rewrite Ea. split; [by apply list_elem_of_singleton|].
    left. unfold compositeKey in Hk. by injection Hk.
  - pose proof (valid_not_skipped a (proj1 (cleaned_valid a Ha))) as Sa.
    assert (relatedDedup [a] = [a]) as Ea.
    { unfold relatedDedup, relatedState. cbn [foldl]. unfold relatedDedupStep.
      rewrite Sa. done. }
    change [a; v] with ([a] ++ [v]). rewrite R1, Ea; [done|].
    exists a. rewrite Ea. split; [by apply list_elem_of_singleton | done].
Qed.

Lemma cleaned_recordA : cleaned recordA.
Proof. exists candidateA. vm_compute. reflexivity. Qed.
Lemma cleaned_recordA' : cleaned recordA'.
Proof. exists candidateA'. vm_compute. reflexivity. Qed.
Lemma cleaned_recordB : cleaned recordB.
Proof. exists candidateB. vm_compute. reflexivity. Qed.
Lemma cleaned_recordC : cleaned recordC.
Proof. exists candidateC. vm_compute. reflexivity. Qed.

Lemma dedup_policies_witness :
  searchDedup [recordA; recordA'] = [recordA]
  /\ relatedDedup [recordA; recordA'] = [recordA].
Proof.
  apply (dedup_policies [recordA] recordA').
  - repeat constructor; [apply cleaned_recordA | apply cleaned_recordA'].
  - reflexivity.
  - reflexivity.
Defined.

Lemma count_sublist {A : Type} (l1 l2 : list A) :
  l1 `sublist_of` l2 -> (count l1 <= count l2)%Z.
Proof. intros H%sublist_length. unfold count. lia. Qed.

Lemma count_filter {A : Type} (f : A -> bool) (l : list A) :
  (count (List.filter f l) <= count l)%Z.
Proof. unfold count. pose proof (List.filter_length_le f l). lia. Qed.

(** C5. Every response of the two routes that carries a meta object
    reports integers with found = unique + duplicatesRemoved and unique
    = complete + filtered, none of them negative. *)
Theorem stats_arithmetic :
  (forall (encodeURIComponent : string -> string) (query : string)
          (page : option string) (net : string -> fetched) (body : searchBody),
     answer net (searchRoute encodeURIComponent query page) = Ok body ->
     let m := searchStats body in
     (totalFound m = uniqueVideosCount m + searchDuplicatesRemoved m
      /\ uniqueVideosCount m = completeVideos m + filtered m
      /\ 0 <= completeVideos m /\ 0 <= searchDuplicatesRemoved m
      /\ 0 <= filtered m)%Z)
  /\ (forall (path : string) (net : string -> fetched) (body : detailsBody),
        answer net (detailsRoute path) = Ok body ->
        let m := relatedStats body in
        (totalRelated m = uniqueRelated m + relatedDuplicatesRemoved m
         /\ uniqueRelated m = completeRelated m + filteredRelated m
         /\ 0 <= completeRelated m /\ 0 <= relatedDuplicatesRemoved m
         /\ 0 <= filteredRelated m)%Z).
Proof.
  split.
  - intros enc query page net body. unfold searchRoute. cbn [answer].
    destruct (net _) as [data|status message]; cbn [answer]; [|done].
    intros [= <-]. cbn [searchStats searchResponse totalFound
      uniqueVideosCount completeVideos searchDuplicatesRemoved filtered].
    pose proof (count_sublist _ _ (searchDedup_sublist (extractSearchResults data))).
    pose proof (count_filter isComplete (searchDedup (extractSearchResults data))).
    assert (0 <= count (List.filter isComplete
                     (searchDedup (extractSearchResults data))))%Z
      by (unfold count; lia).
    lia.
  - intros path net body. unfold detailsRoute.
    destruct (negb _); [done|]. cbn [answer].
    destruct (net _) as [data|status message].
    + destruct (videoDetails data) as [details|]; cbn [answer]; [|done].
      intros [= <-]. cbn [relatedStats detailsResponse totalRelated
        uniqueRelated completeRelated relatedDuplicatesRemoved filteredRelated].
      pose proof (count_sublist _ _
        (relatedDedup_sublist (extractRelatedVideos data))).
      pose proof (count_filter isComplete
        (relatedDedup (extractRelatedVideos data))).
      assert (0 <= count (List.filter isComplete
                       (relatedDedup (extractRelatedVideos data))))%Z
        by (unfold count; lia).
      lia.
    + by destruct (bool_decide _).
Qed.

Lemma stats_arithmetic_witness :
  let m := searchStats (searchResponse (Int 1) twoScripts) in
  let r := relatedStats (detailsResponse (VObj [("title", VStr "A")]) twoScripts) in
  (totalFound m = uniqueVideosCount m + searchDuplicatesRemoved m
   /\ uniqueVideosCount m = completeVideos m + filtered m
   /\ 0 <= completeVideos m /\ 0 <= searchDuplicatesRemoved m
   /\ 0 <= filtered m)%Z
  /\ (totalRelated r = uniqueRelated r + relatedDuplicatesRemoved r
      /\ uniqueRelated r = completeRelated r + filteredRelated r
      /\ 0 <= completeRelated r /\ 0 <= relatedDuplicatesRemoved r
      /\ 0 <= filteredRelated r)%Z.
Proof.
  split.
  - apply (proj1 stats_arithmetic (fun q => q) "cats" None
             (fun _ => Fetched twoScripts)).
    reflexivity.
  - apply (proj2 stats_arithmetic "videos/a-1" (fun _ => Fetched twoScripts)).
    reflexivity.
Defined.

(** C6. [formatThumbnailUrl] is idempotent; it returns a URL that does
    not contain xhpingcdn.com unchanged; and on a URL that contains it,
    it percent-escapes the three characters ( ) and , to %28, %29 and
    %2C and changes nothing else. *)
Theorem formatThumbnailUrl_escaping (u : string) :
  formatThumbnailUrl (formatThumbnailUrl u) = formatThumbnailUrl u
  /\ (Str.includes "xhpingcdn.com" u = false -> formatThumbnailUrl u = u)
  /\ (Str.includes "xhpingcdn.com" u = true ->
      formatThumbnailUrl u = escapeForCdn u).
Proof.
  rewrite !formatThumbnailUrl_cases.
  destruct (Str.includes "xhpingcdn.com" u) eqn:E.
  - split; [|by split]. rewrite escapeForCdn_idem.
    by destruct (Str.includes "xhpingcdn.com" (escapeForCdn u)).
  - by rewrite E.
Qed.

Lemma formatThumbnailUrl_escaping_witness :
  formatThumbnailUrl "https://cdn.example/a(1),b.jpg"
  = "https://cdn.example/a(1),b.jpg"
  /\ formatThumbnailUrl "https://ic.xhpingcdn.com/a(1),b.jpg"
     = "https://ic.xhpingcdn.com/a%281%29%2Cb.jpg".
Proof.
  split.
  - apply (proj1 (proj2 (formatThumbnailUrl_escaping
                           "https://cdn.example/a(1),b.jpg"))).
    reflexivity.
  - rewrite (proj2 (proj2 (formatThumbnailUrl_escaping
                             "https://ic.xhpingcdn.com/a(1),b.jpg")));
      reflexivity.
Defined.

(** C7, as amended. After either loop no two output records share the
    triple (id, title, pageURL) and the output is an order-preserving
    subsequence of the input. On validated records the related-videos
    loop keeps the first occurrence of every distinct key. The search
    loop does not: it skips the records without an id, a title or a
    pageURL, which validated records never are, and keeps another
    record exactly when no record kept before it has its id, its title
    or its pageURL. *)
Theorem dedup_unique_subsequence (l : list video) :
  (NoDup (compositeKey <$> searchDedup l) /\ searchDedup l `sublist_of` l)
  /\ (NoDup (compositeKey <$> relatedDedup l) /\ relatedDedup l `sublist_of` l)
  /\ (Forall cleaned l -> relatedDedup l = keepFirst compositeKey [] l)
  /\ (Forall cleaned l -> searchDedup l = keepApart [] l)
  /\ searchDedup l
     = keepApart [] (List.filter (fun v => negb (skipInvalid v)) l).
Proof.
  split; [split|split; [split|split; [|split]]].
  - apply searchDedup_NoDup.
  - apply searchDedup_sublist.
  - apply relatedDedup_NoDup.
  - apply relatedDedup_sublist.
  - apply relatedDedup_keepFirst.
  - apply searchDedup_keepApart.
  - apply searchDedup_keepApart_filter.
Qed.

Lemma dedup_unique_subsequence_witness :
  relatedDedup [recordA; recordC; recordA'; recordB]
  = [recordA; recordC; recordB]
  /\ searchDedup [recordA; recordC; recordA'; recordB]
     = [recordA; recordB].
Proof.
  assert (Forall cleaned [recordA; recordC; recordA'; recordB]) as H.
  { repeat constructor;
      [apply cleaned_recordA | apply cleaned_recordC | apply cleaned_recordA'
      | apply cleaned_recordB]. }
  split.
  - rewrite (proj1 (proj2 (proj2 (dedup_unique_subsequence
                                    [recordA; recordC; recordA'; recordB])))
               H).
    reflexivity.
  - rewrite (proj1 (proj2 (proj2 (proj2 (dedup_unique_subsequence
                                    [recordA; recordC; recordA'; recordB]))))
               H).
    reflexivity.
Defined.

(** C7, the claim as stated fails for the search loop: record C has a
    key of its own (only its id is that of A) and this is its first
    occurrence, yet the loop drops it. *)
Lemma searchDedup_drops_first_occurrence :
  cleanVideoData candidateA = Returned (Some recordA)
  /\ cleanVideoData candidateC = Returned (Some recordC)
  /\ compositeKey recordC <> compositeKey recordA
  /\ searchDedup [recordA; recordC] = [recordA]
  /\ keepFirst compositeKey [] [recordA; recordC] = [recordA; recordC].
Proof.
  split; [vm_compute; reflexivity|]. split; [vm_compute; reflexivity|].
  split; [discriminate|]. split; vm_compute; reflexivity.
Qed.

(** C8. The embedded array of the example, with its unquoted keys, goes
    through the repairs and the strict parse of [parseVideoArray], and
    [cleanVideoData] makes exactly one valid record of it, with pageURL
    videos/a-1, duration 30 and 5 views. *)
Theorem embedded_array_example :
  embeddedArray =
    String.concat (String dquote "")
      ["[{id:1,title:"; "A"; ",pageURL:"; "https://x/videos/a-1";
       ",thumbURL:"; "https://cdn/x.jpg"; ",duration:30,views:5}]"]
  /\ exists c,
       cleanAll (parseVideoArray embeddedArray) = Returned [c]
       /\ pageURL c = "videos/a-1" /\ duration c = Some (Int 30)
       /\ views c = Int 5 /\ id c = Some (Int 1) /\ title c = "A"
       /\ validVideo c.
Proof.
  split; [reflexivity|].
  exists (record 1 "A" "videos/a-1" "https://cdn/x.jpg" 30 5).
  split; [vm_compute; reflexivity|]. repeat split; try discriminate.
  - exists 1%Z. split; [reflexivity | lia].
  - exists 30%Z. split; [reflexivity | lia].
  - exists 5%Z. split; [reflexivity | lia].
Qed.

(** C9. A details request whose path does not start with videos/ is
    answered at once with status 400 and the invalid-path error: the
    handler sends no request, whatever the network would answer. *)
Theorem detailsRoute_invalid_path (path : string) :
  Str.startsWith "videos/" path = false ->
  detailsRoute path
  = Answer (Failure 400 "Invalid path. Must start with videos/" None)
  /\ forall net : string -> fetched,
       requests net (detailsRoute path) = []
       /\ answer net (detailsRoute path)
          = Failure 400 "Invalid path. Must start with videos/" None.
Proof.
  intros H. unfold detailsRoute. rewrite H. done.
Qed.

Lemma detailsRoute_invalid_path_witness :
  requests (fun _ => Fetched twoScripts) (detailsRoute "video/a-1") = [].
Proof.
  apply (detailsRoute_invalid_path "video/a-1"). reflexivity.
Defined.


(** * Further properties of the pipeline *)

(** ** The two loops *)

Lemma searchDedup_not_skipped (l : list video) :
  Forall (fun v => skipInvalid v = false) (searchDedup l).
Proof.
  induction l as [|v l IH] using rev_ind; [constructor|].
  destruct (searchDedup_snoc l v) as [(-> & S & _) | (-> & _)]; [|done].
  apply Forall_app. split; [done|]. by constructor.
Qed.

Lemma relatedDedup_not_skipped (l : list video) :
  Forall (fun v => skipInvalid v = false) (relatedDedup l).
Proof.
  induction l as [|v l IH] using rev_ind; [constructor|].
  destruct (relatedDedup_snoc l v) as [(-> & S & _) | (-> & _)]; [|done].
  apply Forall_app. split; [done|]. by constructor.
Qed.

Lemma relatedDedup_keys_NoDup (l : list video) :
  NoDup (uniqueKey <$> relatedDedup l).
Proof.
  induction l as [|v l IH] using rev_ind; [constructor|].
  destruct (relatedDedup_snoc l v) as [(-> & _ & H) | (-> & _)]; [|done].
  rewrite fmap_app. apply NoDup_app. split; [done|].
  split; [|apply NoDup_singleton].
  intros k (u & -> & Hu)%list_elem_of_fmap Hk.
  apply list_elem_of_singleton in Hk. by apply (H u Hu).
Qed.

(** No two records that the search loop keeps share an id, nor a title,
    nor a pageURL. *)
Lemma searchDedup_fields_NoDup (l : list video) :
  NoDup (id <$> searchDedup l) /\ NoDup (title <$> searchDedup l)
  /\ NoDup (pageURL <$> searchDedup l).
Proof.
  induction l as [|v l (I1 & I2 & I3)] using rev_ind;
    [repeat split; constructor|].
  destruct (searchDedup_snoc l v) as [(-> & _ & H) | (-> & _)]; [|done].
  rewrite !fmap_app.
  repeat split; apply NoDup_app; (split; [done|]);
    (split; [|apply NoDup_singleton]);
    intros k (u & -> & Hu)%list_elem_of_fmap Hk;
    apply list_elem_of_singleton in Hk; apply (H u Hu); unfold collides; auto.
Qed.

Lemma searchDedup_fixed (l : list video) :
  Forall (fun v => skipInvalid v = false) l ->
  NoDup (id <$> l) -> NoDup (title <$> l) -> NoDup (pageURL <$> l) ->
  searchDedup l = l.
Proof.
  induction l as [|v l IH] using rev_ind; [done|].
  intros [Hl Hv]%Forall_app. apply Forall_cons in Hv as [Hv _].
  rewrite !fmap_app.
  intros (N1 & D1 & _)%NoDup_app (N2 & D2 & _)%NoDup_app (N3 & D3 & _)%NoDup_app.
  specialize (IH Hl N1 N2 N3).
  destruct (searchDedup_snoc l v) as [(-> & _) | (_ & [S | (u & Hu & C)])].
  - by rewrite IH.
  - congruence.
  - rewrite IH in Hu. exfalso. destruct C as [C | [C | C]].
    + apply (D1 (id u)); [by apply list_elem_of_fmap_2|].
      rewrite C. by apply list_elem_of_singleton.
    + apply (D2 (title u)); [by apply list_elem_of_fmap_2|].
      rewrite C. by apply list_elem_of_singleton.
    + apply (D3 (pageURL u)); [by apply list_elem_of_fmap_2|].
      rewrite C. by apply list_elem_of_singleton.
Qed.

Lemma relatedDedup_fixed (l : list video) :
  Forall (fun v => skipInvalid v = false) l -> NoDup (uniqueKey <$> l) ->
  relatedDedup l = l.
Proof.
  induction l as [|v l IH] using rev_ind; [done|].
  intros [Hl Hv]%Forall_app. apply Forall_cons in Hv as [Hv _].
  rewrite fmap_app. intros (N & D & _)%NoDup_app. specialize (IH Hl N).
  destruct (relatedDedup_snoc l v) as [(-> & _) | (_ & [S | (u & Hu & C)])].
  - by rewrite IH.
  - congruence.
  - rewrite IH in Hu. exfalso.
    apply (D (uniqueKey u)); [by apply list_elem_of_fmap_2|].
    rewrite C. by apply list_elem_of_singleton.
Qed.

(** X1. Both loops are idempotent: a second pass over the output of a
    loop removes nothing. *)
Theorem dedup_idempotent (l : list video) :
  searchDedup (searchDedup l) = searchDedup l
  /\ relatedDedup (relatedDedup l) = relatedDedup l.
Proof.
  split.
  - destruct (searchDedup_fields_NoDup l) as (N1 & N2 & N3).
    by apply searchDedup_fixed; [apply searchDedup_not_skipped | ..].
  - apply relatedDedup_fixed;
      [apply relatedDedup_not_skipped | apply relatedDedup_keys_NoDup].
Qed.

(** Every record that the related-videos loop keeps shares a field with
    a record that the search loop keeps. *)
Lemma related_kept_collides (l : list video) (u : video) :
  u ∈ relatedDedup l -> exists w, w ∈ searchDedup l /\ collides u w.
Proof.
  revert u. induction l as [|v l IH] using rev_ind; intros u Hu.
  - by apply elem_of_nil in Hu.
  - assert (forall w, w ∈ searchDedup l -> w ∈ searchDedup (l ++ [v])) as Up.
    { intros w Hw.
      destruct (searchDedup_snoc l v) as [(-> & _) | (-> & _)]; [|done].
      apply elem_of_app. by left. }
    destruct (relatedDedup_snoc l v) as [(E & S & _) | (E & _)];
      rewrite E in Hu.
    + apply elem_of_app in Hu as [Hu | Hu%list_elem_of_singleton].
      * destruct (IH u Hu) as (w & Hw & C). exists w. split; [by apply Up|done].
      * subst u.
        destruct (searchDedup_snoc l v) as [(-> & _) | (-> & [S' | (w & Hw & C)])].
        -- exists v. split; [|by left].
           apply elem_of_app. right. by apply list_elem_of_singleton.
        -- congruence.
        -- by exists w.
    + destruct (IH u Hu) as (w & Hw & C). exists w. split; [by apply Up|done].
Qed.

Lemma relatedDedup_keeps_new_key (l : list video) (v : video) :
  Forall cleaned (l ++ [v]) ->
  ~ (exists u, u ∈ relatedDedup l /\ compositeKey u = compositeKey v) ->
  relatedDedup (l ++ [v]) = relatedDedup l ++ [v].
Proof.
  intros [Hl Hv]%Forall_app N. apply Forall_cons in Hv as [Hv _].
  destruct (cleaned_valid v Hv) as [Vv Pv].
  destruct (relatedDedup_snoc l v) as [(E & _) | (E & [S | (u & Hu & K)])];
    [done | |].
  - by rewrite (valid_not_skipped v Vv) in S.
  - destruct N. exists u. split; [done|].
    pose proof (Forall_of_sublist _ _ _ (relatedDedup_sublist l) Hl) as F.
    rewrite Forall_forall in F. destruct (cleaned_valid u (F u Hu)).
    by apply uniqueKey_inj.
Qed.

(** X2. On validated records the search policy is the stricter one:
    what the search loop keeps is a subsequence of what the
    related-videos loop keeps. *)
Theorem searchDedup_stricter (l : list video) :
  Forall cleaned l -> searchDedup l `sublist_of` relatedDedup l.
Proof.
  induction l as [|v l IH] using rev_ind; [done|].
  intros H. pose proof H as [Hl Hv]%Forall_app. specialize (IH Hl).
  destruct (searchDedup_snoc l v) as [(-> & _ & N) | (-> & _)].
  - rewrite (relatedDedup_keeps_new_key l v H); [by apply sublist_app|].
    intros (u & Hu & K). destruct (related_kept_collides l u Hu) as (w & Hw & C).
    apply (N w Hw). unfold compositeKey in K. injection K as K1 K2 K3.
    destruct C as [C | [C | C]]; [left | right; left | right; right];
      congruence.
  - destruct (relatedDedup_snoc l v) as [(-> & _) | (-> & _)]; [|done].
    by apply sublist_inserts_r.
Qed.

Lemma searchDedup_stricter_witness :
  searchDedup [recordA; recordC; recordA'; recordB]
    `sublist_of` relatedDedup [recordA; recordC; recordA'; recordB].
Proof.
  apply (searchDedup_stricter [recordA; recordC; recordA'; recordB]).
  repeat constructor;
    [apply cleaned_recordA | apply cleaned_recordC | apply cleaned_recordA'
    | apply cleaned_recordB].
Defined.

(** ** Paths *)

Lemma countChar_append (c : ascii) (a b : string) :
  countChar c (a +:+ b) = countChar c a + countChar c b.
Proof. induction a as [|x a IH]; simpl; [done | rewrite IH; lia]. Qed.

Lemma countChar_absent (c : ascii) (s : string) :
  Str.mem c s = false -> countChar c s = 0.
Proof.
  induction s as [|x s IH]; simpl; [done|].
  intros [-> H]%orb_false_elim. by rewrite IH.
Qed.

Lemma countChar_trimStart (c : ascii) (s : string) :
  countChar c (Str.trimStart s) <= countChar c s.
Proof.
  induction s as [|x s IH]; simpl; [done|].
  destruct (Str.isSpace x); simpl; lia.
Qed.

Lemma countChar_trimEnd (c : ascii) (s : string) :
  countChar c (Str.trimEnd s) <= countChar c s.
Proof.
  induction s as [|x s IH]; simpl; [done|].
  destruct (Str.trimEnd s) eqn:E.
  - destruct (Str.isSpace x); simpl in *; lia.
  - simpl in *. lia.
Qed.

Lemma countChar_trim (c : ascii) (s : string) :
  countChar c (Str.trim s) <= countChar c s.
Proof.
  unfold Str.trim. pose proof (countChar_trimEnd c (Str.trimStart s)).
  pose proof (countChar_trimStart c s). lia.
Qed.

Lemma includes_videos_slashes (s : string) :
  Str.includes "/videos/" s = true -> 2 <= countChar "/" s.
Proof.
  induction s as [|x s IH]; [done|]. cbn [Str.includes].
  intros [H | H]%orb_prop.
  - apply startsWith_drop in H. rewrite H, countChar_append.
    change (countChar "/" "/videos/") with 2. lia.
  - specialize (IH H). simpl. lia.
Qed.

Lemma shortPath_one_slash (s : string) : shortPath s -> countChar "/" s = 1.
Proof.
  intros (seg & -> & _ & H). rewrite countChar_append, (countChar_absent _ _ H).
  reflexivity.
Qed.

Lemma shortPath_no_videos (s : string) :
  shortPath s -> Str.includes "/videos/" (Str.trim s) = false.
Proof.
  intros H%shortPath_one_slash. apply not_true_is_false.
  intros I%includes_videos_slashes. pose proof (countChar_trim "/" s). lia.
Qed.

(** X3. [extractVideoPath] is not idempotent: applied to its own result
    it gives the empty string, because a short path has no leading
    slash. With the slash put back the result is reproduced. *)
Theorem extractVideoPath_twice (s : string) :
  extractVideoPath (extractVideoPath s) = ""
  /\ extractVideoPath ("/" +:+ extractVideoPath s) = extractVideoPath s.
Proof.
  destruct (extractVideoPath s) as [|c t] eqn:E; [done|].
  assert (shortPath (String c t)) as P
    by (rewrite <- E; apply extractVideoPath_shape; by rewrite E).
  split.
  - rewrite extractVideoPath_segment, firstVideoSegment_none; [done|].
    apply not_true_is_false. intros I%includes_videos_slashes.
    apply shortPath_one_slash in P. lia.
  - destruct P as (seg & -> & Hne & Hseg).
    rewrite extractVideoPath_segment.
    change ("/" +:+ "videos/" +:+ seg) with ("" +:+ "/videos/" +:+ seg).
    rewrite <- (append_nil_r seg) at 1.
    rewrite (firstVideoSegment_first "" seg ""); auto.
Qed.

(** X4. A candidate that carries an already shortened path (videos/ and
    a segment, as in a cleaned record) is rejected: [cleanVideoData]
    needs the slash before videos/, so it cannot be run twice. *)
Theorem cleanVideoData_rejects_short_path (x : jsval) (p : string) :
  field "pageURL" x = VStr p -> shortPath p ->
  cleanVideoData x = Returned None.
Proof.
  intros F P. unfold cleanVideoData.
  assert (getProp x "pageURL" = Returned (VStr p)) as ->
    by (destruct x; try done; cbn [getProp]; by rewrite F).
  assert (truthyStr p = true) as T by (by destruct P as (seg & -> & _)).
  cbn [mbind outcome_bind]. unfold trimOrEmpty. cbn [truthy]. rewrite T.
  cbn [callTrim mbind outcome_bind]. by rewrite (shortPath_no_videos p P).
Qed.

Lemma cleanVideoData_rejects_short_path_witness :
  cleanVideoData (candidate 1 "A" (pageURL recordA) "https://cdn/a.jpg" 30 5)
  = Returned None.
Proof.
  apply (cleanVideoData_rejects_short_path _ "videos/a-1").
  - reflexivity.
  - exists "a-1". repeat split; discriminate.
Defined.

(** ** parseInt on the integers *)

Lemma readDigits_uint_pos (d : Decimal.uint) (acc : positive) :
  readDigits 10 (Some (Zpos acc)) (NilEmpty.string_of_uint d) =
  Some (Zpos (Pos.of_uint_acc d acc)).
Proof.
  revert acc. induction d; intros acc; [done| ..];
    cbn [NilEmpty.string_of_uint readDigits Pos.of_uint_acc];
    match goal with
    | |- context [digitValue ?c] =>
        let v := eval vm_compute in (digitValue c) in
        change (digitValue c) with v
    end; cbn [default from_option Z.ltb Z.compare Pos.compare Pos.compare_cont];
    unfold Datatypes.id; rewrite <- IHd; do 2 f_equal; lia.
Qed.

Lemma readDigits_uint_zero (d : Decimal.uint) :
  readDigits 10 (Some 0%Z) (NilEmpty.string_of_uint d) =
  Some (Z.of_N (Pos.of_uint d)).
Proof.
  induction d; [done| ..];
    cbn [NilEmpty.string_of_uint readDigits Pos.of_uint];
    match goal with
    | |- context [digitValue ?c] =>
        let v := eval vm_compute in (digitValue c) in
        change (digitValue c) with v
    end; cbn [default from_option Z.ltb Z.compare Pos.compare Pos.compare_cont
              Z.mul Z.add Z.of_N]; unfold Datatypes.id; cbn [Z.mul Z.add];
    [exact IHd | apply readDigits_uint_pos ..].
Qed.

Lemma readDigits_uint (d : Decimal.uint) :
  d <> Decimal.Nil ->
  readDigits 10 None (NilEmpty.string_of_uint d) =
  Some (Z.of_N (Pos.of_uint d)).
Proof.
  intros Hd. destruct d; [done| ..];
    match goal with
    | |- context [NilEmpty.string_of_uint ?x] => exact (readDigits_uint_zero x)
    end.
Qed.

Lemma parseIntStr_uint (d : Decimal.uint) :
  d <> Decimal.Nil ->
  parseIntStr (NilEmpty.string_of_uint d) = Int (Z.of_N (Pos.of_uint d))
  /\ parseIntStr ("-" +:+ NilEmpty.string_of_uint d)
     = Int (- Z.of_N (Pos.of_uint d)).
Proof.
  intros Hd. pose proof (readDigits_uint d Hd) as R.
  assert (parseIntStr (NilEmpty.string_of_uint d) =
          match readDigits 10 None (NilEmpty.string_of_uint d) with
          | Some z => Int z
          | None => NaN
          end
          /\ parseIntStr ("-" +:+ NilEmpty.string_of_uint d) =
             match readDigits 10 None (NilEmpty.string_of_uint d) with
             | Some z => Int (- z)
             | None => NaN
             end) as [E1 E2].
  { clear R. destruct d as [|d|d|d|d|d|d|d|d|d|d]; [done| ..];
      try (split; reflexivity).
    destruct d; split; reflexivity. }
  rewrite E1, E2, R. done.
Qed.

(** [parseInt] of an integer number is that number. *)
Lemma parseInt_Int (z : Z) : parseInt (VNum (Int z)) = Int z.
Proof.
  unfold parseInt. cbn [toStr num_to_string]. unfold Z_to_string.
  destruct z as [|p|p]; [reflexivity| |].
  - cbn [Z.to_int NilEmpty.string_of_int].
    destruct (parseIntStr_uint (Pos.to_uint p)) as [-> _].
    + apply Unsigned.to_uint_nonnil.
    + by rewrite Unsigned.of_to.
  - cbn [Z.to_int NilEmpty.string_of_int].
    change (String "-" (NilEmpty.string_of_uint (Pos.to_uint p)))
      with ("-" +:+ NilEmpty.string_of_uint (Pos.to_uint p)).
    destruct (parseIntStr_uint (Pos.to_uint p)) as [_ ->].
    + apply Unsigned.to_uint_nonnil.
    + by rewrite Unsigned.of_to.
Qed.

(** ** What [cleanVideoData] needs and what it keeps *)



Lemma trimOrEmpty_nonempty (v : jsval) (s : string) :
  trimOrEmpty v = Returned s -> s <> "" ->
  exists t, v = VStr t /\ s = Str.trim t.
Proof.
  unfold trimOrEmpty. destruct (truthy v) eqn:T; [|by intros [= <-]].
  destruct v; try done. intros [= <-] _. eauto.
Qed.

Lemma includes_nonempty (p s : string) :
  p <> "" -> Str.includes p s = true -> s <> "".
Proof. intros Hp H ->. destruct p; [done|]. discriminate H. Qed.

(** The record that [cleanVideoData] returns, field by field. *)
Lemma cleanVideoData_fields (x : jsval) (c : video) :
  cleanVideoData x = Returned (Some c) ->
  exists full t th,
    trimOrEmpty (field "pageURL" x) = Returned full
    /\ Str.includes "/videos/" full = true
    /\ trimOrEmpty (field "title" x) = Returned t
    /\ trimOrEmpty (field "thumbURL" x) = Returned th
    /\ id c = parseIntOrUndefined (field "id" x)
    /\ title c = t
    /\ duration c = parseIntOrUndefined (field "duration" x)
    /\ pageURL c = extractVideoPath full
    /\ thumbURL c = formatThumbnailUrl th
    /\ views c = (if truthy (field "views" x) then parseInt (field "views" x)
                  else Int 0)
    /\ hasValidId c && hasValidTitle c && hasValidDuration c
       && hasValidPageURL c && hasValidThumbURL c && hasValidViews c = true.
Proof.
  unfold cleanVideoData.
  destruct (getProp x "pageURL") as [p|] eqn:G; [|done].
  assert (p = field "pageURL" x) as ->
    by (destruct x; cbn [getProp] in G; congruence).
  cbn [mbind outcome_bind].
  destruct (trimOrEmpty (field "pageURL" x)) as [full|] eqn:Ef; [|done].
  cbn [mbind outcome_bind].
  destruct (Str.includes "/videos/" full) eqn:I; [|done]. cbn [negb].
  destruct (trimOrEmpty (field "title" x)) as [t|] eqn:Et; [|done].
  destruct (trimOrEmpty (field "thumbURL" x)) as [th|] eqn:Eth; [|done].
  destruct (trimOrEmpty (field "previewThumbURL" x)); [|done].
  destruct (trimOrEmpty (field "imageURL" x)); [|done].
  destruct (trimOrEmpty (field "spriteURL" x)); [|done].
  destruct (trimOrEmpty (field "trailerURL" x)); [|done].
  destruct (trimOrEmpty (field "trailerFallbackUrl" x)); [|done].
  cbn [mbind outcome_bind].
  match goal with |- (if ?b then _ else _) = _ -> _ => destruct b eqn:V end;
    [|done].
  intros [= <-]. exists full, t, th. by repeat split.
Qed.

(** X5. [cleanVideoData] returns a record only for a candidate with a
    truthy id and duration and with strings for title, thumbURL and
    pageURL, the trimmed pageURL containing /videos/; a candidate that
    lacks one of them is rejected. The record holds the trimmed title,
    the parsed id and duration, the short path of the trimmed pageURL
    and the escaped trimmed thumbURL; a missing view count reads 0. *)
Theorem cleanVideoData_requires (x : jsval) (c : video) :
  cleanVideoData x = Returned (Some c) ->
  (exists p, field "pageURL" x = VStr p
             /\ Str.includes "/videos/" (Str.trim p) = true
             /\ pageURL c = extractVideoPath (Str.trim p))
  /\ (exists t, field "title" x = VStr t /\ title c = Str.trim t)
  /\ (exists th, field "thumbURL" x = VStr th
                 /\ thumbURL c = formatThumbnailUrl (Str.trim th))
  /\ (truthy (field "id" x) = true
      /\ id c = Some (parseInt (field "id" x)))
  /\ (truthy (field "duration" x) = true
      /\ duration c = Some (parseInt (field "duration" x)))
  /\ (truthy (field "views" x) = false -> views c = Int 0).
Proof.
  intros (full & t & th & Ef & I & Et & Eth & Hid & Ht & Hd & Hp & Hth & Hv & V)
    %cleanVideoData_fields.
  repeat (apply andb_prop in V as [V ?]).
  repeat split.
  - destruct (trimOrEmpty_nonempty _ _ Ef) as (p & -> & ->).
    { by apply (includes_nonempty "/videos/"). }
    exists p. by rewrite Hp.
  - destruct (trimOrEmpty_nonempty _ _ Et) as (t' & -> & ->).
    { rewrite <- Ht. by apply nonEmpty_spec. }
    exists t'. by rewrite Ht.
  - destruct (trimOrEmpty_nonempty _ _ Eth) as (th' & -> & ->).
    { intros ->. unfold hasValidThumbURL in *. by rewrite Hth in *. }
    exists th'. by rewrite Hth.
  - unfold hasValidId in V. rewrite Hid in V. unfold parseIntOrUndefined in V.
    by destruct (truthy (field "id" x)).
  - rewrite Hid. unfold hasValidId in V. rewrite Hid in V.
    unfold parseIntOrUndefined in *. by destruct (truthy (field "id" x)).
  - unfold hasValidDuration in *. rewrite Hd in *.
    unfold parseIntOrUndefined in *. by destruct (truthy (field "duration" x)).
  - unfold hasValidDuration in *. rewrite Hd in *.
    unfold parseIntOrUndefined in *. by destruct (truthy (field "duration" x)).
  - intros T. by rewrite Hv, T.
Qed.

Lemma cleanVideoData_requires_witness :
  (exists p, field "pageURL" candidateA = VStr p
             /\ Str.includes "/videos/" (Str.trim p) = true
             /\ pageURL recordA = extractVideoPath (Str.trim p))
  /\ (exists t, field "title" candidateA = VStr t /\ title recordA = Str.trim t)
  /\ (exists th, field "thumbURL" candidateA = VStr th
                 /\ thumbURL recordA = formatThumbnailUrl (Str.trim th))
  /\ (truthy (field "id" candidateA) = true
      /\ id recordA = Some (parseInt (field "id" candidateA)))
  /\ (truthy (field "duration" candidateA) = true
      /\ duration recordA = Some (parseInt (field "duration" candidateA)))
  /\ (truthy (field "views" candidateA) = false -> views recordA = Int 0).
Proof.
  apply (cleanVideoData_requires candidateA recordA). vm_compute. reflexivity.
Defined.



(** ** parseVideoArray *)

Lemma field_truthy_object (k : string) (v : jsval) :
  truthy (field k v) = true -> truthy v = true.
Proof. by destruct v. Qed.

Lemma videoOfMatch_fields (m : Regex.found) :
  Forall (fun v => hasIdTitleUrl v = true) (videoOfMatch m).
Proof.
  unfold videoOfMatch. cbv zeta.
  destruct (_ && _) eqn:E; [|constructor].
  apply andb_prop in E as [E _]. apply andb_prop in E as [E _].
  apply andb_prop in E as [E _]. apply andb_prop in E as [E E3].
  apply andb_prop in E as [E1 E2].
  constructor; [|constructor]. unfold hasIdTitleUrl.
  cbv [field lookup_last String.eqb Ascii.eqb Bool.eqb default from_option
       Datatypes.id truthy andb].
  by rewrite E1, E2, E3.
Qed.

Lemma parseObject_fields (objStr : string) :
  Forall (fun v => hasIdTitleUrl v = true) (parseObject objStr).
Proof.
  unfold parseObject. destruct (Json.parse _) as [v|]; [|constructor].
  destruct (_ && _) eqn:E; [|constructor].
  constructor; [|constructor]. unfold hasIdTitleUrl.
  apply andb_prop in E as [E E3]. apply andb_prop in E as [E1 E2].
  by rewrite (field_truthy_object _ _ E1), E1, E2, E3.
Qed.

Lemma bracketStep_fields (str : string) (i : nat) (c : ascii) (st : brackets) :
  Forall (fun v => hasIdTitleUrl v = true) (videoObjects st) ->
  Forall (fun v => hasIdTitleUrl v = true)
         (videoObjects (bracketStep str i c st)).
Proof.
  intros H. unfold bracketStep.
  repeat match goal with
  | |- context [if ?b then _ else _] => destruct b
  | |- context [match objectStart st with _ => _ end] =>
      destruct (objectStart st)
  end; cbn [videoObjects]; try done.
  apply Forall_app. split; [done | apply parseObject_fields].
Qed.

Lemma bracketLoop_fields (str : string) (i : nat) (todo : string)
    (st : brackets) :
  Forall (fun v => hasIdTitleUrl v = true) (videoObjects st) ->
  Forall (fun v => hasIdTitleUrl v = true)
         (videoObjects (bracketLoop str i todo st)).
Proof.
  revert i st. induction todo as [|c todo IH]; intros i st H; [done|].
  cbn [bracketLoop]. apply IH. by apply bracketStep_fields.
Qed.

(** X7. Whichever of its three ways [parseVideoArray] takes (the strict
    parse of the repaired text, the six-field pattern, the bracket
    counting), every object it returns has a truthy id, title and
    pageURL. *)
Theorem parseVideoArray_fields (videosArrayStr : string) :
  Forall (fun v => truthy (field "id" v) = true
                   /\ truthy (field "title" v) = true
                   /\ truthy (field "pageURL" v) = true)
         (parseVideoArray videosArrayStr).
Proof.
  eapply Forall_impl with (P := fun v => hasIdTitleUrl v = true).
  2: { intros v H. unfold hasIdTitleUrl in H.
       repeat (apply andb_prop in H as [H ?]). done. }
  unfold parseVideoArray.
  assert (Forall (fun v => hasIdTitleUrl v = true)
            match List.flat_map videoOfMatch
                    (Regex.matchAll videoRegex videosArrayStr) with
            | [] =>
                videoObjects
                  (bracketLoop videosArrayStr 0 videosArrayStr
                     (Brackets 0 None false false []))
            | _ :: _ =>
                List.flat_map videoOfMatch
                  (Regex.matchAll videoRegex videosArrayStr)
            end) as M.
  { destruct (List.flat_map _ _) as [|v l] eqn:E at 1.
    - apply bracketLoop_fields. constructor.
    - apply Forall_forall. intros x Hx%list_elem_of_In.
      apply in_flat_map in Hx as (m & _ & Hx).
      pose proof (videoOfMatch_fields m) as F. rewrite Forall_forall in F.
      apply F. by apply list_elem_of_In. }
  destruct (Json.parse _) as [arr|]; [|exact M].
  destruct (isArray arr); [|exact M].
  apply Forall_forall. intros x Hx%list_elem_of_In.
  by apply List.filter_In in Hx as [_ Hx].
Qed.

(** ** Exceptions inside the extraction *)

Lemma cleanVideoData_throws_inv (x : jsval) (e : exn) :
  cleanVideoData x = Thrown e -> stringFields x = false.
Proof.
  unfold cleanVideoData.
  destruct x; try done; cbn [getProp mbind outcome_bind].
  all: repeat match goal with
    | |- context [trimOrEmpty (field ?k ?v)] =>
        let T := fresh "T" in
        destruct (trimOrEmpty (field k v)) eqn:T;
        [ cbn [mbind outcome_bind]
        | cbn [mbind outcome_bind];
          apply trimOrEmpty_throws in T as [_ T]; intros _;
          apply (stringFields_false _ k);
            [apply list_elem_of_In; simpl; tauto | exact T] ]
    | |- context [negb (Str.includes ?a ?b)] =>
        destruct (negb (Str.includes a b)); [done|]
    end.
  all: by match goal with |- (if ?b then _ else _) = _ -> _ => destruct b end.
Qed.



Lemma cleanAll_well_typed (videos : list jsval) :
  Forall (fun v => stringFields v = true) videos ->
  exists cs, cleanAll videos = Returned cs.
Proof.
  induction 1 as [|v videos Hv _ [cs IH]]; [by exists []|].
  cbn [cleanAll]. destruct (cleanVideoData v) as [r|e] eqn:E.
  - cbn [mbind outcome_bind]. rewrite IH. cbn [mbind outcome_bind]. eauto.
  - apply cleanVideoData_throws_inv in E. congruence.
Qed.



(** ** The responses *)







(** X11. What the routes answer. The search route sends one request and
    answers with a body or with status 500, never with 400 or 404, even
    when the upstream status is 404. The details route, for a path that
    starts with videos/, sends one request, to the host followed by the
    path; it answers 404 exactly when the upstream status is 404 or the
    detail extraction gave null, 500 on every other failed fetch, and a
    body otherwise. *)
Theorem routes_answers :
  (forall (encodeURIComponent : string -> string) (query : string)
          (page : option string) (net : string -> fetched),
     requests net (searchRoute encodeURIComponent query page)
     = [searchUrl encodeURIComponent query (pageNumber page)]
     /\ ((exists body,
            answer net (searchRoute encodeURIComponent query page) = Ok body)
         \/ exists message,
              answer net (searchRoute encodeURIComponent query page)
              = Failure 500 "Failed to fetch search results" (Some message)))
  /\ (forall (path : string) (net : string -> fetched),
        Str.startsWith "videos/" path = true ->
        let url := "https://xhamster19.com/" +:+ path in
        requests net (detailsRoute path) = [url]
        /\ match net url with
           | Fetched data =>
               match videoDetails data with
               | Some details =>
                   answer net (detailsRoute path)
                   = Ok (detailsResponse details data)
               | None =>
                   answer net (detailsRoute path)
                   = Failure 404 "Video details not found" None
               end
           | FetchError (Some 404%Z) _ =>
               answer net (detailsRoute path)
               = Failure 404 "Video not found" None
           | FetchError _ message =>
               answer net (detailsRoute path)
               = Failure 500 "Failed to fetch video details" (Some message)
           end).
Proof.
  split.
  - intros enc query page net. unfold searchRoute. cbn [requests answer].
    destruct (net _) as [data|status message]; cbn [requests answer]; eauto.
  - intros path net H url. unfold detailsRoute. rewrite H.
    cbn [negb requests answer]. fold url.
    destruct (net url) as [data|status message].
    + by destruct (videoDetails data).
    + destruct status as [z|]; [|done].
      destruct (bool_decide (Some z = Some 404%Z)) eqn:B.
      * apply bool_decide_eq_true in B. injection B as ->. done.
      * apply bool_decide_eq_false in B.
        destruct z as [|p|p]; try done.
        repeat (destruct p as [p|p|]; try done).
Qed.

Lemma routes_answers_witness :
  requests (fun _ => FetchError (Some 404%Z) "Request failed")
           (detailsRoute "videos/a-1")
  = ["https://xhamster19.com/videos/a-1"].
Proof.
  apply (proj2 routes_answers "videos/a-1"
           (fun _ => FetchError (Some 404%Z) "Request failed")).
  reflexivity.
Defined.

(** ** The matcher *)

Lemma starLoop_S {A : Type}
    (body : string -> Regex.captures -> Regex.cont (A := A) -> option A)
    (greedy : bool) (k : Regex.cont (A := A)) (n : nat) (s : string)
    (cs : Regex.captures) :
  Regex.starLoop body greedy k (S n) s cs =
  let again :=
    body s cs (fun s' cs' =>
      if (Str.len s' <? Str.len s)%nat
      then Regex.starLoop body greedy k n s' cs' else None) in
  if greedy then
    match again with
    | Some a => Some a
    | None => k s cs
    end
  else
    match k s cs with
    | Some a => Some a
    | None => again
    end.
Proof. reflexivity. Qed.

(** The continuation of a successful match runs on what follows a prefix
    of the input. *)
Lemma run_suffix {A : Type} (r : Regex.regex) (s : string)
    (cs : Regex.captures) (k : Regex.cont (A := A)) (a : A) :
  Regex.run r s cs k = Some a ->
  exists pre s' cs', s = pre +:+ s' /\ k s' cs' = Some a.
Proof.
  revert s cs k. induction r as [|p|r1 IH1 r2 IH2|g r IH|i r IH];
    intros s cs k; cbn [Regex.run].
  - intros H. by exists "", s, cs.
  - destruct s as [|c s]; [done|]. destruct (p c); [|done].
    intros H. by exists (String c ""), s, cs.
  - intros (pre1 & s1 & cs1 & -> & H)%IH1.
    apply IH2 in H as (pre2 & s2 & cs2 & -> & H).
    exists (pre1 +:+ pre2), s2, cs2. by rewrite append_assoc.
  - generalize (Str.len s) as n. intros n. revert s cs.
    induction n as [|n IHn]; intros s cs.
    + intros H. by exists "", s, cs.
    + rewrite starLoop_S. cbv zeta.
      assert (Regex.run r s cs (fun s' cs' =>
                if (Str.len s' <? Str.len s)%nat
                then Regex.starLoop (Regex.run r) g k n s' cs' else None)
              = Some a ->
              exists pre s' cs', s = pre +:+ s' /\ k s' cs' = Some a) as Again.
      { intros (pre1 & s1 & cs1 & -> & H)%IH.
        destruct (_ <? _)%nat; [|done].
        apply IHn in H as (pre2 & s2 & cs2 & -> & H).
        exists (pre1 +:+ pre2), s2, cs2. by rewrite append_assoc. }
      destruct g.
      * destruct (Regex.run r s cs _) eqn:E.
        -- intros [= <-]. by apply Again.
        -- intros H. by exists "", s, cs.
      * destruct (k s cs) eqn:E.
        -- intros [= <-]. by exists "", s, cs.
        -- exact Again.
  - intros (pre & s' & cs' & -> & H)%IH. eauto.
Qed.

(** A pattern without groups leaves the captures as they are. *)
Lemma run_groupFree {A : Type} (r : Regex.regex) (s : string)
    (cs : Regex.captures) (k : Regex.cont (A := A)) (a : A) :
  groupFree r = true -> Regex.run r s cs k = Some a ->
  exists pre s', s = pre +:+ s' /\ k s' cs = Some a.
Proof.
  revert s cs k. induction r as [|p|r1 IH1 r2 IH2|g r IH|i r IH];
    intros s cs k G; cbn [Regex.run]; cbn [groupFree] in G.
  - intros H. by exists "", s.
  - destruct s as [|c s]; [done|]. destruct (p c); [|done].
    intros H. by exists (String c ""), s.
  - apply andb_prop in G as [G1 G2].
    intros (pre1 & s1 & -> & H)%(IH1 _ _ _ G1).
    apply (IH2 _ _ _ G2) in H as (pre2 & s2 & -> & H).
    exists (pre1 +:+ pre2), s2. by rewrite append_assoc.
  - generalize (Str.len s) as n. intros n. revert s.
    induction n as [|n IHn]; intros s.
    + intros H. by exists "", s.
    + rewrite starLoop_S. cbv zeta.
      assert (Regex.run r s cs (fun s' cs' =>
                if (Str.len s' <? Str.len s)%nat
                then Regex.starLoop (Regex.run r) g k n s' cs' else None)
              = Some a ->
              exists pre s', s = pre +:+ s' /\ k s' cs = Some a) as Again.
      { intros (pre1 & s1 & -> & H)%(IH _ _ _ G).
        destruct (_ <? _)%nat; [|done].
        apply IHn in H as (pre2 & s2 & -> & H).
        exists (pre1 +:+ pre2), s2. by rewrite append_assoc. }
      destruct g.
      * destruct (Regex.run r s cs _) eqn:E.
        -- intros [= <-]. by apply Again.
        -- intros H. by exists "", s.
      * destruct (k s cs) eqn:E.
        -- intros [= <-]. by exists "", s.
        -- exact Again.
  - done.
Qed.

Lemma run_seq_app_inv {A : Type} (rs1 rs2 : list Regex.regex) (s : string)
    (cs : Regex.captures) (k : Regex.cont (A := A)) (a : A) :
  Regex.run (Regex.seq (rs1 ++ rs2)) s cs k = Some a ->
  exists pre s' cs',
    s = pre +:+ s' /\ Regex.run (Regex.seq rs2) s' cs' k = Some a.
Proof.
  revert s cs. induction rs1 as [|r rs1 IH]; intros s cs.
  - intros H. by exists "", s, cs.
  - cbn [app Regex.seq Regex.run].
    intros (pre1 & s1 & cs1 & -> & H)%run_suffix.
    apply IH in H as (pre2 & s2 & cs2 & -> & H).
    exists (pre1 +:+ pre2), s2, cs2. by rewrite append_assoc.
Qed.

Lemma starLoop_chr_inv {A : Type} (p : ascii -> bool) (g : bool)
    (k : Regex.cont (A := A)) (n : nat) (s : string) (cs : Regex.captures)
    (a : A) :
  Regex.starLoop (Regex.run (Regex.Chr p)) g k n s cs = Some a ->
  exists w s', s = w +:+ s' /\ allChars p w = true /\ k s' cs = Some a.
Proof.
  revert s. induction n as [|n IH]; intros s.
  - intros H. by exists "", s.
  - rewrite starLoop_S. cbv zeta. cbn [Regex.run].
    assert (match s with
            | "" => None
            | String c s' =>
                if p c
                then (if (Str.len s' <? Str.len s)%nat
                      then Regex.starLoop (Regex.run (Regex.Chr p)) g k n s' cs
                      else None)
                else None
            end = Some a ->
            exists w s', s = w +:+ s' /\ allChars p w = true
                         /\ k s' cs = Some a) as Again.
    { destruct s as [|c s]; [done|]. destruct (p c) eqn:Pc; [|done].
      destruct (_ <? _)%nat; [|done].
      intros (w & s' & -> & Hw & H)%IH. exists (String c w), s'.
      cbn [allChars]. by rewrite Pc, Hw. }
    destruct g.
    + match goal with
      | |- match ?X with _ => _ end = _ -> _ => destruct X eqn:E
      end.
      * intros [= <-]. by apply Again.
      * intros H. by exists "", s.
    + destruct (k s cs) eqn:E.
      * intros [= <-]. by exists "", s.
      * exact Again.
Qed.

Lemma run_plus_chr_inv {A : Type} (p : ascii -> bool) (s : string)
    (cs : Regex.captures) (k : Regex.cont (A := A)) (a : A) :
  Regex.run (Regex.plus (Regex.Chr p)) s cs k = Some a ->
  exists w s', s = w +:+ s' /\ w <> "" /\ allChars p w = true
               /\ k s' cs = Some a.
Proof.
  unfold Regex.plus. cbn [Regex.run]. destruct s as [|c s]; [done|].
  destruct (p c) eqn:Pc; [|done].
  intros (w & s' & -> & Hw & H)%starLoop_chr_inv.
  exists (String c w), s'. cbn [allChars]. by rewrite Pc, Hw.
Qed.

Lemma search_inv (r : Regex.regex) (s : string) (m : Regex.found) :
  Regex.search r s = Some m ->
  exists pre t m',
    s = pre +:+ t /\ Regex.matchHere r t = Some m'
    /\ Regex.groups m = Regex.groups m'.
Proof.
  revert m. induction s as [|c s IH]; intros m; cbn [Regex.search].
  - destruct (Regex.matchHere r "") as [m'|] eqn:E; [|done].
    intros [= <-]. by exists "", "", m'.
  - destruct (Regex.matchHere r (String c s)) as [m'|] eqn:E.
    + intros [= <-]. by exists "", (String c s), m'.
    + destruct (Regex.search r s) as [m0|]; [|done].
      cbn [fmap option_fmap option_map]. intros [= <-].
      destruct (IH m0 eq_refl) as (pre & t & m' & -> & H & G).
      by exists (String c pre), t, m'.
Qed.

Lemma includes_append_r (p pre s : string) :
  Str.includes p s = true -> Str.includes p (pre +:+ s) = true.
Proof.
  intros H. induction pre as [|c pre IH]; [done|].
  cbn [String.append Str.includes]. rewrite IH. apply orb_true_r.
Qed.

Lemma startsWith_includes (p s : string) :
  Str.startsWith p s = true -> Str.includes p s = true.
Proof. intros H. destruct s; cbn [Str.includes]; by rewrite H. Qed.

Lemma startsWith_prefix (a b s : string) :
  Str.startsWith (a +:+ b) s = true -> Str.startsWith a s = true.
Proof.
  revert s. induction a as [|x a IH]; intros s; [by destruct s|].
  destruct s as [|y s]; [done|]. cbn [String.append Str.startsWith].
  intros [-> H]%andb_prop. by rewrite (IH _ H).
Qed.

Lemma includes_prefix (a b s : string) :
  Str.includes (a +:+ b) s = true -> Str.includes a s = true.
Proof.
  induction s as [|c s IH]; cbn [Str.includes].
  - rewrite !orb_false_r. apply startsWith_prefix.
  - intros [H | H]%orb_prop.
    + by rewrite (startsWith_prefix _ _ _ H).
    + rewrite (IH H). apply orb_true_r.
Qed.

Lemma allChars_notChr (c : ascii) (w : string) :
  allChars (fun a => negb (Ascii.eqb c a)) w = true -> Str.mem c w = false.
Proof.
  induction w as [|x w IH]; [done|]. cbn [allChars Str.mem].
  intros [Hx Hw]%andb_prop. rewrite (IH Hw), Ascii.eqb_sym.
  by apply negb_true_iff in Hx as ->.
Qed.

(** ** The stream URL *)

Lemma take_prefix (w s : string) :
  Str.take (Str.len (w +:+ s) - Str.len s) (w +:+ s) = w.
Proof.
  rewrite len_append. replace (_ + _ - _)%nat with (Str.len w) by lia.
  apply take_append.
Qed.

Lemma includes_middle (pre p post : string) :
  Str.includes p (pre +:+ p +:+ post) = true.
Proof. apply includes_append_r, startsWith_includes, startsWith_self. Qed.

Lemma matchHere_preload (t : string) (m : Regex.found) :
  Regex.matchHere preloadRe t = Some m ->
  exists w post,
    t = js "<link rel='preload' href='" +:+ w +:+ String dquote post
    /\ w <> "" /\ Str.mem dquote w = false
    /\ Regex.groups m = [(1, w)].
Proof.
  unfold Regex.matchHere, preloadRe. cbn [Regex.seq Regex.run].
  rewrite run_lit. destruct (Str.startsWith _ t) eqn:S; [|done].
  apply startsWith_drop in S. set (L := js "<link rel='preload' href='") in *.
  set (t1 := Str.drop (Str.len L) t) in *.
  intros (w & s' & E1 & Hne & Hw & H)%run_plus_chr_inv.
  rewrite E1, take_prefix in H.
  unfold Regex.chr in H. cbn [Regex.run] in H.
  destruct s' as [|c s'']; [done|].
  destruct (Ascii.eqb dquote c) eqn:Ec; [|done].
  apply Ascii.eqb_eq in Ec as <-.
  apply run_groupFree in H as (pre2 & s2 & _ & H); [|done].
  apply run_groupFree in H as (pre3 & s3 & _ & H).
  2: { unfold Regex.lit, js. vm_compute. reflexivity. }
  injection H as <-. exists w, s''. rewrite S, E1.
  split; [done|]. split; [done|]. split; [by apply allChars_notChr | done].
Qed.

(** X12. A stream URL that [extractVideoStreamUrl] returns is not empty,
    holds no double quote, and stands in the document between the text
    of a preload link up to its href quote and the closing quote; a
    document without that text gives null. *)
Theorem extractVideoStreamUrl_href (p : page) :
  (forall u, extractVideoStreamUrl p = Some u ->
     u <> "" /\ Str.mem dquote u = false
     /\ Str.includes (js "<link rel='preload' href='" +:+ u +:+ String dquote "")
          (html p) = true)
  /\ (Str.includes (js "<link rel='preload' href='") (html p) = false ->
      extractVideoStreamUrl p = None).
Proof.
  assert (forall u, extractVideoStreamUrl p = Some u ->
     u <> "" /\ Str.mem dquote u = false
     /\ Str.includes (js "<link rel='preload' href='" +:+ u +:+ String dquote "")
          (html p) = true) as Main.
  { intros u. unfold extractVideoStreamUrl.
    destruct (Regex.search preloadRe (html p)) as [m|] eqn:E; [|done].
    cbn [mbind option_bind]. intros G.
    apply search_inv in E as (pre & t & m' & -> & M & Gm).
    apply matchHere_preload in M as (w & post & -> & Hne & Hw & Gw).
    unfold Regex.group in G. rewrite Gm, Gw in G.
    cbn in G. injection G as <-. split; [done|]. split; [done|].
    apply includes_append_r.
    change (String dquote post) with (String dquote "" +:+ post).
    rewrite <- !append_assoc. apply startsWith_includes.
    rewrite append_assoc. apply startsWith_self. }
  split; [exact Main|]. intros N.
  destruct (extractVideoStreamUrl p) as [u|] eqn:E; [|done].
  destruct (Main u eq_refl) as (_ & _ & I).
  apply includes_prefix in I. congruence.
Qed.

Lemma extractVideoStreamUrl_href_witness :
  "https://v.example/a.m3u8" <> ""
  /\ Str.mem dquote "https://v.example/a.m3u8" = false
  /\ Str.includes (js "<link rel='preload' href='"
                   +:+ "https://v.example/a.m3u8" +:+ String dquote "")
       (html preloadPage) = true.
Proof.
  apply (proj1 (extractVideoStreamUrl_href preloadPage)).
  vm_compute. reflexivity.
Defined.

(** ** Scripts without video data *)

Lemma thumbProps_marker {A : Type} (s : string) (cs : Regex.captures)
    (k : Regex.cont (A := A)) (a : A) :
  Regex.run (Regex.seq thumbPropsRe) s cs k = Some a ->
  Str.includes (js "'videoThumbProps'") s = true.
Proof.
  unfold thumbPropsRe, keyRe. cbn [app Regex.seq Regex.run].
  rewrite run_lit. destruct (Str.startsWith _ s) eqn:S; [|done]. intros _.
  apply startsWith_includes.
  apply (startsWith_prefix (js "'videoThumbProps'") ":"). exact S.
Qed.

Lemma scriptFinds_marker (marker : string) (rs : list Regex.regex)
    (content : string) :
  Str.includes (js "'videoThumbProps'") content = false ->
  scriptFinds marker (Regex.seq (rs ++ thumbPropsRe)) content = [].
Proof.
  intros N. unfold scriptFinds. destruct (_ && _); [|done].
  destruct (Regex.search _ content) as [m|] eqn:E; [|done].
  apply search_inv in E as (pre & t & m' & -> & M & _).
  unfold Regex.matchHere in M.
  apply run_seq_app_inv in M as (pre2 & s' & cs' & -> & M).
  apply thumbProps_marker in M.
  by rewrite (includes_append_r _ pre _ (includes_append_r _ pre2 _ M)) in N.
Qed.

Lemma flat_map_nil {A B : Type} (f : A -> list B) (l : list A) :
  Forall (fun x => f x = []) l -> List.flat_map f l = [].
Proof. induction 1 as [|x l Hx _ IH]; [done|]. simpl. by rewrite Hx, IH. Qed.

Lemma methods_without_marker (p : page) :
  Forall (fun content => Str.includes (js "'videoThumbProps'") content = false)
         (scripts p) ->
  method1 p = [] /\ method2 p = [] /\ method3 p = [].
Proof.
  intros H. split; [|split].
  - apply flat_map_nil. eapply Forall_impl; [exact H|]. intros c Hc.
    unfold relatedComponentRe.
    rewrite 2!app_assoc. by apply scriptFinds_marker.
  - apply flat_map_nil. eapply Forall_impl; [exact H|]. intros c Hc.
    unfold videoTabRe. rewrite app_assoc. by apply scriptFinds_marker.
  - apply flat_map_nil. eapply Forall_impl; [exact H|]. intros c Hc.
    apply (scriptFinds_marker "videoThumbProps" [] c Hc).
Qed.

Lemma relatedCandidates_dom (p : page) :
  method1 p = [] -> method2 p = [] -> method3 p = [] ->
  relatedCandidates p = firstNonEmpty [relatedCards p; patternFinds p].
Proof.
  intros E1 E2 E3.
  unfold relatedCandidates. rewrite E1, E2, E3. cbn [List.length Nat.eqb app].
  cbn [firstNonEmpty]. destruct (relatedCards p); [|done].
  cbn [List.length Nat.eqb app]. by destruct (patternFinds p).
Qed.

(** X13. When no script element contains the quoted key videoThumbProps,
    none of the three script methods finds anything, whatever other
    markers the scripts contain, and the candidates of
    [extractRelatedVideos] are the DOM cards or, without cards, the
    finds of the pattern scan. *)
Theorem relatedCandidates_without_marker (p : page) :
  Forall (fun content => Str.includes (js "'videoThumbProps'") content = false)
         (scripts p) ->
  method1 p = [] /\ method2 p = [] /\ method3 p = []
  /\ relatedCandidates p = firstNonEmpty [relatedCards p; patternFinds p].
Proof.
  intros (E1 & E2 & E3)%methods_without_marker.
  repeat split; try done. by apply relatedCandidates_dom.
Qed.

Lemma relatedCandidates_without_marker_witness :
  method1 plainScript = [] /\ method2 plainScript = []
  /\ method3 plainScript = []
  /\ relatedCandidates plainScript
     = firstNonEmpty [relatedCards plainScript; patternFinds plainScript].
Proof.
  apply (relatedCandidates_without_marker plainScript).
  repeat constructor.
Defined.

(** ** The string hash *)

Lemma abs_bound (x : Z) :
  (- 2147483648 <= x < 2147483648)%Z -> (0 <= Z.abs x <= 2147483648)%Z.
Proof.
  intros H. split; [apply Z.abs_nonneg|]. apply Z.abs_le. lia.
Qed.

Lemma toInt32_range (z : Z) : (- 2 ^ 31 <= toInt32 z < 2 ^ 31)%Z.
Proof.
  unfold toInt32. change (2 ^ 31)%Z with 2147483648%Z.
  change (2 ^ 32)%Z with 4294967296%Z.
  pose proof (Z.mod_pos_bound (z + 2147483648) 4294967296). lia.
Qed.

Lemma hashStep_poly (a : Z) (b : ascii) :
  hashStep (toInt32 a) b = toInt32 (31 * a + charCode b).
Proof.
  unfold hashStep. cbv zeta. rewrite Z.land_diag.
  rewrite Z.shiftl_mul_pow2 by lia. generalize (charCode b). intros c.
  unfold toInt32. change (2 ^ 31)%Z with 2147483648%Z.
  change (2 ^ 32)%Z with 4294967296%Z. change (2 ^ 5)%Z with 32%Z.
  Z.div_mod_to_equations. lia.
Qed.

Lemma hashFrom_poly (a : Z) (s : string) :
  hashFrom (toInt32 a) s = toInt32 (poly31From a s).
Proof.
  revert a. induction s as [|b s IH]; intros a; [done|].
  cbn [hashFrom poly31From]. by rewrite hashStep_poly, IH.
Qed.

(** X14. The shift-and-subtract hash is the polynomial hash with
    multiplier 31 reduced to a signed 32-bit integer, so it lies between
    -2^31 and 2^31 - 1 and its absolute value between 0 and 2^31. *)
Theorem stringHash_polynomial (s : string) :
  stringHash s = toInt32 (poly31From 0 s)
  /\ (- 2 ^ 31 <= stringHash s < 2 ^ 31)%Z
  /\ (0 <= Z.abs (stringHash s) <= 2 ^ 31)%Z.
Proof.
  assert (stringHash s = toInt32 (poly31From 0 s)) as E
    by (unfold stringHash; exact (hashFrom_poly 0 s)).
  split; [exact E|]. pose proof (toInt32_range (poly31From 0 s)) as R.
  rewrite <- E in R. split; [exact R|].
  change (2 ^ 31)%Z with 2147483648%Z in *. by apply abs_bound.
Qed.

Lemma stringHash_abs_range (s : string) :
  (0 <= Z.abs (stringHash s) <= 2 ^ 31)%Z.
Proof.
  assert (stringHash s = toInt32 (poly31From 0 s)) as ->
    by (unfold stringHash; exact (hashFrom_poly 0 s)).
  pose proof (toInt32_range (poly31From 0 s)).
  change (2 ^ 31)%Z with 2147483648%Z in *. by apply abs_bound.
Qed.

(** X15. A synthesized id is never negative: the id of a search card
    lies between 0 and 2^31 + 999999 (for a clock that is not negative),
    the id of a related card or of the detail fallback between 0 and
    2^31; and no id is synthesized for a URL without a run of seven
    letters and digits (for a search card: and without a slash followed
    by a digit). *)
Theorem synthesized_id_range (pageURL : string) (now : Z) :
  (0 <= now)%Z ->
  (forall n, searchFallbackId pageURL now = Some n ->
     (0 <= n <= 2 ^ 31 + 999999)%Z)
  /\ (forall n, runHashId pageURL = Some n -> (0 <= n <= 2 ^ 31)%Z)
  /\ (Regex.search alnum7Re pageURL = None ->
      runHashId pageURL = None
      /\ (Regex.search slashDigitsRe pageURL = None ->
          searchFallbackId pageURL now = None)).
Proof.
  intros Hnow. split; [|split].
  - intros n. unfold searchFallbackId.
    destruct (match Regex.search slashDigitsRe pageURL with
              | Some m => Some m
              | None => Regex.search alnum7Re pageURL
              end); [|done].
    intros [= <-]. pose proof (stringHash_abs_range (lastSegment pageURL)).
    pose proof (Z.rem_bound_pos now 1000000 Hnow ltac:(lia)).
    change (2 ^ 31)%Z with 2147483648%Z in *.
    generalize dependent (Z.abs (stringHash (lastSegment pageURL))).
    intros h Hh. lia.
  - intros n. unfold runHashId.
    destruct (Regex.search alnum7Re pageURL); [|done].
    intros [= <-]. apply stringHash_abs_range.
  - intros E. unfold runHashId, searchFallbackId. rewrite E.
    split; [done|]. by intros ->.
Qed.

Lemma synthesized_id_range_witness :
  (0 <= 1069376125 <= 2 ^ 31)%Z.
Proof.
  apply (proj1 (proj2 (synthesized_id_range
           "videos/fun-for-birthday-party-excuses-xhKaU3h" 0 ltac:(lia)))).
  vm_compute. reflexivity.
Defined.

(** ** The groups of a match *)

(** A match only fills groups of its pattern. *)
Lemma run_captures {A : Type} (r : Regex.regex) (s : string)
    (cs : Regex.captures) (k : Regex.cont (A := A)) (a : A) :
  Regex.run r s cs k = Some a ->
  exists s' cs',
    k s' cs' = Some a
    /\ forall i, i ∈ (fst <$> cs') -> i ∈ (fst <$> cs) \/ i ∈ groupsOf r.
Proof.
  revert s cs k. induction r as [|p|r1 IH1 r2 IH2|g r IH|j r IH];
    intros s cs k; cbn [Regex.run groupsOf].
  - intros H. exists s, cs. split; [done|]. by left.
  - destruct s as [|c s]; [done|]. destruct (p c); [|done].
    intros H. exists s, cs. split; [done|]. by left.
  - intros (s1 & cs1 & H & G1)%IH1.
    apply IH2 in H as (s2 & cs2 & H & G2).
    exists s2, cs2. split; [done|]. intros i Hi.
    destruct (G2 i Hi) as [Hi1 | Hi2].
    + destruct (G1 i Hi1) as [? | ?]; [by left | right].
      apply elem_of_app. by left.
    + right. apply elem_of_app. by right.
  - generalize (Str.len s) as n. intros n. revert s cs.
    induction n as [|n IHn]; intros s cs.
    + intros H. exists s, cs. split; [done|]. by left.
    + rewrite starLoop_S. cbv zeta.
      assert (Regex.run r s cs (fun s' cs' =>
                if (Str.len s' <? Str.len s)%nat
                then Regex.starLoop (Regex.run r) g k n s' cs' else None)
              = Some a ->
              exists s' cs',
                k s' cs' = Some a
                /\ forall i, i ∈ (fst <$> cs') ->
                     i ∈ (fst <$> cs) \/ i ∈ groupsOf r) as Again.
      { intros (s1 & cs1 & H & G1)%IH.
        destruct (_ <? _)%nat; [|done].
        apply IHn in H as (s2 & cs2 & H & G2).
        exists s2, cs2. split; [done|]. intros i Hi.
        destruct (G2 i Hi) as [Hi1 | Hi2]; [by apply G1 | by right]. }
      destruct g.
      * destruct (Regex.run r s cs _) eqn:E.
        -- intros [= <-]. by apply Again.
        -- intros H. exists s, cs. split; [done|]. by left.
      * destruct (k s cs) eqn:E.
        -- intros [= <-]. exists s, cs. split; [done|]. by left.
        -- exact Again.
  - intros (s1 & cs1 & H & G1)%IH.
    eexists _, _. split; [exact H|]. intros i Hi.
    rewrite fmap_cons in Hi. cbn [fst] in Hi.
    apply elem_of_cons in Hi as [-> | Hi]; [right; by left|].
    destruct (G1 i Hi) as [? | ?]; [by left | right; by right].
Qed.

Lemma group_absent (i : nat) (m : Regex.found) :
  i ∉ (fst <$> Regex.groups m) -> Regex.group i m = None.
Proof.
  unfold Regex.group. induction (Regex.groups m) as [|[j w] cs IH];
    [done|].
  rewrite fmap_cons. cbn [fst]. intros H. apply not_elem_of_cons in H as [N H].
  cbn [List.find fst]. destruct (Nat.eqb_spec j i) as [-> | _]; [done|].
  by apply IH.
Qed.

Lemma search_groups (r : Regex.regex) (s : string) (m : Regex.found)
    (i : nat) :
  Regex.search r s = Some m -> i ∉ groupsOf r -> Regex.group i m = None.
Proof.
  intros (pre & t & m' & -> & H & G)%search_inv N.
  apply group_absent. rewrite G. unfold Regex.matchHere in H.
  apply run_captures in H as (s' & cs' & [= <-] & C). cbn [Regex.groups].
  intros Hi. destruct (C i Hi) as [E | E]; [|done].
  by apply elem_of_nil in E.
Qed.

Lemma matchAll_go_search (fuel : nat) (r : Regex.regex) (s : string)
    (m : Regex.found) :
  m ∈ Regex.matchAll_go fuel r s -> exists t, Regex.search r t = Some m.
Proof.
  revert s. induction fuel as [|fuel IH]; intros s; cbn [Regex.matchAll_go].
  - by intros ?%elem_of_nil.
  - destruct (Regex.search r s) as [m0|] eqn:E; [|by intros ?%elem_of_nil].
    intros [-> | H]%elem_of_cons; [by exists s|].
    destruct (Regex.whole m0), (Regex.rest m0);
      first [by apply elem_of_nil in H | by apply IH in H].
Qed.

Lemma matchAll_groups (r : Regex.regex) (s : string) (m : Regex.found)
    (i : nat) :
  m ∈ Regex.matchAll r s -> i ∉ groupsOf r -> Regex.group i m = None.
Proof.
  intros [t H]%matchAll_go_search. by apply search_groups with (s := t).
Qed.

(** ** The pattern scan *)

Lemma cleanAll_app (a b : list jsval) :
  cleanAll b = Returned [] -> cleanAll (a ++ b) = cleanAll a.
Proof.
  intros H. induction a as [|v a IH]; [done|].
  cbn [app cleanAll]. rewrite IH. done.
Qed.

Lemma cleanAll_all_rejected (videos : list jsval) :
  Forall (fun v => cleanVideoData v = Returned None) videos ->
  cleanAll videos = Returned [].
Proof.
  induction 1 as [|v videos Hv _ IH]; [done|].
  cbn [cleanAll]. rewrite Hv, IH. done.
Qed.

(** A candidate with strings in its trimmed fields and a falsy duration
    is rejected, without an exception. *)
Lemma cleanVideoData_no_duration (x : jsval) :
  stringFields x = true -> truthy (field "duration" x) = false ->
  cleanVideoData x = Returned None.
Proof.
  intros S D. destruct (cleanVideoData x) as [[c|]|e] eqn:E; [|done|].
  - apply cleanVideoData_fields in E
      as (full & t & th & _ & _ & _ & _ & _ & _ & Hd & _ & _ & _ & V).
    unfold parseIntOrUndefined in Hd. rewrite D in Hd.
    unfold hasValidDuration in V. rewrite Hd in V. cbn [definedPositive] in V.
    by rewrite !andb_false_r in V.
  - apply cleanVideoData_throws_inv in E. congruence.
Qed.

Lemma videoOfPattern_fields (m : Regex.found) (v : jsval) :
  v ∈ videoOfPattern m ->
  stringFields v = true /\ field "views" v = VUndef
  /\ (truthy (matchGroup 1 m) = true ->
      field "duration" v = VNum (parseInt (matchGroup 5 m))).
Proof.
  unfold videoOfPattern. cbv zeta. unfold matchGroup.
  destruct (Regex.group 1 m) as [g1|], (Regex.group 2 m) as [g2|],
    (Regex.group 3 m) as [g3|], (Regex.group 4 m) as [g4|];
    cbn [optStr truthy];
    try destruct (truthyStr g1);
    match goal with
    | |- _ ∈ (if ?b then _ else _) -> _ => destruct b
    end;
    try (by intros ?%elem_of_nil);
    intros ->%list_elem_of_singleton;
    (split; [reflexivity | split; [reflexivity|]]);
    intros T; first [discriminate T | reflexivity].
Qed.

Lemma patternMatches_rejected (html : string) (pattern : Regex.regex) :
  5%nat ∉ groupsOf pattern ->
  Forall (fun v => cleanVideoData v = Returned None)
         (patternMatches html pattern).
Proof.
  intros N. apply Forall_forall. intros v Hv.
  apply list_elem_of_In, in_flat_map in Hv as (m & Hm & Hv).
  apply list_elem_of_In in Hm, Hv.
  pose proof (matchAll_groups _ _ _ _ Hm N) as G5.
  destruct (videoOfPattern_fields m v Hv) as (S & _ & D).
  apply cleanVideoData_no_duration; [done|].
  destruct (truthy (matchGroup 1 m)) eqn:T.
  - rewrite (D eq_refl). unfold matchGroup. rewrite G5. by vm_compute.
  - revert Hv. unfold videoOfPattern. cbv zeta. rewrite T.
    change (field "title" (VObj ?l)) with (matchGroup 1 m).
    rewrite T. cbn [andb]. by intros ?%elem_of_nil.
Qed.

Lemma cleanAll_origin (videos : list jsval) (cs : list video) (c : video) :
  cleanAll videos = Returned cs -> c ∈ cs ->
  exists v, v ∈ videos /\ cleanVideoData v = Returned (Some c).
Proof.
  revert cs. induction videos as [|w videos IH]; intros cs; cbn [cleanAll].
  - intros [= <-] ?%elem_of_nil. done.
  - destruct (cleanVideoData w) as [r|] eqn:Ew; [|done].
    cbn [mbind outcome_bind].
    destruct (cleanAll videos) as [cs'|]; [|done]. cbn [mbind outcome_bind].
    intros [= <-] Hc.
    assert (c ∈ cs' -> exists v, v ∈ w :: videos
                         /\ cleanVideoData v = Returned (Some c)) as Tail.
    { intros H. destruct (IH cs' eq_refl H) as (v & Hv & E).
      exists v. split; [by right | done]. }
    destruct r as [c0|]; [|by apply Tail].
    apply elem_of_cons in Hc as [-> | Hc]; [|by apply Tail].
    exists w. split; [by left | done].
Qed.

(** X16. The second pattern of the scan has four groups and its object
    reads a fifth for the duration, so nothing it pushes survives
    [cleanVideoData]: the records of the scan are those of the first
    pattern. *)
Theorem patternScan_second_pattern (html : string) :
  exists withId withoutId,
    jsonPatterns = [withId; withoutId]
    /\ cleanAll (patternMatches html withoutId) = Returned []
    /\ cleanAll (patternScan html) = cleanAll (patternMatches html withId).
Proof.
  eexists _, _. split; [reflexivity|].
  match goal with |- cleanAll (patternMatches _ ?r) = _ /\ _ =>
    assert (cleanAll (patternMatches html r) = Returned []) as E
  end.
  { apply cleanAll_all_rejected, patternMatches_rejected.
    vm_compute. intros H. repeat (apply elem_of_cons in H as [H | H];
      [discriminate H|]). by apply elem_of_nil in H. }
  split; [exact E|].
  unfold patternScan, jsonPatterns. cbn [List.flat_map].
  rewrite app_nil_r. by apply cleanAll_app.
Qed.

Lemma patternScan_fields (html : string) (v : jsval) :
  v ∈ patternScan html -> stringFields v = true /\ field "views" v = VUndef.
Proof.
  intros Hv. unfold patternScan in Hv.
  apply list_elem_of_In, in_flat_map in Hv as (r & _ & Hv).
  apply in_flat_map in Hv as (m & _ & Hv). apply list_elem_of_In in Hv.
  by destruct (videoOfPattern_fields m v Hv) as (S & V & _).
Qed.

Lemma cleanAll_no_views (videos : list jsval) :
  (forall v, v ∈ videos -> stringFields v = true /\ field "views" v = VUndef) ->
  exists cs,
    cleanAll videos = Returned cs /\ Forall (fun c => views c = Int 0) cs.
Proof.
  intros F. destruct (cleanAll_well_typed videos) as [cs Hcs].
  { apply Forall_forall. intros v Hv. by apply F. }
  exists cs. split; [done|]. apply Forall_forall. intros c Hc.
  destruct (cleanAll_origin _ _ _ Hcs Hc) as (v & Hv & E).
  apply cleanVideoData_fields in E
    as (full & t & th & _ & _ & _ & _ & _ & _ & _ & _ & _ & Hviews & _).
  destruct (F v Hv) as [_ V]. by rewrite V in Hviews.
Qed.

(** X17. The scan never makes [cleanVideoData] throw, and every record
    it yields has a view count of 0, whatever the document says. *)
Theorem patternScan_records (html : string) :
  exists cs,
    cleanAll (patternScan html) = Returned cs
    /\ Forall (fun c => views c = Int 0) cs.
Proof. apply cleanAll_no_views. intros v. apply patternScan_fields. Qed.

(** ** Pagination *)

Lemma maxPageStep_spec (maxPage : Z) (a : option string) :
  (maxPage <= maxPageStep maxPage a)%Z
  /\ (forall z, parseInt (optStr a) = Int z ->
        (z <= maxPageStep maxPage a \/ z = 0)%Z)
  /\ (maxPageStep maxPage a = maxPage
      \/ parseInt (optStr a) = Int (maxPageStep maxPage a)).
Proof.
  unfold maxPageStep. destruct (parseInt (optStr a)) as [|n].
  - split; [lia|]. split; [done | by left].
  - destruct (Z.eqb_spec n 0) as [-> | N]; cbn [negb andb].
    + split; [lia|]. split; [|by left]. intros z [= <-]. by right.
    + destruct (Z.ltb_spec maxPage n).
      * split; [lia|]. split; [|by right]. intros z [= <-]. left. lia.
      * split; [lia|]. split; [|by left]. intros z [= <-]. left. lia.
Qed.

Lemma foldl_maxPageStep (buttons : list (option string)) (maxPage : Z) :
  (1 <= maxPage)%Z ->
  (maxPage <= foldl maxPageStep maxPage buttons)%Z
  /\ (forall a z, a ∈ buttons -> parseInt (optStr a) = Int z ->
        (z <= foldl maxPageStep maxPage buttons)%Z)
  /\ (foldl maxPageStep maxPage buttons = maxPage
      \/ exists a, a ∈ buttons
           /\ parseInt (optStr a) = Int (foldl maxPageStep maxPage buttons)).
Proof.
  revert maxPage. induction buttons as [|b buttons IH]; intros maxPage M.
  - cbn [foldl]. split; [lia|]. split; [|by left].
    by intros a z ?%elem_of_nil.
  - cbn [foldl]. destruct (maxPageStep_spec maxPage b) as (S1 & S2 & S3).
    destruct (IH (maxPageStep maxPage b) ltac:(lia)) as (I1 & I2 & I3).
    split; [lia|]. split.
    + intros a z [-> | Ha]%elem_of_cons E; [|by apply (I2 a)].
      destruct (S2 z E); lia.
    + destruct I3 as [-> | (a & Ha & E)].
      * destruct S3 as [-> | E]; [by left | right].
        exists b. split; [by left | done].
      * right. exists a. split; [by right | done].
Qed.

Lemma pageOrOne_spec (a : option string) :
  pageOrOne a <> 0%Z
  /\ (pageOrOne a = 1%Z \/ parseInt (optStr a) = Int (pageOrOne a)).
Proof.
  unfold pageOrOne. destruct (parseInt (optStr a)) as [|z]; [by split; [|left]|].
  destruct (Z.eqb_spec z 0); [by split; [|left]|]. split; [done | by right].
Qed.

(** X18. The pagination read from the buttons: the total is at least 1
    and at least every page number a button carries, and it is 1 or the
    number of a button; the current page is never 0; the two flags only
    say whether a next and a previous link were found. *)
Theorem extractPaginationInfo_bounds (active buttons : list (option string))
    (next prev : nat) :
  let info := extractPaginationInfo active buttons next prev in
  (1 <= totalPages info)%Z
  /\ (forall a z, a ∈ buttons -> parseInt (optStr a) = Int z ->
        (z <= totalPages info)%Z)
  /\ (totalPages info = 1%Z
      \/ exists a, a ∈ buttons /\ parseInt (optStr a) = Int (totalPages info))
  /\ currentPage info <> 0%Z
  /\ (hasNext info = true <-> next <> 0%nat)
  /\ (hasPrevious info = true <-> prev <> 0%nat).
Proof.
  cbv zeta. cbn [extractPaginationInfo totalPages currentPage hasNext
                 hasPrevious].
  destruct (foldl_maxPageStep buttons 1 ltac:(lia)) as (F1 & F2 & F3).
  split; [done|]. split; [done|]. split; [done|]. split.
  - destruct active as [|a ?]; [done|]. apply pageOrOne_spec.
  - split.
    + destruct (Nat.ltb_spec 0 next); split; (done || lia).
    + destruct (Nat.ltb_spec 0 prev); split; (done || lia).
Qed.

(** X19. When the active button is one of the buttons, the current page
    does not exceed the total. *)
Theorem currentPage_within_total (active buttons : list (option string))
    (next prev : nat) :
  (forall a, head active = Some a -> a ∈ buttons) ->
  let info := extractPaginationInfo active buttons next prev in
  (currentPage info <= totalPages info)%Z.
Proof.
  intros H. cbv zeta. cbn [extractPaginationInfo totalPages currentPage].
  destruct (foldl_maxPageStep buttons 1 ltac:(lia)) as (F1 & F2 & _).
  destruct active as [|a ?]; [done|].
  destruct (pageOrOne_spec a) as [_ [-> | E]]; [done|].
  apply (F2 a); [by apply H | done].
Qed.

Lemma currentPage_within_total_witness :
  (currentPage (extractPaginationInfo [Some "3"]
                  [Some "1"; Some "2"; Some "3"; None; Some "12"] 1 0)
   <= totalPages (extractPaginationInfo [Some "3"]
                    [Some "1"; Some "2"; Some "3"; None; Some "12"] 1 0))%Z.
Proof.
  apply (currentPage_within_total [Some "3"]
           [Some "1"; Some "2"; Some "3"; None; Some "12"] 1 0).
  intros a [= <-]. apply list_elem_of_In. simpl. tauto.
Defined.

(** ** Metadata *)

Lemma formatThumbnailUrl_idem (u : string) :
  formatThumbnailUrl (formatThumbnailUrl u) = formatThumbnailUrl u.
Proof.
  rewrite !formatThumbnailUrl_cases.
  destruct (Str.includes "xhpingcdn.com" u) eqn:E; [|by rewrite E].
  rewrite escapeForCdn_idem.
  by destruct (Str.includes "xhpingcdn.com" (escapeForCdn u)).
Qed.

Lemma whenSet_extractVideoPath (s : string) :
  whenSet extractVideoPath s = extractVideoPath s.
Proof. by destruct s. Qed.

Lemma whenSet_formatThumbnailUrl (s : string) :
  whenSet formatThumbnailUrl s = formatThumbnailUrl s.
Proof. by destruct s. Qed.

Lemma extractVideoPath_empty_or_short (s : string) :
  extractVideoPath s = "" \/ shortPath (extractVideoPath s).
Proof.
  destruct (decide (extractVideoPath s = "")) as [E | N]; [by left|].
  right. by apply extractVideoPath_shape.
Qed.

(** X20. The three addresses of the metadata are empty or short paths
    (an address without a video segment is blanked), the image is
    already escaped, and the four guards before the conversions change
    nothing: the converters map the empty string to itself. *)
Theorem extractMetadata_paths (tags : Meta.tags) :
  let m := extractMetadata tags in
  Forall (fun s => s = "" \/ shortPath s)
         [Meta.url m; Meta.canonical m; Meta.ampUrl m]
  /\ formatThumbnailUrl (Meta.image m) = Meta.image m
  /\ Meta.url m = extractVideoPath (orEmpty (Meta.ogUrl tags))
  /\ Meta.canonical m = extractVideoPath (orEmpty (Meta.canonicalHref tags))
  /\ Meta.ampUrl m = extractVideoPath (orEmpty (Meta.ampHref tags))
  /\ Meta.image m = formatThumbnailUrl (orEmpty (Meta.ogImage tags)).
Proof.
  cbv zeta. unfold extractMetadata.
  cbn [Meta.url Meta.canonical Meta.ampUrl Meta.image].
  rewrite !whenSet_extractVideoPath, whenSet_formatThumbnailUrl.
  split; [|by rewrite formatThumbnailUrl_idem].
  repeat (apply Forall_cons_2; [apply extractVideoPath_empty_or_short|]).
  apply Forall_nil_2.
Qed.

(** ** Trimmed strings *)

Lemma trim_fixed_parts (s : string) :
  Str.trim s = s -> Str.trimStart s = s /\ Str.trimEnd s = s.
Proof.
  unfold Str.trim. intros H.
  assert (Str.trimStart s = s) as E; [|by rewrite E in H].
  destruct s as [|c s]; [done|].
  destruct (Str.trimStart (String c s)) as [|a t] eqn:T; [done|].
  pose proof (trimStart_head _ _ _ T) as Ha.
  destruct (trimEnd_head a t Ha) as [t' Ht]. rewrite Ht in H.
  injection H as H1 _. subst a. cbn [Str.trimStart] in T. by rewrite Ha in T.
Qed.

Lemma trimEnd_cons (a : ascii) (u : string) :
  Str.trimEnd u = u -> u <> "" -> Str.trimEnd (String a u) = String a u.
Proof. intros E N. cbn [Str.trimEnd]. rewrite E. by destruct u. Qed.

Lemma trimEnd_single (a : ascii) :
  Str.isSpace a = false -> Str.trimEnd (String a "") = String a "".
Proof. intros H. cbn [Str.trimEnd]. by rewrite H. Qed.

Lemma trimEnd_fixed_inv (c : ascii) (t : string) :
  Str.trimEnd (String c t) = String c t ->
  (t = "" /\ Str.isSpace c = false) \/ (t <> "" /\ Str.trimEnd t = t).
Proof.
  cbn [Str.trimEnd]. destruct (Str.trimEnd t) as [|b u] eqn:E.
  - destruct (Str.isSpace c); [done|]. intros [= <-]. by left.
  - intros [= <-]. by right.
Qed.

Lemma escapeForCdn_nonempty (s : string) : s <> "" -> escapeForCdn s <> "".
Proof.
  destruct s as [|c s]; [done|]. intros _. cbn [escapeForCdn].
  unfold escapeChar.
  by destruct (Ascii.eqb c "("), (Ascii.eqb c ")"), (Ascii.eqb c ",").
Qed.

Lemma trimEnd_escapeChar (c : ascii) (u : string) :
  (u = "" /\ Str.isSpace c = false) \/ (u <> "" /\ Str.trimEnd u = u) ->
  Str.trimEnd (escapeChar c +:+ u) = escapeChar c +:+ u.
Proof.
  intros H. unfold escapeChar.
  assert (forall a b d : ascii,
            Str.isSpace d = false ->
            Str.trimEnd (String a (String b (String d u)))
            = String a (String b (String d u))) as Three.
  { intros a b d Hd.
    assert (Str.trimEnd (String d u) = String d u) as E.
    { destruct H as [[-> _] | [N E]];
        [by apply trimEnd_single | by apply trimEnd_cons]. }
    apply trimEnd_cons; [apply trimEnd_cons; [exact E | done] | done]. }
  destruct (Ascii.eqb c "("); [by apply Three|].
  destruct (Ascii.eqb c ")"); [by apply Three|].
  destruct (Ascii.eqb c ","); [by apply Three|].
  cbn [String.append].
  destruct H as [[-> Hc] | [N E]];
    [by apply trimEnd_single | by apply trimEnd_cons].
Qed.

Lemma trimEnd_escapeForCdn (s : string) :
  Str.trimEnd s = s -> Str.trimEnd (escapeForCdn s) = escapeForCdn s.
Proof.
  induction s as [|c s IH]; [done|].
  intros [[-> Hc] | [N E]]%trimEnd_fixed_inv; cbn [escapeForCdn].
  - apply trimEnd_escapeChar. by left.
  - apply trimEnd_escapeChar. right.
    split; [by apply escapeForCdn_nonempty | by apply IH].
Qed.

Lemma isSpace_escapeChar (c : ascii) :
  Str.isSpace c = false ->
  exists a t, escapeChar c = String a t /\ Str.isSpace a = false.
Proof.
  intros H. unfold escapeChar.
  destruct (Ascii.eqb c "("); [by exists "%"%char, "28"|].
  destruct (Ascii.eqb c ")"); [by exists "%"%char, "29"|].
  destruct (Ascii.eqb c ","); [by exists "%"%char, "2C"|].
  by exists c, "".
Qed.

Lemma trimStart_escapeForCdn (s : string) :
  Str.trimStart s = s -> Str.trimStart (escapeForCdn s) = escapeForCdn s.
Proof.
  destruct s as [|c s]; [done|]. intros H.
  apply trimStart_head in H as Hc.
  destruct (isSpace_escapeChar c Hc) as (a & t & E & Ha).
  cbn [escapeForCdn]. rewrite E. cbn [String.append Str.trimStart].
  by rewrite Ha.
Qed.

Lemma trim_escapeForCdn (s : string) :
  Str.trim s = s -> Str.trim (escapeForCdn s) = escapeForCdn s.
Proof.
  intros [S E]%trim_fixed_parts. unfold Str.trim.
  rewrite trimStart_escapeForCdn by done. by apply trimEnd_escapeForCdn.
Qed.

Lemma trim_formatThumbnailUrl (s : string) :
  Str.trim s = s -> Str.trim (formatThumbnailUrl s) = formatThumbnailUrl s.
Proof.
  intros H. rewrite formatThumbnailUrl_cases.
  destruct (Str.includes "xhpingcdn.com" s); [|done].
  by apply trim_escapeForCdn.
Qed.

Lemma cardTitle_trimmed (t : option string * string) :
  Str.trim (cardTitle t) = cardTitle t.
Proof.
  unfold cardTitle, optTrim. destruct (fst t) as [a|]; cbn [fmap option_fmap option_map];
    [destruct (truthyStr (Str.trim a))|]; apply trim_idem.
Qed.

(** ** The objects built from the selected elements *)

Lemma entries_fields (t p th d v i : option jsval) :
  let x := VObj ((entry "title" t ++ entry "pageURL" p ++ entry "thumbURL" th
                  ++ entry "duration" d ++ entry "views" v)
                 ++ entry "id" i) in
  field "title" x = default VUndef t
  /\ field "pageURL" x = default VUndef p
  /\ field "thumbURL" x = default VUndef th
  /\ field "duration" x = default VUndef d
  /\ field "views" x = default VUndef v
  /\ field "id" x = default VUndef i
  /\ field "previewThumbURL" x = VUndef
  /\ field "imageURL" x = VUndef
  /\ field "spriteURL" x = VUndef
  /\ field "trailerURL" x = VUndef
  /\ field "trailerFallbackUrl" x = VUndef.
Proof. by destruct t, p, th, d, v, i. Qed.

Lemma entries_stringFields (t p th d v i : option jsval) :
  stringOrFalsy (default VUndef t) = true ->
  stringOrFalsy (default VUndef p) = true ->
  stringOrFalsy (default VUndef th) = true ->
  stringFields
    (VObj ((entry "title" t ++ entry "pageURL" p ++ entry "thumbURL" th
            ++ entry "duration" d ++ entry "views" v)
           ++ entry "id" i)) = true.
Proof.
  intros Ht Hp Hth.
  destruct (entries_fields t p th d v i)
    as (E1 & E2 & E3 & _ & _ & _ & E4 & E5 & E6 & E7 & E8).
  unfold stringFields, trimmedFields. cbn [forallb].
  by rewrite E1, E2, E3, E4, E5, E6, E7, E8, Ht, Hp, Hth.
Qed.

Lemma searchTitle_inv (c : card) (v : jsval) :
  searchTitle c = Some v ->
  exists t, titleElem c = Some t /\ v = VStr (cardTitle t).
Proof.
  unfold searchTitle. destruct (titleElem c) as [t|]; [|done].
  cbn [mbind option_bind]. destruct (truthyStr (cardTitle t)); [|done].
  intros [= <-]. by exists t.
Qed.

Lemma searchPageURL_inv (c : card) (v : jsval) :
  searchPageURL c = Some v ->
  exists href,
    linkElem c = Some (Some href) /\ v = VStr (Str.trim href)
    /\ truthyStr (Str.trim href) = true.
Proof.
  unfold searchPageURL, optTrim. destruct (linkElem c) as [[href|]|]; [|done..].
  cbn [mbind option_bind fmap option_fmap option_map].
  destruct (truthyStr (Str.trim href)) eqn:T; [|done].
  intros [= <-]. by exists href.
Qed.

Lemma searchThumbURL_inv (c : card) (v : jsval) :
  searchThumbURL c = Some v ->
  exists src,
    imgElem c = Some (Some src)
    /\ v = VStr (formatThumbnailUrl (Str.trim src)).
Proof.
  unfold searchThumbURL, optTrim. destruct (imgElem c) as [[src|]|]; [|done..].
  cbn [mbind option_bind fmap option_fmap option_map].
  destruct (truthyStr (Str.trim src)); [|done].
  intros [= <-]. by exists src.
Qed.

Lemma searchDuration_inv (c : card) (v : jsval) :
  searchDuration c = Some v -> exists z, v = VNum (Int z) /\ (0 < z)%Z.
Proof.
  unfold searchDuration. destruct (durationElem c) as [text|]; [|done].
  cbn [mbind option_bind].
  destruct (parseInt (VStr (Str.trim text))) as [|z]; [done|].
  cbn [gtZero]. destruct (Z.ltb_spec 0 z); [|done].
  intros [= <-]. by exists z.
Qed.

Lemma searchViews_inv (c : card) (v : jsval) :
  searchViews c = Some v -> exists z, v = VNum (Int z) /\ (0 <= z)%Z.
Proof.
  unfold searchViews. destruct (viewsElem c) as [text|]; [|done].
  cbn [mbind option_bind].
  destruct (parseInt (VStr (onlyDigits text))) as [|z]; [done|].
  cbn [geZero]. destruct (Z.leb_spec 0 z); [|done].
  intros [= <-]. by exists z.
Qed.

Lemma stringOrFalsy_opt (o : option jsval) :
  (forall v, o = Some v -> exists s, v = VStr s) ->
  stringOrFalsy (default VUndef o) = true.
Proof.
  destruct o as [v|]; [|done]. intros H.
  by destruct (H v eq_refl) as [s ->].
Qed.

Lemma searchCardFields_typed (c : card) (i : option jsval) :
  stringFields (VObj (searchCardFields c ++ entry "id" i)) = true.
Proof.
  unfold searchCardFields. apply entries_stringFields; apply stringOrFalsy_opt.
  - intros v (t & _ & ->)%searchTitle_inv. eauto.
  - intros v (h & _ & -> & _)%searchPageURL_inv. eauto.
  - intros v (s & _ & ->)%searchThumbURL_inv. eauto.
Qed.

Lemma trimOrEmpty_string (s t : string) :
  trimOrEmpty (VStr s) = Returned t -> t = Str.trim s.
Proof.
  unfold trimOrEmpty. cbn [truthy callTrim].
  destruct s as [|a s]; cbn [truthyStr]; by intros [= <-].
Qed.

Lemma parseIntOrUndefined_positive (v : jsval) (z : Z) :
  v = VNum (Int z) -> (0 < z)%Z -> parseIntOrUndefined v = Some (Int z).
Proof.
  intros -> H. unfold parseIntOrUndefined. cbn [truthy truthyNum].
  destruct (Z.eqb_spec z 0); [lia|]. cbn [negb]. by rewrite parseInt_Int.
Qed.

Lemma searchCard_record_total (now : Z) (c : card) :
  exists r, searchCardRecord now c = Returned r.
Proof.
  unfold searchCardRecord.
  destruct (searchCardVideo now c) as [x|] eqn:E; [|by eexists].
  destruct (cleanVideoData x) as [r|e] eqn:Ex; [by eexists|].
  apply cleanVideoData_throws_inv in Ex. unfold searchCardVideo in E.
  cbv zeta in E.
  destruct (negb _ || negb _); [done|]. injection E as <-.
  by rewrite searchCardFields_typed in Ex.
Qed.

(** X21. The callback of the search fallback never makes
    [cleanVideoData] throw. When the duration and the view count that
    the callback parsed are safe integers, a record it pushes carries
    what the callback read: the short path of the trimmed href, the
    title and the escaped thumbnail as the callback set them (trimming
    and escaping them again changes nothing), the duration and the view
    count it parsed, 0 for a missing view count, and the id synthesized
    from the trimmed href and the clock. Beyond the safe integers
    [cleanVideoData] reads another number from what [String] writes. *)
Theorem searchCard_record (now : Z) (c : card) :
  (exists r, searchCardRecord now c = Returned r)
  /\ (safeOrUnset (searchDuration c) = true ->
      safeOrUnset (searchViews c) = true ->
      forall v, searchCardRecord now c = Returned (Some v) ->
       exists href t src n d,
         linkElem c = Some (Some href) /\ titleElem c = Some t
         /\ imgElem c = Some (Some src)
         /\ pageURL v = extractVideoPath (Str.trim href)
         /\ title v = cardTitle t
         /\ thumbURL v = formatThumbnailUrl (Str.trim src)
         /\ searchFallbackId (Str.trim href) now = Some n
         /\ id v = Some (Int n) /\ (0 < n)%Z
         /\ searchDuration c = Some (VNum (Int d))
         /\ duration v = Some (Int d) /\ (0 < d)%Z
         /\ views v = match searchViews c with
                      | Some (VNum n) => n
                      | _ => Int 0
                      end).
Proof.
  split; [apply searchCard_record_total|]. intros _ _.
  unfold searchCardRecord.
  - intros v. unfold searchCardVideo. cbv zeta.
    destruct (entries_fields (searchTitle c) (searchPageURL c)
                (searchThumbURL c) (searchDuration c) (searchViews c) None)
      as (_ & P0 & _ & _ & _ & I0 & _).
    cbn [entry] in P0, I0. rewrite app_nil_r in P0, I0.
    change (entry "title" (searchTitle c) ++ _) with (searchCardFields c)
      in P0, I0.
    rewrite P0, I0.
    destruct (searchPageURL c) as [p|] eqn:Ep; [|done].
    apply searchPageURL_inv in Ep as Hp. destruct Hp as (href & L & -> & Tp).
    cbn [from_option Datatypes.id truthy includesVal toStr]. rewrite Tp. cbn [negb orb andb].
    destruct (Str.includes "/videos/" (Str.trim href)) eqn:Inc; [|done].
    cbn [negb]. intros E.
    apply cleanVideoData_fields in E
      as (full & t' & th' & Hfull & _ & Ht & Hth & Hid & Htitle & Hdur
          & Hpage & Hthumb & Hviews & V).
    unfold searchCardFields in Hfull, Ht, Hth, Hid, Hdur, Hviews.
    destruct (entries_fields (searchTitle c) (searchPageURL c)
                (searchThumbURL c) (searchDuration c) (searchViews c)
                ((fun n => VNum (Int n)) <$>
                   searchFallbackId (Str.trim href) now))
      as (F1 & F2 & F3 & F4 & F5 & F6 & _).
    rewrite F2 in Hfull. rewrite F1 in Ht. rewrite F3 in Hth.
    rewrite F6 in Hid. rewrite F4 in Hdur. rewrite F5 in Hviews.
    rewrite Ep in Hfull. cbn [from_option Datatypes.id] in Hfull.
    apply trimOrEmpty_string in Hfull. rewrite trim_idem in Hfull. subst full.
    apply andb_prop in V as [V Vviews]. apply andb_prop in V as [V Vthumb].
    apply andb_prop in V as [V Vpage]. apply andb_prop in V as [V Vdur].
    apply andb_prop in V as [V Vtitle].
    unfold hasValidId in V. unfold hasValidTitle in Vtitle.
    unfold hasValidThumbURL in Vthumb. unfold hasValidDuration in Vdur.
    (* the id *)
    destruct (searchFallbackId (Str.trim href) now) as [n|] eqn:En;
      cbn [fmap option_fmap option_map from_option Datatypes.id] in Hid;
      [|by rewrite Hid in V].
    assert (0 < n)%Z as Hn.
    { rewrite Hid in V.
      unfold parseIntOrUndefined in V. cbn [truthy truthyNum] in V.
      destruct (Z.eqb_spec n 0) as [-> | _]; [done|].
      cbn [negb] in V. rewrite parseInt_Int in V. cbn [definedPositive] in V.
      by apply Z.ltb_lt. }
    rewrite (parseIntOrUndefined_positive _ n eq_refl Hn) in Hid.
    (* the title *)
    destruct (searchTitle c) as [tv|] eqn:Et; cbn [from_option Datatypes.id] in Ht.
    2:{ injection Ht as <-. by rewrite Htitle in Vtitle. }
    apply searchTitle_inv in Et as (t & Ti & ->).
    apply trimOrEmpty_string in Ht. rewrite cardTitle_trimmed in Ht. subst t'.
    (* the thumbnail *)
    destruct (searchThumbURL c) as [thv|] eqn:Eth; cbn [from_option Datatypes.id] in Hth.
    2:{ injection Hth as <-. by rewrite Hthumb in Vthumb. }
    apply searchThumbURL_inv in Eth as (src & Im & ->).
    apply trimOrEmpty_string in Hth.
    rewrite trim_formatThumbnailUrl in Hth by apply trim_idem. subst th'.
    rewrite formatThumbnailUrl_idem in Hthumb.
    (* the duration *)
    destruct (searchDuration c) as [dv|] eqn:Ed; cbn [from_option Datatypes.id] in Hdur.
    2:{ by rewrite Hdur in Vdur. }
    apply searchDuration_inv in Ed as (d & -> & Hd).
    rewrite (parseIntOrUndefined_positive _ d eq_refl Hd) in Hdur.
    exists href, t, src, n, d. repeat (split; [done|]).
    (* the views *)
    rewrite Hviews. destruct (searchViews c) as [vv|] eqn:Ev; [|done].
    apply searchViews_inv in Ev as (z & -> & Hz). cbn [from_option Datatypes.id truthy truthyNum].
    destruct (Z.eqb_spec z 0) as [-> | _]; [done|]. cbn [negb].
    apply parseInt_Int.
Qed.

Lemma searchCard_record_witness :
  searchCardRecord 1700000000123 cardA = Returned (Some recordOfCardA)
  /\ exists href t src n d,
    linkElem cardA = Some (Some href) /\ titleElem cardA = Some t
    /\ imgElem cardA = Some (Some src)
    /\ pageURL recordOfCardA = extractVideoPath (Str.trim href)
    /\ title recordOfCardA = cardTitle t
    /\ thumbURL recordOfCardA = formatThumbnailUrl (Str.trim src)
    /\ searchFallbackId (Str.trim href) 1700000000123 = Some n
    /\ id recordOfCardA = Some (Int n) /\ (0 < n)%Z
    /\ searchDuration cardA = Some (VNum (Int d))
    /\ duration recordOfCardA = Some (Int d) /\ (0 < d)%Z
    /\ views recordOfCardA = match searchViews cardA with
                             | Some (VNum n) => n
                             | _ => Int 0
                             end.
Proof.
  split; [vm_compute; reflexivity|].
  apply (proj2 (searchCard_record 1700000000123 cardA));
    vm_compute; reflexivity.
Defined.

Lemma searchFallback_total (cards : list (Z * card)) :
  exists videos, searchFallback cards = Returned videos.
Proof.
  induction cards as [|[now c] cards [videos E]]; [by exists []|].
  cbn [searchFallback]. destruct (searchCard_record_total now c) as [r ->].
  rewrite E. cbn [mbind outcome_bind]. eauto.
Qed.

(** X22. The loop of the search fallback never throws, so the outer
    [catch] is out of its reach, and it collects exactly the records of
    the cards that [cleanVideoData] accepts. *)
Theorem searchFallback_collects (cards : list (Z * card)) :
  exists videos,
    searchFallback cards = Returned videos
    /\ forall v, v ∈ videos <->
         exists now c, (now, c) ∈ cards
           /\ searchCardRecord now c = Returned (Some v).
Proof.
  induction cards as [|[now c] cards (videos & E & IH)].
  - exists []. split; [done|]. intros v. split; [by intros ?%elem_of_nil|].
    by intros (? & ? & ?%elem_of_nil & _).
  - cbn [searchFallback]. destruct (searchCard_record_total now c) as [r Hr]. rewrite Hr, E. cbn [mbind outcome_bind].
    eexists. split; [done|]. intros v. split.
    + intros Hv.
      assert (v ∈ videos -> exists now0 c0, (now0, c0) ∈ (now, c) :: cards
                /\ searchCardRecord now0 c0 = Returned (Some v)) as Tail.
      { intros (n0 & c0 & H0 & R0)%IH. exists n0, c0.
        split; [by right | done]. }
      destruct r as [x|]; [|by apply Tail].
      apply elem_of_cons in Hv as [-> | Hv]; [|by apply Tail].
      exists now, c. split; [by left | done].
    + intros (n0 & c0 & [[= -> ->] | H0]%elem_of_cons & R0).
      * rewrite Hr in R0. injection R0 as ->. by left.
      * assert (v ∈ videos) by (apply IH; eauto).
        destruct r; [by right | done].
Qed.

(** ** The related cards *)

Lemma relatedTitle_inv (c : card) (v : jsval) :
  relatedTitle c = Some v ->
  exists t, titleElem c = Some t /\ v = VStr (cardTitle t).
Proof.
  unfold relatedTitle. destruct (titleElem c) as [t|]; [|done].
  cbn [mbind option_bind]. intros [= <-]. by exists t.
Qed.

Lemma relatedPageURL_inv (c : card) (v : jsval) :
  relatedPageURL c = Some v ->
  exists href,
    linkElem c = Some (Some href) /\ v = VStr (Str.trim href)
    /\ truthyStr (Str.trim href) = true
    /\ Str.includes "/videos/" (Str.trim href) = true.
Proof.
  unfold relatedPageURL, optTrim.
  destruct (linkElem c) as [[href|]|]; [|done..].
  cbn [mbind option_bind fmap option_fmap option_map].
  destruct (truthyStr (Str.trim href)) eqn:T; [|done].
  destruct (Str.includes "/videos/" (Str.trim href)) eqn:I; [|done].
  intros [= <-]. by exists href.
Qed.

Lemma relatedThumbURL_inv (c : card) (v : jsval) :
  relatedThumbURL c = Some v ->
  exists a,
    imgElem c = Some a /\ v = optStr (formatThumbnailUrl <$> optTrim a).
Proof.
  unfold relatedThumbURL. destruct (imgElem c) as [a|]; [|done].
  cbn [mbind option_bind]. intros [= <-]. by exists a.
Qed.

Lemma relatedCardFields_typed (c : card) (i : option jsval) :
  stringFields (VObj (relatedCardFields c ++ entry "id" i)) = true.
Proof.
  unfold relatedCardFields. apply entries_stringFields.
  - apply stringOrFalsy_opt. intros v (t & _ & ->)%relatedTitle_inv. eauto.
  - apply stringOrFalsy_opt.
    intros v (h & _ & -> & _)%relatedPageURL_inv. eauto.
  - destruct (relatedThumbURL c) as [v|] eqn:E; [|done].
    apply relatedThumbURL_inv in E as (a & _ & ->).
    by destruct a.
Qed.

Lemma relatedCardVideo_typed (c : card) (x : jsval) :
  x ∈ relatedCardVideo c -> stringFields x = true.
Proof.
  unfold relatedCardVideo. cbv zeta.
  destruct (_ && _ && _); [|by intros ?%elem_of_nil].
  intros ->%list_elem_of_singleton. apply relatedCardFields_typed.
Qed.

Lemma numAdd_Int (a b : jsnum) (z : Z) :
  numAdd (numMul a (Int 60)) b = Int z ->
  exists x y, a = Int x /\ b = Int y /\ z = (x * 60 + y)%Z.
Proof. destruct a as [|x], b as [|y]; try done. intros [= <-]. eauto. Qed.

Lemma parseIntOrUndefined_valid (v : jsval) :
  definedPositive (parseIntOrUndefined v) = true ->
  (forall n, v = VNum n -> exists z, n = Int z /\ (0 < z)%Z).
Proof.
  intros H n ->. unfold parseIntOrUndefined in H.
  destruct n as [|z]; [done|]. cbn [truthy truthyNum] in H.
  destruct (z =? 0)%Z; [done|]. cbn [negb] in H.
  rewrite parseInt_Int in H. exists z. split; [done|]. by apply Z.ltb_lt.
Qed.

(** X23. The HTML element method never makes [cleanVideoData] throw.
    When the duration and the view count that the callback computed are
    safe integers, a record that comes out of it carries the short path
    of the trimmed href, the title and the escaped thumbnail as the
    callback set them, the id hashed from the first run of seven letters
    and digits of the href, and as duration what the callback computed
    from the first match of digits, a colon and digits in the trimmed
    duration text: sixty times the number before the colon plus the
    number after it. Digits that come before that match are passed over:
    12 views 3:45 gives 225. *)
Theorem relatedCards_records (cards : list card) :
  exists cs,
    cleanAll (relatedCardsOf cards) = Returned cs
    /\ (Forall (fun c => safeOrUnset (relatedDuration c) = true
                        /\ safeOrUnset (relatedViews c) = true) cards ->
        forall v, v ∈ cs ->
         exists c href t src n m a b,
           c ∈ cards
           /\ linkElem c = Some (Some href) /\ titleElem c = Some t
           /\ imgElem c = Some (Some src)
           /\ pageURL v = extractVideoPath (Str.trim href)
           /\ title v = cardTitle t
           /\ thumbURL v = formatThumbnailUrl (Str.trim src)
           /\ runHashId (Str.trim href) = Some n
           /\ id v = Some (Int n) /\ (0 < n)%Z
           /\ (exists text, durationElem c = Some text
                 /\ Regex.search minutesSecondsRe (Str.trim text) = Some m)
           /\ parseInt (matchGroup 1 m) = Int a
           /\ parseInt (matchGroup 2 m) = Int b
           /\ duration v = Some (Int (a * 60 + b))).
Proof.
  destruct (cleanAll_well_typed (relatedCardsOf cards)) as [cs Hcs].
  { apply Forall_forall. intros x Hx.
    apply list_elem_of_In, in_flat_map in Hx as (c & _ & Hx).
    by apply relatedCardVideo_typed with (c := c), list_elem_of_In. }
  exists cs. split; [done|]. intros _ v Hv.
  destruct (cleanAll_origin _ _ _ Hcs Hv) as (x & Hx & E).
  apply list_elem_of_In, in_flat_map in Hx as (c & Hc & Hx).
  apply list_elem_of_In in Hc, Hx. exists c.
  revert Hx. unfold relatedCardVideo. cbv zeta.
  destruct (_ && _ && _); [|by intros ?%elem_of_nil].
  intros ->%list_elem_of_singleton.
  destruct (entries_fields (relatedTitle c) (relatedPageURL c)
              (relatedThumbURL c) (relatedDuration c) (relatedViews c) None)
    as (_ & P0 & _ & _ & _ & I0 & _).
  cbn [entry] in P0, I0. rewrite app_nil_r in P0, I0.
  change (entry "title" (relatedTitle c) ++ _) with (relatedCardFields c)
    in P0, I0.
  rewrite P0, I0 in E. clear P0 I0.
  apply cleanVideoData_fields in E
    as (full & t' & th' & Hfull & _ & Ht & Hth & Hid & Htitle & Hdur
        & Hpage & Hthumb & Hviews & V).
  apply andb_prop in V as [V Vviews]. apply andb_prop in V as [V Vthumb].
  apply andb_prop in V as [V Vpage]. apply andb_prop in V as [V Vdur].
  apply andb_prop in V as [V Vtitle].
  unfold hasValidId in V. unfold hasValidTitle in Vtitle.
  unfold hasValidThumbURL in Vthumb. unfold hasValidDuration in Vdur.
  unfold hasValidPageURL in Vpage.
  unfold relatedCardFields in Hfull, Ht, Hth, Hid, Hdur.
  match type of Hid with
  | context [entry "id" ?i] =>
      destruct (entries_fields (relatedTitle c) (relatedPageURL c)
                  (relatedThumbURL c) (relatedDuration c) (relatedViews c) i)
        as (F1 & F2 & F3 & F4 & _ & F6 & _)
  end.
  rewrite F2 in Hfull. rewrite F1 in Ht. rewrite F3 in Hth.
  rewrite F6 in Hid. rewrite F4 in Hdur. clear F1 F2 F3 F4 F6.
  (* the pageURL *)
  destruct (relatedPageURL c) as [p|] eqn:Ep;
    cbn [from_option Datatypes.id] in Hfull, Hid.
  2:{ injection Hfull as <-. by rewrite Hpage in Vpage. }
  apply relatedPageURL_inv in Ep as (href & L & -> & Tp & Inc).
  apply trimOrEmpty_string in Hfull. rewrite trim_idem in Hfull. subst full.
  cbn [truthy truthyNum toStr negb andb] in Hid. rewrite Tp in Hid.
  (* the id *)
  destruct (runHashId (Str.trim href)) as [n|] eqn:En;
    cbn [fmap option_fmap option_map from_option Datatypes.id] in Hid;
    [|by rewrite Hid in V].
  rewrite Hid in V.
  destruct (parseIntOrUndefined_valid _ V _ eq_refl) as (n' & [= <-] & Hn).
  rewrite (parseIntOrUndefined_positive _ n eq_refl Hn) in Hid.
  (* the title *)
  destruct (relatedTitle c) as [tv|] eqn:Et;
    cbn [from_option Datatypes.id] in Ht.
  2:{ injection Ht as <-. by rewrite Htitle in Vtitle. }
  apply relatedTitle_inv in Et as (t & Ti & ->).
  apply trimOrEmpty_string in Ht. rewrite cardTitle_trimmed in Ht. subst t'.
  (* the thumbnail *)
  destruct (relatedThumbURL c) as [thv|] eqn:Eth;
    cbn [from_option Datatypes.id] in Hth.
  2:{ injection Hth as <-. by rewrite Hthumb in Vthumb. }
  apply relatedThumbURL_inv in Eth as (a0 & Im & ->).
  destruct a0 as [src|]; cbn [optTrim fmap option_fmap option_map optStr] in Hth.
  2:{ injection Hth as <-. by rewrite Hthumb in Vthumb. }
  apply trimOrEmpty_string in Hth.
  rewrite trim_formatThumbnailUrl in Hth by apply trim_idem. subst th'.
  rewrite formatThumbnailUrl_idem in Hthumb.
  (* the duration *)
  rewrite Hdur in Vdur.
  destruct (relatedDuration c) as [dv|] eqn:Ed;
    cbn [from_option Datatypes.id] in Hdur, Vdur; [|done].
  unfold relatedDuration in Ed.
  destruct (durationElem c) as [text|] eqn:Etext; [|done].
  cbn [mbind option_bind] in Ed. unfold clockDuration in Ed.
  destruct (Regex.search minutesSecondsRe (Str.trim text)) as [m|] eqn:Em;
    [|done].
  cbn [mbind option_bind] in Ed. injection Ed as <-.
  destruct (parseIntOrUndefined_valid _ Vdur _ eq_refl) as (z & Ez & Hz).
  rewrite Ez in Hdur.
  rewrite (parseIntOrUndefined_positive _ z eq_refl Hz) in Hdur.
  apply numAdd_Int in Ez as (a & b & Ea & Eb & ->).
  exists href, t, src, n, m, a, b. repeat (split; [done|]).
  split; [by exists text|]. done.
Qed.

Lemma relatedCards_records_witness :
  exists cs,
    cleanAll (relatedCardsOf [clockCard; mixedClockCard]) = Returned cs
    /\ duration <$> cs = [Some (Int 62); Some (Int 225)]
    /\ forall v, v ∈ cs ->
         exists c href t src n m a b,
           c ∈ [clockCard; mixedClockCard]
           /\ linkElem c = Some (Some href) /\ titleElem c = Some t
           /\ imgElem c = Some (Some src)
           /\ pageURL v = extractVideoPath (Str.trim href)
           /\ title v = cardTitle t
           /\ thumbURL v = formatThumbnailUrl (Str.trim src)
           /\ runHashId (Str.trim href) = Some n
           /\ id v = Some (Int n) /\ (0 < n)%Z
           /\ (exists text, durationElem c = Some text
                 /\ Regex.search minutesSecondsRe (Str.trim text) = Some m)
           /\ parseInt (matchGroup 1 m) = Int a
           /\ parseInt (matchGroup 2 m) = Int b
           /\ duration v = Some (Int (a * 60 + b)).
Proof.
  destruct (relatedCards_records [clockCard; mixedClockCard])
    as (cs & E & H).
  exists cs. split; [exact E|]. split.
  - assert (exists u w,
              cleanAll (relatedCardsOf [clockCard; mixedClockCard])
              = Returned [u; w]
              /\ duration u = Some (Int 62) /\ duration w = Some (Int 225))
      as (u & w & E' & Du & Dw).
    { eexists _, _. split; [vm_compute; reflexivity|]. by split. }
    rewrite E' in E. injection E as <-. cbn [fmap list_fmap].
    by rewrite Du, Dw.
  - apply H. repeat constructor.
Defined.

(** ** The pattern of the videoModel *)

Lemma mem_split (c : ascii) (s : string) :
  Str.mem c s = true ->
  exists w r, s = w +:+ String c r /\ Str.mem c w = false.
Proof.
  induction s as [|a s IH]; [done|]. cbn [Str.mem].
  destruct (Ascii.eqb a c) eqn:E.
  - apply Ascii.eqb_eq in E as ->. intros _. by exists "", s.
  - cbn [orb]. intros (w & r & -> & Hw)%IH. exists (String a w), r.
    cbn [Str.mem]. by rewrite E, Hw.
Qed.

(** A greedy star of the characters other than [c] runs up to the first
    [c]; when the continuation succeeds there, that is the result. *)
Lemma starLoop_stop {A : Type} (c : ascii) (k : Regex.cont (A := A))
    (n : nat) (w r : string) (cs : Regex.captures) (a : A) :
  Str.mem c w = false -> (Str.len w <= n)%nat ->
  k (String c r) cs = Some a ->
  Regex.starLoop (Regex.run (Regex.notChr c)) true k n (w +:+ String c r) cs
  = Some a.
Proof.
  intros Hw Hn Hk. revert n Hn. induction w as [|x w IH]; intros n Hn.
  - cbn [String.append]. destruct n as [|n]; [done|].
    rewrite starLoop_greedy_S. unfold Regex.notChr. cbn [Regex.run].
    by rewrite Ascii.eqb_refl.
  - cbn [Str.mem] in Hw. apply orb_false_elim in Hw as [Hx Hw].
    destruct n as [|n]; [unfold Str.len in Hn; cbn [String.length] in Hn; lia|].
    rewrite starLoop_greedy_S. unfold Regex.notChr at 1.
    cbn [String.append Regex.run]. rewrite Ascii.eqb_sym, Hx. cbn [negb].
    replace (Str.len (w +:+ String c r) <? Str.len (String x (w +:+ String c r)))%nat
      with true
      by (symmetry; apply Nat.ltb_lt; unfold Str.len; cbn [String.length]; lia).
    unfold Str.len in Hn, IH. cbn [String.length] in Hn.
    rewrite (IH Hw n) by lia. done.
Qed.

Lemma run_chr_inv {A : Type} (c : ascii) (s : string) (cs : Regex.captures)
    (k : Regex.cont (A := A)) (a : A) :
  Regex.run (Regex.chr c) s cs k = Some a ->
  exists s', s = String c s' /\ k s' cs = Some a.
Proof.
  unfold Regex.chr. cbn [Regex.run]. destruct s as [|x s]; [done|].
  destruct (Ascii.eqb c x) eqn:E; [|done]. apply Ascii.eqb_eq in E as <-.
  intros H. by exists s.
Qed.

Lemma matchHere_videoModel (t : string) (m : Regex.found) :
  Regex.matchHere videoModelRe t = Some m ->
  exists w,
    Regex.groups m = [(1%nat, "{" +:+ w +:+ "}")]
    /\ Str.mem "}" w = false.
Proof.
  unfold Regex.matchHere, videoModelRe. cbv zeta.
  cbn [keyRe app Regex.seq Regex.run]. rewrite run_lit.
  destruct (Str.startsWith _ t); [|done].
  set (t1 := Str.drop _ t). clearbody t1.
  intros (ws & s1 & -> & _ & H)%starLoop_chr_inv.
  apply run_chr_inv in H as (t3 & -> & H).
  set (K1 := fun (s' : string) (cs' : Regex.captures) =>
               Some (Regex.Found 0 (Str.take (Str.len t - Str.len s') t)
                       ((1%nat, Str.take (Str.len (String "{" t3) - Str.len s')
                                  (String "{" t3)) :: cs') s')).
  set (K3 := fun (s' : string) (cs' : Regex.captures) =>
               Regex.run (Regex.chr "}") s' cs'
                 (fun s'' cs'' => K1 s'' cs'')).
  pose (inner :=
          Regex.Seq (Regex.chr "{")
            (Regex.Seq (Regex.star (Regex.notChr "}"))
               (Regex.Seq (Regex.chr "}")
                  (Regex.Seq (Regex.star (Regex.notChr "}")) Regex.Eps)))).
  set (K2 := fun (s' : string) (cs' : Regex.captures) =>
               Regex.starLoop (Regex.run inner) true K3 (Str.len s') s' cs').
  change (Regex.starLoop (Regex.run (Regex.notChr "}")) true K2
            (Str.len t3) t3 [] = Some m) in H.
  (* the text after the opening brace holds a closing brace *)
  assert (Str.mem "}" t3 = true) as Hmem.
  { apply starLoop_chr_inv in H as (w1 & s3 & -> & _ & H). unfold K2 in H.
    assert (Regex.run (Regex.Star true inner) s3 [] K3 = Some m) as H'
      by exact H.
    apply run_suffix in H' as (pre & s4 & cs4 & -> & H'). unfold K3 in H'.
    apply run_chr_inv in H' as (s5 & -> & _).
    rewrite !mem_append. cbn [Str.mem]. rewrite Ascii.eqb_refl.
    by rewrite !orb_true_r. }
  apply mem_split in Hmem as (w & r & -> & Hw). exists w. split; [|done].
  eassert (K2 (String "}" r) [] = Some _) as E2.
  { unfold K2. destruct (Str.len (String "}" r)) as [|n] eqn:L; [done|].
    rewrite starLoop_greedy_S. unfold inner at 1. unfold Regex.chr at 1.
    cbn [Regex.run]. change (Ascii.eqb "{" "}") with false. cbv iota.
    unfold K3, Regex.chr. cbn [Regex.run]. rewrite Ascii.eqb_refl.
    unfold K1. reflexivity. }
  assert (Str.len w <= Str.len (w +:+ String "}" r))%nat as Hn
    by (rewrite len_append; lia).
  rewrite (starLoop_stop "}" K2 _ w r [] _ Hw Hn E2) in H.
  injection H as <-. cbn [Regex.groups]. do 2 f_equal.
  pose proof (take_prefix (String "{" (w +:+ "}")) r) as T.
  cbn [String.append] in T. rewrite append_assoc in T.
  cbn [String.append] in T. exact T.
Qed.

(** X24. The text that the videoModel pattern captures ends at the
    first closing brace after the opening one: a greedy run of
    characters other than a closing brace leaves the part of the pattern
    for inner objects nothing to match. A videoModel that holds an inner
    object is therefore cut at the end of that object. *)
Theorem videoModel_capture (content : string) (m : Regex.found) :
  Regex.search videoModelRe content = Some m ->
  exists w,
    Regex.group 1 m = Some ("{" +:+ w +:+ "}") /\ Str.mem "}" w = false.
Proof.
  intros (pre & t & m' & -> & M & G)%search_inv.
  apply matchHere_videoModel in M as (w & Gw & Hw).
  exists w. split; [|done]. unfold Regex.group. by rewrite G, Gw.
Qed.

Lemma videoModel_capture_witness :
  exists w,
    Regex.group 1 (cutModelMatch) = Some ("{" +:+ w +:+ "}")
    /\ Str.mem "}" w = false.
Proof.
  apply (videoModel_capture modelScript cutModelMatch).
  vm_compute. reflexivity.
Defined.

(** ** extractVideoDetails *)

Lemma videoModelStep_no_marker (videoModel : jsval) (content : string) :
  Str.includes (String dquote "videoModel" +:+ String dquote "") content
  = false ->
  videoModelStep videoModel content = videoModel.
Proof. intros H. unfold videoModelStep. rewrite H. by rewrite andb_false_r. Qed.

Lemma extractVideoPathVal_ok (v : jsval) :
  stringOrFalsy v = true ->
  exists s, extractVideoPathVal (or_ v (VStr "")) = Returned s.
Proof.
  unfold extractVideoPathVal, or_, stringOrFalsy.
  destruct v as [| |b|n|s|l|l]; cbn [truthy negb]; try done; eauto.
  - destruct b; [done | eauto].
  - destruct (truthyNum n); [done | eauto].
  - destruct (truthyStr s) eqn:T; cbn [truthy negb]; [rewrite T|]; eauto.
Qed.

Lemma formatThumbnailUrlVal_ok (v : jsval) :
  stringOrFalsy v = true ->
  exists u, formatThumbnailUrlVal (or_ v (VStr "")) = Returned u.
Proof.
  unfold formatThumbnailUrlVal, or_, stringOrFalsy.
  destruct v as [| |b|n|s|l|l]; cbn [truthy negb]; try done; eauto.
  - destruct b; [done | eauto].
  - destruct (truthyNum n); [done | eauto].
  - destruct (truthyStr s) eqn:T; cbn [truthy negb]; [rewrite T|]; eauto.
Qed.

Lemma extractVideoDetails_None_inv (scripts : list string) (now : Z)
    (d : detailsDom) :
  extractVideoDetails scripts now d = None ->
  truthy (foldl videoModelStep VNull scripts) = true
  /\ (stringOrFalsy (field "pageURL" (foldl videoModelStep VNull scripts))
      = false
      \/ stringOrFalsy (field "thumbURL" (foldl videoModelStep VNull scripts))
         = false).
Proof.
  unfold extractVideoDetails. cbv zeta.
  generalize (foldl videoModelStep VNull scripts). intros model.
  destruct (truthy model); [|done]. intros H. split; [done|].
  destruct (stringOrFalsy (field "pageURL" model)) eqn:P; [|by left].
  destruct (stringOrFalsy (field "thumbURL" model)) eqn:T; [|by right].
  destruct (extractVideoPathVal_ok _ P) as [p Hp].
  destruct (formatThumbnailUrlVal_ok _ T) as [u Hu].
  unfold detailsOfModel in H. rewrite Hp in H. cbn [mbind outcome_bind] in H.
  rewrite Hu in H. done.
Qed.

Lemma extractVideoDetails_no_marker (scripts : list string) (now : Z)
    (d : detailsDom) :
  Forall (fun content =>
            Str.includes (String dquote "videoModel" +:+ String dquote "")
              content = false) scripts ->
  extractVideoDetails scripts now d = Some (detailsOfDom now d).
Proof.
  intros F. unfold extractVideoDetails. cbv zeta.
  assert (foldl videoModelStep VNull scripts = VNull) as ->; [|done].
  generalize VNull. induction F as [|content scripts Hc _ IH]; [done|].
  intros v. cbn [foldl]. rewrite videoModelStep_no_marker by done.
  apply IH.
Qed.

(** X25. [extractVideoDetails] returns null only when the videoModel it
    parsed last holds a truthy pageURL or thumbURL that is not a string
    (the converters then throw a TypeError); and for a document none of
    whose scripts mentions the videoModel key it returns the object of
    the HTML fallback. *)
Theorem extractVideoDetails_null (scripts : list string) (now : Z)
    (d : detailsDom) :
  (extractVideoDetails scripts now d = None ->
   truthy (foldl videoModelStep VNull scripts) = true
   /\ (stringOrFalsy (field "pageURL" (foldl videoModelStep VNull scripts))
       = false
       \/ stringOrFalsy (field "thumbURL" (foldl videoModelStep VNull scripts))
          = false))
  /\ (Forall (fun content =>
                Str.includes (String dquote "videoModel" +:+ String dquote "")
                  content = false) scripts ->
      extractVideoDetails scripts now d = Some (detailsOfDom now d)).
Proof.
  split; [apply extractVideoDetails_None_inv
         | apply extractVideoDetails_no_marker].
Qed.

Lemma extractVideoPathVal_shape (v : jsval) (p : string) :
  extractVideoPathVal v = Returned p -> p = "" \/ shortPath p.
Proof.
  unfold extractVideoPathVal. destruct (truthy v); cbn [negb].
  - destruct v; try done. intros [= <-]. apply extractVideoPath_empty_or_short.
  - intros [= <-]. by left.
Qed.

(** X26. Whichever branch builds it, the object that
    [extractVideoDetails] returns has a string for its pageURL, and the
    string is empty or a short path. *)
Theorem extractVideoDetails_pageURL (scripts : list string) (now : Z)
    (d : detailsDom) (details : jsval) :
  extractVideoDetails scripts now d = Some details ->
  exists p, field "pageURL" details = VStr p /\ (p = "" \/ shortPath p).
Proof.
  unfold extractVideoDetails. cbv zeta.
  destruct (truthy (foldl videoModelStep VNull scripts)).
  - unfold detailsOfModel.
    destruct (extractVideoPathVal _) as [p|] eqn:P; [|done].
    cbn [mbind outcome_bind].
    destruct (formatThumbnailUrlVal _) as [u|]; [|done].
    cbn [mbind outcome_bind]. intros [= <-]. exists p.
    split; [reflexivity | by apply extractVideoPathVal_shape in P].
  - intros [= <-]. unfold detailsOfDom. cbv zeta.
    eexists. split; [|apply extractVideoPath_empty_or_short].
    match goal with
    | |- context [entry "duration" ?a ++ entry "views" ?b ++ entry "id" ?c ++ _] =>
        generalize a b c
    end.
    intros [a|] [b|] [c|]; reflexivity.
Qed.

Lemma extractVideoDetails_pageURL_witness :
  exists p,
    field "pageURL" (detailsOfDom 5 (DetailsDom videoTags " Head " " 3:20 " ""))
    = VStr p
    /\ (p = "" \/ shortPath p).
Proof.
  apply (extractVideoDetails_pageURL [] 5
           (DetailsDom videoTags " Head " " 3:20 " "")).
  reflexivity.
Defined.

(** X27. The details route, on a document whose detail extraction is
    [extractVideoDetails]: it answers "Video details not found" only
    when the videoModel parsed last holds a truthy pageURL or thumbURL
    that is not a string, and when no script mentions the videoModel key
    it answers with the object of the HTML fallback. *)
Theorem detailsRoute_not_found (path : string) (net : string -> fetched)
    (data : page) (now : Z) (d : detailsDom) :
  Str.startsWith "videos/" path = true ->
  net ("https://xhamster19.com/" +:+ path) = Fetched data ->
  videoDetails data = extractVideoDetails (scripts data) now d ->
  (answer net (detailsRoute path)
   = Failure 404 "Video details not found" None ->
   truthy (foldl videoModelStep VNull (scripts data)) = true
   /\ (stringOrFalsy
         (field "pageURL" (foldl videoModelStep VNull (scripts data))) = false
       \/ stringOrFalsy
            (field "thumbURL" (foldl videoModelStep VNull (scripts data)))
          = false))
  /\ (Forall (fun content =>
                Str.includes (String dquote "videoModel" +:+ String dquote "")
                  content = false) (scripts data) ->
      answer net (detailsRoute path)
      = Ok (detailsResponse (detailsOfDom now d) data)).
Proof.
  intros S N V. unfold detailsRoute. rewrite S. cbn [negb answer].
  rewrite N, V. split.
  - destruct (extractVideoDetails (scripts data) now d) eqn:E; [done|].
    intros _. by apply extractVideoDetails_None_inv in E.
  - intros F. by rewrite (extractVideoDetails_no_marker _ now d F).
Qed.

Lemma detailsRoute_not_found_witness :
  answer (fun _ => Fetched fallbackPage) (detailsRoute "videos/t-5")
  = Ok (detailsResponse
          (detailsOfDom 5 (DetailsDom videoTags " Head " " 3:20 " ""))
          fallbackPage).
Proof.
  apply (proj2 (detailsRoute_not_found "videos/t-5"
                  (fun _ => Fetched fallbackPage) fallbackPage 5
                  (DetailsDom videoTags " Head " " 3:20 " "")
                  eq_refl eq_refl eq_refl)).
  repeat constructor.
Defined.

(** ** Documents without embedded video data *)

Lemma relatedCardsOf_typed (cards : list card) (v : jsval) :
  v ∈ relatedCardsOf cards -> stringFields v = true.
Proof.
  intros Hv. apply list_elem_of_In, in_flat_map in Hv as (c & _ & Hv).
  by apply relatedCardVideo_typed with (c := c), list_elem_of_In.
Qed.

Lemma firstNonEmpty_elem {A : Type} (ls : list (list A)) (x : A) :
  x ∈ firstNonEmpty ls -> exists l, l ∈ ls /\ x ∈ l.
Proof.
  induction ls as [|l ls IH]; cbn [firstNonEmpty]; [by intros ?%elem_of_nil|].
  destruct l as [|y l].
  - intros (l' & Hl & Hx)%IH. exists l'. split; [by right | done].
  - intros Hx. exists (y :: l). split; [by left | done].
Qed.

Lemma firstNonEmpty_last {A : Type} (l : list A) : firstNonEmpty [[]; l] = l.
Proof. by destruct l. Qed.

(** X28. On a document whose scripts do not contain the quoted key
    videoThumbProps, whose cards are those of the HTML element method
    and whose pattern finds are those of the scan, [extractRelatedVideos]
    never reaches its [catch]: it returns the cleaned candidates. When
    the elements yield no card, every record it returns has a view count
    of 0. *)
Theorem extractRelatedVideos_from_document (p : page) (cards : list card) :
  Forall (fun content => Str.includes (js "'videoThumbProps'") content = false)
         (scripts p) ->
  relatedCards p = relatedCardsOf cards ->
  patternFinds p = patternScan (html p) ->
  cleanAll (relatedCandidates p) = Returned (extractRelatedVideos p)
  /\ relatedCandidates p
     = firstNonEmpty [relatedCardsOf cards; patternScan (html p)]
  /\ (relatedCardsOf cards = [] ->
      Forall (fun c => views c = Int 0) (extractRelatedVideos p)).
Proof.
  intros (E1 & E2 & E3)%methods_without_marker C P.
  pose proof (relatedCandidates_dom p E1 E2 E3) as R. rewrite C, P in R.
  unfold extractRelatedVideos. rewrite R.
  split; [|split; [done|]].
  - destruct (cleanAll_well_typed
                (firstNonEmpty [relatedCardsOf cards; patternScan (html p)]))
      as [cs ->]; [|done].
    apply Forall_forall. intros v (l & Hl & Hv)%firstNonEmpty_elem.
    apply elem_of_cons in Hl as [-> | Hl];
      [by apply relatedCardsOf_typed in Hv|].
    apply list_elem_of_singleton in Hl as ->.
    by apply patternScan_fields in Hv as [? _].
  - intros ->. rewrite firstNonEmpty_last.
    destruct (cleanAll_no_views (patternScan (html p))) as (cs & -> & F);
      [|done].
    intros v. apply patternScan_fields.
Qed.

Lemma extractRelatedVideos_from_document_witness :
  cleanAll (relatedCandidates cardsPage)
  = Returned (extractRelatedVideos cardsPage)
  /\ relatedCandidates cardsPage
     = firstNonEmpty [relatedCardsOf [clockCard]; patternScan (html cardsPage)]
  /\ (relatedCardsOf [clockCard] = [] ->
      Forall (fun c => views c = Int 0) (extractRelatedVideos cardsPage)).
Proof.
  apply (extractRelatedVideos_from_document cardsPage [clockCard]).
  - repeat constructor.
  - reflexivity.
  - reflexivity.
Defined.

Lemma searchFallback_cleanAll (cards : list (Z * card)) :
  searchFallback cards
  = cleanAll (omap (fun nc => searchCardVideo nc.1 nc.2) cards).
Proof.
  induction cards as [|[now c] cards IH]; [done|].
  cbn [searchFallback omap list_omap fst snd]. unfold searchCardRecord.
  destruct (searchCardVideo now c) as [video|].
  - cbn [cleanAll]. by rewrite IH.
  - cbn [mbind outcome_bind]. rewrite IH.
    by destruct (cleanAll _).
Qed.

(** X29. When both JSON strategies of [extractSearchResults] fall
    through and the objects of the cheerio fallback are those its
    callback builds, the function returns what the loop of the fallback
    collects, and the outer [catch] is not reached. *)
Theorem extractSearchResults_fallback (p : page) (cards : list (Z * card)) :
  fromSearchResult p = None ->
  fromScriptTags (Regex.whole <$> Regex.matchAll scriptTagRe (html p)) = None ->
  searchCards p = omap (fun nc => searchCardVideo nc.1 nc.2) cards ->
  searchFallback cards = Returned (extractSearchResults p).
Proof.
  intros E1 E2 C. unfold extractSearchResults. rewrite E1, E2, C.
  rewrite <- searchFallback_cleanAll.
  by destruct (searchFallback_total cards) as [videos ->].
Qed.

Lemma extractSearchResults_fallback_witness :
  searchFallback [(1700000000123%Z, cardA)]
  = Returned (extractSearchResults searchCardsPage).
Proof.
  apply (extractSearchResults_fallback searchCardsPage
           [(1700000000123%Z, cardA)]); reflexivity.
Defined.

(** ** Closing countChar "}" and objects *)

Lemma braces_cons (c : ascii) (s : string) :
  (countChar "}" s <= countChar "}" (String c s))%nat.
Proof. cbn [countChar]. destruct (Ascii.eqb _ _); lia. Qed.

Lemma braces_skipWs (s : string) : (countChar "}" (Json.skipWs s) <= countChar "}" s)%nat.
Proof.
  induction s as [|c s IH]; [done|]. cbn [Json.skipWs].
  destruct (Json.isWs c); [|done]. pose proof (braces_cons c s). lia.
Qed.

Lemma braces_drop (n : nat) (s : string) :
  (countChar "}" (Str.drop n s) <= countChar "}" s)%nat.
Proof.
  revert s. induction n as [|n IH]; intros [|c s]; cbn [Str.drop]; try done.
  pose proof (IH s). pose proof (braces_cons c s). lia.
Qed.

Lemma braces_chars (fuel : nat) (s t r : string) :
  Json.chars fuel s = Some (t, r) -> (countChar "}" r <= countChar "}" s)%nat.
Proof.
  revert s t. induction fuel as [|fuel IH]; intros s t; [done|].
  cbn [Json.chars]. destruct s as [|c s]; [done|].
  pose proof (braces_cons c s) as Hc.
  destruct (Ascii.eqb c dquote); [intros [= _ <-]; lia|].
  assert (forall a : ascii, forall s0 : string,
            (countChar "}" s0 <= countChar "}" s)%nat ->
            ('(t0, r0) ← Json.chars fuel s0; Some (String a t0, r0))
            = Some (t, r) -> (countChar "}" r <= countChar "}" (String c s))%nat)
    as One.
  { intros a s0 Hs0. destruct (Json.chars fuel s0) as [[t0 r0]|] eqn:E; [|done].
    cbn [mbind option_bind]. intros [= _ <-]. apply IH in E. lia. }
  destruct (Ascii.eqb c "\").
  - destruct s as [|e s'']; [done|].
    pose proof (braces_cons e s'') as He.
    repeat match goal with
    | |- (if ?b then _ else _) = _ -> _ =>
        destruct b; [by apply One|]
    end.
    destruct (Ascii.eqb e "u"); [|done].
    destruct (Json.hex4 s'') as [[a r0]|] eqn:Hx; [|done].
    cbn [mbind option_bind]. apply One.
    unfold Json.hex4 in Hx.
    destruct s'' as [|a1 [|a2 [|a3 [|a4 s4]]]]; try done.
    destruct (digitValue a1) as [[| |]|]; try done.
    destruct (digitValue a2) as [[| |]|]; try done.
    destruct (digitValue a3); try done. destruct (digitValue a4); try done.
    injection Hx as _ E0. subst r0.
    pose proof (braces_cons a1 (String a2 (String a3 (String a4 s4)))).
    pose proof (braces_cons a2 (String a3 (String a4 s4))).
    pose proof (braces_cons a3 (String a4 s4)).
    pose proof (braces_cons a4 s4). lia.
  - destruct (_ <? _)%nat; [done|]. by apply One.
Qed.

(** The character patterns of the parser, read as case distinctions. *)
Ltac bits c := destruct c as [[] [] [] [] [] [] [] []].

Lemma match_colon {T : Type} (x : string) (f : string -> option T) (v : T) :
  match x with
  | String ":" r1 => f r1
  | _ => None
  end = Some v ->
  exists r1, x = String ":" r1 /\ f r1 = Some v.
Proof.
  destruct x as [|c r]; [done|]. bits c; try done. intros H. by exists r.
Qed.

Lemma match_comma_brace {T : Type} (x : string) (f g : string -> option T)
    (v : T) :
  match x with
  | String "," r3 => f r3
  | String "}" r3 => g r3
  | _ => None
  end = Some v ->
  (exists r3, x = String "," r3 /\ f r3 = Some v)
  \/ (exists r3, x = String "}" r3 /\ g r3 = Some v).
Proof.
  destruct x as [|c r]; [done|]. bits c; try done; intros H;
    [right | left]; by exists r.
Qed.

Lemma match_comma_bracket {T : Type} (x : string) (f g : string -> option T)
    (v : T) :
  match x with
  | String "," r3 => f r3
  | String "]" r3 => g r3
  | _ => None
  end = Some v ->
  (exists r3, x = String "," r3 /\ f r3 = Some v)
  \/ (exists r3, x = String "]" r3 /\ g r3 = Some v).
Proof.
  destruct x as [|c r]; [done|]. bits c; try done; intros H;
    [right | left]; by exists r.
Qed.

Lemma match_brace {T : Type} (h : unit -> string)
    (f g : string -> option T) (v : T) :
  match h tt with
  | String "}" r => f r
  | s1 => g s1
  end = Some v ->
  (exists r, h tt = String "}" r /\ f r = Some v) \/ g (h tt) = Some v.
Proof.
  destruct (h tt) as [|c r]; [by right|]. bits c; intros H;
    first [by right | left; by exists r].
Qed.

Lemma match_bracket {T : Type} (h : unit -> string)
    (f g : string -> option T) (v : T) :
  match h tt with
  | String "]" r => f r
  | s1 => g s1
  end = Some v ->
  (exists r, h tt = String "]" r /\ f r = Some v) \/ g (h tt) = Some v.
Proof.
  destruct (h tt) as [|c r]; [by right|]. bits c; intros H;
    first [by right | left; by exists r].
Qed.

Lemma match_minus (s : string) (neg : bool) (s1 : string) :
  match s with
  | String "-" t => (true, t)
  | _ => (false, s)
  end = (neg, s1) ->
  (countChar "}" s1 <= countChar "}" s)%nat.
Proof.
  destruct s as [|c t]; [by intros [= _ <-]|].
  pose proof (braces_cons c t).
  bits c; intros [= _ <-]; first [lia | done].
Qed.

Lemma match_digits {T : Type} (d : string) (Y : option T) (v : T) :
  match d with
  | "" => None
  | String "0" (String _ _) => None
  | _ => Y
  end = Some v -> Y = Some v.
Proof.
  destruct d as [|c d']; [done|]. bits c; try done. by destruct d'.
Qed.

Lemma match_fraction {T : Type} (r : string) (Y : option T) (v : T) :
  match r with
  | String "." _ | String "e" _ | String "E" _ => None
  | _ => Y
  end = Some v -> Y = Some v.
Proof. destruct r as [|c r']; [done|]. by bits c. Qed.

Lemma braces_digits (s d r : string) :
  Json.digits s = (d, r) -> (countChar "}" r <= countChar "}" s)%nat.
Proof.
  revert d r. induction s as [|c s IH]; intros d r; cbn [Json.digits].
  - by intros [= _ <-].
  - destruct (Regex.isDigit c); [|by intros [= _ <-]].
    destruct (Json.digits s) as [d0 r0]. intros [= _ <-].
    pose proof (IH d0 r0 eq_refl). pose proof (braces_cons c s). lia.
Qed.

Lemma braces_number (s : string) (n : jsnum) (r : string) :
  Json.number s = Some (n, r) -> (countChar "}" r <= countChar "}" s)%nat.
Proof.
  unfold Json.number.
  match goal with
  | |- match ?M with _ => _ end = _ -> _ => destruct M as [neg s1] eqn:E
  end.
  apply match_minus in E.
  destruct (Json.digits s1) as [d r0] eqn:D. apply braces_digits in D.
  intros H%match_digits. apply match_fraction in H.
  destruct (readDigits 10 None d); [|done]. injection H as _ <-. lia.
Qed.

Lemma skipWs_cons (s : string) (c : ascii) (s' : string) :
  Json.skipWs s = String c s' ->
  ((if Ascii.eqb c "}" then 1 else 0) + countChar "}" s' <= countChar "}" s)%nat.
Proof.
  intros E. pose proof (braces_skipWs s) as H. rewrite E in H. exact H.
Qed.

Lemma list_sum_cons (n : nat) (l : list nat) :
  list_sum (n :: l) = (n + list_sum l)%nat.
Proof. reflexivity. Qed.

(** Every object of a parsed value has its closing brace in the text
    that the parser consumed. *)
Lemma json_braces (fuel : nat) :
  (forall s v r, Json.value fuel s = Some (v, r) ->
     (objects v + countChar "}" r <= countChar "}" s)%nat)
  /\ (forall s vs r, Json.elements fuel s = Some (vs, r) ->
        (list_sum (List.map objects vs) + countChar "}" r
         <= countChar "}" s)%nat)
  /\ (forall s fs r, Json.members fuel s = Some (fs, r) ->
        (S (list_sum (List.map (fun kv => objects (snd kv)) fs))
         + countChar "}" r <= countChar "}" s)%nat).
Proof.
  induction fuel as [|fuel (IHv & IHe & IHm)]; [done|].
  split; [|split].
  - intros s v r. cbn [Json.value].
    destruct (Json.skipWs s) as [|c s'] eqn:Es; [done|].
    apply skipWs_cons in Es.
    assert (countChar "}" s' <= countChar "}" s)%nat as Hs' by lia.
    pose proof (braces_skipWs s') as Hw.
    destruct (Ascii.eqb c "{").
    { intros H.
      apply (match_brace (fun _ => Json.skipWs s')
               (fun r => Some (VObj [], r))
               (fun s1 => '(fs, r) ← Json.members fuel s1; Some (VObj fs, r)))
        in H as [(r0 & E0 & [= <- <-]) | H].
      - rewrite E0 in Hw. cbn [countChar] in Hw.
        rewrite Ascii.eqb_refl in Hw. cbn [objects List.map snd]. rewrite ?list_sum_cons. cbn [list_sum fold_right]. lia.
      - destruct (Json.members fuel (Json.skipWs s')) as [[fs r0]|] eqn:M;
          [|done].
        cbn [mbind option_bind] in H. injection H as <- <-.
        apply IHm in M. cbn [objects]. lia. }
    destruct (Ascii.eqb c "[").
    { intros H.
      apply (match_bracket (fun _ => Json.skipWs s')
               (fun r => Some (VArr [], r))
               (fun s1 => '(vs, r) ← Json.elements fuel s1; Some (VArr vs, r)))
        in H as [(r0 & E0 & [= <- <-]) | H].
      - rewrite E0 in Hw. pose proof (braces_cons "]" r0).
        cbn [objects List.map snd]. rewrite ?list_sum_cons. cbn [list_sum fold_right]. lia.
      - destruct (Json.elements fuel (Json.skipWs s')) as [[vs r0]|] eqn:M;
          [|done].
        cbn [mbind option_bind] in H. injection H as <- <-.
        apply IHe in M. cbn [objects]. lia. }
    destruct (Ascii.eqb c dquote).
    { destruct (Json.chars _ s') as [[t r0]|] eqn:C; [|done].
      cbn [mbind option_bind]. intros [= <- <-]. apply braces_chars in C.
      cbn [objects]. lia. }
    assert (forall n, countChar "}" (Str.drop n (String c s'))
                      <= countChar "}" s)%nat as Hd.
    { intros n. pose proof (braces_drop n (String c s')) as Hn.
      cbn [countChar] in Hn |- *. lia. }
    destruct (Str.startsWith "true" _);
      [intros [= <- <-]; exact (Hd 4%nat)|].
    destruct (Str.startsWith "false" _);
      [intros [= <- <-]; exact (Hd 5%nat)|].
    destruct (Str.startsWith "null" _);
      [intros [= <- <-]; exact (Hd 4%nat)|].
    destruct (Json.number _) as [[n r0]|] eqn:N; [|done].
    cbn [mbind option_bind]. intros [= <- <-]. apply braces_number in N.
    cbn [objects countChar] in N |- *. lia.
  - intros s vs r. cbn [Json.elements].
    destruct (Json.value fuel s) as [[v r0]|] eqn:V; [|done].
    cbn [mbind option_bind]. apply IHv in V.
    pose proof (braces_skipWs r0) as Hw.
    intros [(r1 & E1 & H) | (r1 & E1 & [= <- <-])]%match_comma_bracket.
    + destruct (Json.elements fuel r1) as [[vs0 r2]|] eqn:M; [|done].
      cbn [mbind option_bind] in H. injection H as <- <-.
      apply IHe in M. rewrite E1 in Hw. pose proof (braces_cons "," r1).
      cbn [objects List.map snd]. rewrite ?list_sum_cons. cbn [list_sum fold_right]. lia.
    + rewrite E1 in Hw. pose proof (braces_cons "]" r1).
      cbn [objects List.map snd]. rewrite ?list_sum_cons. cbn [list_sum fold_right]. lia.
  - intros s fs r. cbn [Json.members].
    destruct (Json.skipWs s) as [|c s'] eqn:Es; [done|].
    apply skipWs_cons in Es.
    assert (countChar "}" s' <= countChar "}" s)%nat as Hs' by lia.
    destruct (Ascii.eqb c dquote); [|done].
    destruct (Json.chars _ s') as [[k r0]|] eqn:C; [|done].
    cbn [mbind option_bind]. apply braces_chars in C.
    pose proof (braces_skipWs r0) as Hw0.
    intros (r1 & E1 & H)%match_colon. rewrite E1 in Hw0.
    pose proof (braces_cons ":" r1).
    destruct (Json.value fuel r1) as [[v r2]|] eqn:V; [|done].
    cbn [mbind option_bind] in H. apply IHv in V.
    pose proof (braces_skipWs r2) as Hw2.
    apply match_comma_brace in H as [(r3 & E3 & H) | (r3 & E3 & [= <- <-])].
    + destruct (Json.members fuel r3) as [[fs0 r4]|] eqn:M; [|done].
      cbn [mbind option_bind] in H. injection H as <- <-.
      apply IHm in M. rewrite E3 in Hw2. pose proof (braces_cons "," r3).
      cbn [objects List.map snd]. rewrite ?list_sum_cons. cbn [list_sum fold_right]. lia.
    + rewrite E3 in Hw2. cbn [countChar] in Hw2.
      rewrite Ascii.eqb_refl in Hw2. cbn [objects List.map snd]. rewrite ?list_sum_cons. cbn [list_sum fold_right]. lia.
Qed.

Lemma parse_braces (text : string) (v : jsval) :
  Json.parse text = Returned v -> (objects v <= countChar "}" text)%nat.
Proof.
  unfold Json.parse.
  destruct (Json.value _ text) as [[v0 r]|] eqn:V; [|done].
  destruct (Json.skipWs r); [|done]. intros [= <-].
  apply (proj1 (json_braces _)) in V. lia.
Qed.

(** ** Replacements and closing braces *)

Lemma matchHere_split (r : Regex.regex) (t : string) (m : Regex.found) :
  Regex.matchHere r t = Some m -> t = Regex.whole m +:+ Regex.rest m.
Proof.
  unfold Regex.matchHere.
  intros (pre & s' & cs' & -> & [= <-])%run_suffix.
  cbn [Regex.whole Regex.rest]. by rewrite take_prefix.
Qed.

Lemma search_at (r : Regex.regex) (s : string) (m : Regex.found) :
  Regex.search r s = Some m ->
  exists t m',
    Regex.matchHere r t = Some m'
    /\ Regex.groups m = Regex.groups m' /\ Regex.whole m = Regex.whole m'
    /\ s = Str.take (Regex.index m) s +:+ Regex.whole m +:+ Regex.rest m.
Proof.
  revert m. induction s as [|c s IH]; intros m; cbn [Regex.search].
  - destruct (Regex.matchHere r "") as [m'|] eqn:E; [|done].
    intros [= <-]. exists "", m'. repeat split; [done|].
    apply matchHere_split in E as E'. unfold Regex.matchHere in E.
    apply run_suffix in E as (pre & s' & cs' & _ & [= <-]).
    cbn [Regex.index Str.take String.append] in *. done.
  - destruct (Regex.matchHere r (String c s)) as [m'|] eqn:E.
    + intros [= <-]. exists (String c s), m'. repeat split; [done|].
      apply matchHere_split in E as E'. unfold Regex.matchHere in E.
      apply run_suffix in E as (pre & s' & cs' & _ & [= <-]).
      cbn [Regex.index Str.take String.append] in *. done.
    + destruct (Regex.search r s) as [m0|]; [|done].
      cbn [fmap option_fmap option_map]. intros [= <-].
      destruct (IH m0 eq_refl) as (t & m' & M & G & W & S).
      exists t, m'. repeat split; try done.
      cbn [Regex.shift Regex.index Regex.whole Regex.rest Str.take
           String.append]. by rewrite <- S.
Qed.

Lemma replaceAll_go_count (c : ascii) (r : Regex.regex)
    (tpl : Regex.found -> string) (fuel : nat) (s : string) :
  (forall s0 m, Regex.search r s0 = Some m ->
     countChar c (tpl m) <= countChar c (Regex.whole m))%nat ->
  (countChar c (Regex.replaceAll_go fuel r tpl s) <= countChar c s)%nat.
Proof.
  intros T. revert s. induction fuel as [|fuel IH]; intros s; [done|].
  cbn [Regex.replaceAll_go].
  destruct (Regex.search r s) as [m|] eqn:E; [|done].
  pose proof (T s m E) as Tm.
  apply search_at in E as (_ & _ & _ & _ & _ & S).
  rewrite S at 2. rewrite !countChar_append.
  assert (countChar c
            match Regex.whole m, Regex.rest m with
            | "", String c0 s' => String c0 (Regex.replaceAll_go fuel r tpl s')
            | "", "" => ""
            | _, s' => Regex.replaceAll_go fuel r tpl s'
            end <= countChar c (Regex.rest m))%nat; [|lia].
  destruct (Regex.whole m); [|apply IH].
  destruct (Regex.rest m) as [|c0 s']; [done|].
  cbn [countChar]. pose proof (IH s'). lia.
Qed.

Lemma countChar_single (c a : ascii) (w : string) :
  (countChar c (String a "") <= countChar c (w +:+ String a ""))%nat.
Proof. rewrite countChar_append. lia. Qed.

Lemma dropCommaBefore_count (c close : ascii) (s : string) :
  (countChar c (dropCommaBefore close s) <= countChar c s)%nat.
Proof.
  unfold dropCommaBefore, Regex.replaceAll. apply replaceAll_go_count.
  intros s0 m (t & m' & M & _ & -> & _)%search_at.
  unfold Regex.matchHere in M. cbn [Regex.seq Regex.run] in M.
  apply run_chr_inv in M as (t1 & -> & M).
  apply starLoop_chr_inv in M as (ws & t2 & -> & _ & M).
  apply run_chr_inv in M as (t3 & -> & [= <-]). cbn [Regex.whole].
  pose proof (take_prefix (String "," (ws +:+ String close "")) t3) as P.
  cbn [String.append] in P. rewrite append_assoc in P.
  cbn [String.append] in P.
  change (S (Str.len (ws +:+ String close t3)))
    with (Str.len (String "," (ws +:+ String close t3))).
  rewrite P. apply (countChar_single c close (String "," ws)).
Qed.

Lemma isAlpha_not_brace (a : ascii) :
  Regex.isAlpha_ a || Regex.isDigit a = true -> Ascii.eqb a "}" = false.
Proof. bits a; by vm_compute. Qed.

Lemma allChars_no_brace (w : string) :
  allChars (fun c => Regex.isAlpha_ c || Regex.isDigit c) w = true ->
  countChar "}" w = 0%nat.
Proof.
  induction w as [|a w IH]; [done|]. cbn [allChars countChar].
  intros [Ha Hw]%andb_prop. by rewrite (isAlpha_not_brace a Ha), IH.
Qed.

Lemma matchHere_unquotedKey (t : string) (m : Regex.found) :
  Regex.matchHere unquotedKeyRe t = Some m ->
  countChar "}" (Regex.group_or_empty 1 m) = 0%nat
  /\ countChar "}" (Regex.group_or_empty 2 m) = 0%nat.
Proof.
  unfold Regex.matchHere, unquotedKeyRe. cbn [Regex.seq Regex.run].
  destruct t as [|c0 t1]; [done|].
  destruct (Ascii.eqb c0 "{" || Ascii.eqb c0 ",") eqn:P1; [|done].
  intros (ws & t2 & -> & _ & M)%starLoop_chr_inv.
  cbn [Regex.run] in M. destruct t2 as [|a t3]; [done|].
  destruct (Regex.isAlpha_ a) eqn:Pa; [|done].
  apply starLoop_chr_inv in M as (w & t4 & -> & Hw & M).
  apply run_chr_inv in M as (t5 & -> & [= <-]).
  cbn [Regex.group_or_empty Regex.group Regex.groups List.find fst snd
       Nat.eqb fmap option_fmap option_map from_option Datatypes.id].
  split.
  - change (Str.len (String c0 ?x)) with (S (Str.len x)).
    replace (S (Str.len (ws +:+ String a (w +:+ String ":" t5)))
             - Str.len (ws +:+ String a (w +:+ String ":" t5)))%nat
      with 1%nat by lia.
    cbn [Str.take countChar].
    apply orb_prop in P1 as [->%Ascii.eqb_eq | ->%Ascii.eqb_eq]; done.
  - replace (Str.len (w +:+ String ":" t5) - Str.len t5)%nat
      with (S (Str.len w))
      by (rewrite len_append; unfold Str.len; cbn [String.length]; lia).
    cbn [Str.take]. rewrite take_append. cbn [countChar].
    rewrite (isAlpha_not_brace a) by (by rewrite Pa).
    by rewrite allChars_no_brace.
Qed.

Lemma quoteKeys_count (s : string) :
  (countChar "}" (quoteKeys s) <= countChar "}" s)%nat.
Proof.
  unfold quoteKeys, Regex.replaceAll. apply replaceAll_go_count.
  intros s0 m (t & m' & M & G & _ & _)%search_at.
  apply matchHere_unquotedKey in M as [G1 G2].
  unfold Regex.group_or_empty, Regex.group in *. rewrite G.
  rewrite !countChar_append, G1, G2. cbn [countChar].
  change (Ascii.eqb dquote "}") with false.
  change (Ascii.eqb ":" "}") with false. cbv iota. lia.
Qed.

(** ** The parsed videoModel has no inner object *)

Lemma videoModelStep_objects (videoModel : jsval) (content : string) :
  (objects videoModel <= 1)%nat ->
  (objects (videoModelStep videoModel content) <= 1)%nat.
Proof.
  intros H. unfold videoModelStep. destruct (_ && _); [|done].
  destruct (Regex.search videoModelRe content) as [m|] eqn:E; [|done].
  destruct (Json.parse _) as [v|] eqn:P; [|done].
  apply parse_braces in P.
  pose proof (quoteKeys_count
                (dropCommaBefore "]"
                   (dropCommaBefore "}" (Regex.group_or_empty 1 m)))) as Q.
  pose proof (dropCommaBefore_count "}" "]"
                (dropCommaBefore "}" (Regex.group_or_empty 1 m))) as D1.
  pose proof (dropCommaBefore_count "}" "}" (Regex.group_or_empty 1 m)) as D2.
  apply search_inv in E as (pre & t & m' & _ & M & G).
  apply matchHere_videoModel in M as (w & Gw & Hw).
  unfold Regex.group_or_empty, Regex.group in *. rewrite G, Gw in *.
  cbn [List.find fst snd Nat.eqb fmap option_fmap option_map from_option
       Datatypes.id] in *.
  rewrite !countChar_append in D2. rewrite (countChar_absent "}" w Hw) in D2.
  change (countChar "}" "{") with 0%nat in D2.
  change (countChar "}" "}") with 1%nat in D2. lia.
Qed.

Lemma foldl_videoModelStep_objects (scripts : list string) (v : jsval) :
  (objects v <= 1)%nat ->
  (objects (foldl videoModelStep v scripts) <= 1)%nat.
Proof.
  revert v. induction scripts as [|content scripts IH]; intros v H; [done|].
  cbn [foldl]. by apply IH, videoModelStep_objects.
Qed.

Lemma lookup_last_objects (k : string) (fs : list (string * jsval))
    (v : jsval) :
  lookup_last k fs = Some v ->
  (objects v <= list_sum (List.map (fun kv => objects (snd kv)) fs))%nat.
Proof.
  induction fs as [|[k' v'] fs IH]; [done|]. cbn [lookup_last List.map snd].
  rewrite list_sum_cons.
  destruct (lookup_last k fs) as [v0|].
  - intros [= <-]. specialize (IH eq_refl). lia.
  - destruct (String.eqb k' k); [|done]. intros [= <-]. lia.
Qed.

Lemma field_objects (model : jsval) (k : string) :
  (objects model <= 1)%nat -> objects (field k model) = 0%nat.
Proof.
  destruct model as [| | | | | |fs]; try done. cbn [objects field]. intros H.
  destruct (lookup_last k fs) as [v|] eqn:E; [|done].
  apply lookup_last_objects in E. cbn [from_option Datatypes.id]. lia.
Qed.

Lemma field_of_flat (v : jsval) (k : string) :
  objects v = 0%nat -> field k v = VUndef.
Proof. by destruct v. Qed.

(** X30. [extractVideoDetails] never reports a rating other than 0 nor
    an author with a name. The videoModel it parses holds no inner
    object, since the capture of the pattern ends at the first closing
    brace and every object needs a closing brace of its own; so the
    rating has no value to read and an author has no properties, and
    the HTML fallback sets the rating to 0 and the author to null. *)
Theorem extractVideoDetails_rating_author (scripts : list string) (now : Z)
    (d : detailsDom) (details : jsval) :
  extractVideoDetails scripts now d = Some details ->
  field "rating" details = VNum (Int 0)
  /\ (field "author" details = VNull
      \/ field "author" details
         = VObj [("id", VUndef); ("name", VStr ""); ("pageURL", VStr "");
                 ("verified", VBool false)]).
Proof.
  unfold extractVideoDetails. cbv zeta.
  pose proof (foldl_videoModelStep_objects scripts VNull (Nat.le_0_l 1)) as F.
  revert F. generalize (foldl videoModelStep VNull scripts). intros model F.
  destruct (truthy model).
  - unfold detailsOfModel.
    destruct (extractVideoPathVal _) as [p|]; [|done].
    cbn [mbind outcome_bind].
    destruct (formatThumbnailUrlVal _) as [u|]; [|done].
    cbn [mbind outcome_bind]. intros [= <-].
    pose proof (field_objects model "rating" F) as R.
    pose proof (field_objects model "author" F) as A.
    split.
    + change (or_ (optProp (field "rating" model) "value") (VNum (Int 0))
              = VNum (Int 0)).
      assert (optProp (field "rating" model) "value" = VUndef) as ->; [|done].
      unfold optProp. rewrite (field_of_flat _ "value" R).
      by destruct (field "rating" model).
    + change ((if truthy (field "author" model) then
                 VObj [("id", field "id" (field "author" model));
                       ("name", or_ (field "name" (field "author" model))
                                  (VStr ""));
                       ("pageURL", or_ (field "pageURL" (field "author" model))
                                     (VStr ""));
                       ("verified", or_ (field "verified" (field "author" model))
                                      (VBool false))]
               else VNull) = VNull
              \/ (if truthy (field "author" model) then
                    VObj [("id", field "id" (field "author" model));
                          ("name", or_ (field "name" (field "author" model))
                                     (VStr ""));
                          ("pageURL",
                             or_ (field "pageURL" (field "author" model))
                               (VStr ""));
                          ("verified",
                             or_ (field "verified" (field "author" model))
                               (VBool false))]
                  else VNull)
                 = VObj [("id", VUndef); ("name", VStr ""); ("pageURL", VStr "");
                         ("verified", VBool false)]).
      rewrite !(field_of_flat _ _ A).
      destruct (truthy (field "author" model)); [by right | by left].
  - intros [= <-]. unfold detailsOfDom. cbv zeta.
    match goal with
    | |- context [entry "duration" ?a ++ entry "views" ?b ++ entry "id" ?c ++ _] =>
        generalize a b c
    end.
    intros [a|] [b|] [c|]; split; first [reflexivity | by left].
Qed.

Lemma extractVideoDetails_rating_author_witness :
  field "rating" flatDetails = VNum (Int 0)
  /\ (field "author" flatDetails = VNull
      \/ field "author" flatDetails
         = VObj [("id", VUndef); ("name", VStr ""); ("pageURL", VStr "");
                 ("verified", VBool false)]).
Proof.
  apply (extractVideoDetails_rating_author [flatModelScript] 5
           (DetailsDom noTags "" "" "") flatDetails).
  vm_compute. reflexivity.
Defined.
